(** * ClawGuard: the gated reverse proxy, its security guard, approval
      coordinator, audit store and out-of-band notifier.

    Shallow embedding of the modules imported as [./security],
    [./approval], [./audit], [./telegram] and [./proxy], with the types
    of [./types].

    Conventions of the embedding:
    - JavaScript strings are [string] (the data handled here, host names,
      header names and request targets, is ASCII);
    - ISO-8601 UTC timestamps ([toISOString], fixed width, so that their
      byte order is their time order) and [Date.now()] readings are
      milliseconds in [Z];
    - a JS object used as a dictionary in insertion order
      ([config.services], [req.headers]) is an association list; a [Map]
      or an object only read by key is a [gmap];
    - an [async] function is split at its [await]s into the part that runs
      up to the suspension and the continuations that run after it;
    - the platform's [URL] class is an interface ([UrlPlatform]); a model
      of the URL Standard's parser for plain http(s) URLs instantiates it
      where a concrete URL has to be computed. *)

From Stdlib Require Import ZArith List String Ascii Bool Lia.
From stdpp Require Import base option list gmap strings sorting pretty.

Local Open Scope string_scope.
Local Open Scope Z_scope.

(** ** JavaScript string primitives *)

Module JsString.

(** [ch.toLowerCase()] on one ASCII character. *)
Definition lower_ascii (c : ascii) : ascii :=
  let n := N_of_ascii c in
  if ((65 <=? n) && (n <=? 90))%N then ascii_of_N (n + 32) else c.

(** [s.toLowerCase()] *)
Fixpoint toLowerCase (s : string) : string :=
  match s with
  | EmptyString => EmptyString
  | String c s' => String (lower_ascii c) (toLowerCase s')
  end.

Definition upper_ascii (c : ascii) : ascii :=
  let n := N_of_ascii c in
  if ((97 <=? n) && (n <=? 122))%N then ascii_of_N (n - 32) else c.

(** [s.toUpperCase()] *)
Fixpoint toUpperCase (s : string) : string :=
  match s with
  | EmptyString => EmptyString
  | String c s' => String (upper_ascii c) (toUpperCase s')
  end.

(** [s.startsWith(p)] *)
Fixpoint startsWith (s p : string) : bool :=
  match p, s with
  | EmptyString, _ => true
  | String _ _, EmptyString => false
  | String a p', String b s' => if Ascii.eqb a b then startsWith s' p' else false
  end.

(** [s.substring(n)] for [0 <= n]: what is left after the first [n]
    characters (the empty string when [n] exceeds the length). *)
Fixpoint substring_from (n : nat) (s : string) : string :=
  match n, s with
  | O, _ => s
  | S _, EmptyString => EmptyString
  | S n', String _ s' => substring_from n' s'
  end.

(** [s.endsWith(suf)]: the last [suf.length] characters of [s] are [suf]. *)
Definition endsWith (s suf : string) : bool :=
  let n := String.length s in
  let m := String.length suf in
  (m <=? n)%nat && String.eqb (substring_from (n - m) s) suf.

(** [s.split(sep)[0]] for a one-character separator: the text before
    the first occurrence of [sep]. *)
Fixpoint before_first (sep : ascii) (s : string) : string :=
  match s with
  | EmptyString => EmptyString
  | String c s' => if Ascii.eqb c sep then EmptyString else String c (before_first sep s')
  end.

(** The text after the first occurrence of [sep], when there is one:
    together with [before_first], the first two fields of
    [s.split(sep)] up to the next separator. *)
Fixpoint after_first (sep : ascii) (s : string) : option string :=
  match s with
  | EmptyString => None
  | String c s' => if Ascii.eqb c sep then Some s' else after_first sep s'
  end.

(** [xs.join(sep)] *)
Fixpoint join (sep : string) (xs : list string) : string :=
  match xs with
  | [] => ""
  | [x] => x
  | x :: rest => x ++ sep ++ join sep rest
  end.

(** [a || b] on strings: the empty string is falsy. *)
Definition or_else (a b : string) : string :=
  if String.eqb a "" then b else a.

(** An optional string that is truthy: present and not empty. *)
Definition truthy (o : option string) : option string :=
  match o with
  | Some s => if String.eqb s "" then None else Some s
  | None => None
  end.

(** [obj[key]] on an object kept as its list of entries. *)
Fixpoint get {A : Type} (key : string) (entries : list (string * A)) : option A :=
  match entries with
  | [] => None
  | (k, v) :: rest => if String.eqb k key then Some v else get key rest
  end.

End JsString.

(** ** A matcher for the regular expressions of [PRIVATE_IP_RANGES] *)

Module Regex.

(** The syntax used by the patterns of [PRIVATE_IP_RANGES]: literals, [\d],
    character ranges and sets, sequence, alternation and the end
    anchor [$].  Every pattern there starts with [^]. *)
Inductive regex : Type :=
| Lit (c : ascii)
| Digit
| Range (lo hi : ascii)
| OneOf (cs : list ascii)
| Seq (r1 r2 : regex)
| Alt (r1 r2 : regex)
| AtEnd.

Definition in_range (lo hi c : ascii) : bool :=
  ((N_of_ascii lo <=? N_of_ascii c) && (N_of_ascii c <=? N_of_ascii hi))%N.

(** [consume ci r s]: the remainders of [s] after each way of matching
    [r] at its start, in backtracking order; [ci] is the [i] flag. *)
Fixpoint consume (ci : bool) (r : regex) (s : string) : list string :=
  match r with
  | Lit c =>
      match s with
      | String d s' =>
          if (if ci then Ascii.eqb (JsString.lower_ascii c) (JsString.lower_ascii d)
              else Ascii.eqb c d)
          then [s'] else []
      | EmptyString => []
      end
  | Digit =>
      match s with
      | String d s' => if in_range "0" "9" d then [s'] else []
      | EmptyString => []
      end
  | Range lo hi =>
      match s with
      | String d s' => if in_range lo hi d then [s'] else []
      | EmptyString => []
      end
  | OneOf cs =>
      match s with
      | String d s' => if existsb (Ascii.eqb d) cs then [s'] else []
      | EmptyString => []
      end
  | Seq r1 r2 => flat_map (consume ci r2) (consume ci r1 s)
  | Alt r1 r2 => consume ci r1 s ++ consume ci r2 s
  | AtEnd => match s with EmptyString => [s] | _ => [] end
  end.

(** A pattern [/^r/] or [/^r/i]. *)
Record pattern : Type := Pattern { body : regex; ignoreCase : bool }.

(** [p.test(s)] for a pattern anchored at the start. *)
Definition test (p : pattern) (s : string) : bool :=
  match consume (ignoreCase p) (body p) s with
  | [] => false
  | _ :: _ => true
  end.

End Regex.

(** ** The platform's [URL] class *)

Module Url.
Import JsString.

(** What the code uses of [URL]: the constructor [new URL(input)] and
    [new URL(input, base)] ([None] when it throws [TypeError]), the
    getters [hostname], [host], [protocol], [toString()] and
    [searchParams.set(name, value)]. *)
Class UrlPlatform : Type := {
  URL : Type;
  URL_new : string -> option string -> option URL;
  hostname : URL -> string;
  host : URL -> string;
  protocol : URL -> string;
  toString : URL -> string;
  searchParams_set : string -> string -> URL -> URL
}.

(** *** A model of the URL Standard for plain http(s) URLs

    The record is the standard's URL record for the special schemes
    [http] and [https].  The parser below follows the basic URL parser
    on inputs made of letters, digits and [-._~/\?#=&:@+,;!$*()%] whose
    host is an ASCII domain or a dotted-decimal IPv4 address in
    canonical form and whose user name and password, if any, need no
    percent-encoding; on anything else (other schemes, characters the
    standard would strip or percent-encode, IPv6 literals, internationalised
    labels, numeric hosts needing normalisation) it answers [None], so it
    is only meant to be evaluated on inputs of that form. *)
Record url : Type := {
  scheme : string;
  username : string;
  password : string;
  url_host : string;
  port : option N;
  path : list string;
  query : option string;
  fragment : option string
}.

Definition is_alpha (c : ascii) : bool :=
  let n := N_of_ascii c in
  (((65 <=? n) && (n <=? 90)) || ((97 <=? n) && (n <=? 122)))%N.

Definition is_digit (c : ascii) : bool :=
  let n := N_of_ascii c in ((48 <=? n) && (n <=? 57))%N.

Definition is_slash (c : ascii) : bool :=
  Ascii.eqb c "/" || Ascii.eqb c "\".

Fixpoint all_chars (f : ascii -> bool) (s : string) : bool :=
  match s with
  | EmptyString => true
  | String c s' => f c && all_chars f s'
  end.

Definition plain_char (c : ascii) : bool :=
  is_alpha c || is_digit c
  || existsb (Ascii.eqb c)
       ["-"; "."; "_"; "~"; "/"; "\"; "?"; "#"; "="; "&"; ":"; "@"; "+"; ",";
        ";"; "!"; "$"; "*"; "("; ")"; "%"]%char.

(** The text before the first character satisfying [stop], and the
    rest starting at that character. *)
Fixpoint span_until (stop : ascii -> bool) (s : string) : string * string :=
  match s with
  | EmptyString => (EmptyString, EmptyString)
  | String c s' =>
      if stop c then (EmptyString, s)
      else let '(a, b) := span_until stop s' in (String c a, b)
  end.

Fixpoint drop_while (f : ascii -> bool) (s : string) : string :=
  match s with
  | EmptyString => EmptyString
  | String c s' => if f c then drop_while f s' else s
  end.

(** The text before and after the last ["@"], when there is one. *)
Fixpoint split_last_at (s : string) : option (string * string) :=
  match s with
  | EmptyString => None
  | String c s' =>
      match split_last_at s' with
      | Some (a, b) => Some (String c a, b)
      | None => if Ascii.eqb c "@" then Some (EmptyString, s') else None
      end
  end.

Fixpoint digits_value (acc : N) (s : string) : N :=
  match s with
  | EmptyString => acc
  | String c s' => digits_value (acc * 10 + (N_of_ascii c - 48))%N s'
  end.

Definition default_port (sch : string) : option N :=
  if String.eqb sch "http" then Some 80%N
  else if String.eqb sch "https" then Some 443%N
  else None.

Definition is_special (sch : string) : bool :=
  String.eqb sch "http" || String.eqb sch "https".

(** Scheme start and scheme states: [Some (scheme, rest)] when the
    input starts with a scheme followed by [":"]. *)
Definition take_scheme (s : string) : option (string * string) :=
  match s with
  | String c _ =>
      if is_alpha c then
        let '(a, b) := span_until
                         (fun d => negb (is_alpha d || is_digit d
                                         || Ascii.eqb d "+" || Ascii.eqb d "-"
                                         || Ascii.eqb d ".")) s in
        match b with
        | String ":" rest => Some (toLowerCase a, rest)
        | _ => None
        end
      else None
  | EmptyString => None
  end.

(** [s.split(sep)] for a one-character separator. *)
Fixpoint split_aux (sep : ascii) (cur : string) (s : string) : list string :=
  match s with
  | EmptyString => [cur]
  | String c s' =>
      if Ascii.eqb c sep then cur :: split_aux sep EmptyString s'
      else split_aux sep (cur ++ String c EmptyString) s'
  end.

Definition split_on (sep : ascii) (s : string) : list string :=
  split_aux sep EmptyString s.

(** Labels of a host name. *)
Definition labels (s : string) : list string := split_on "." s.

Definition canonical_octet (s : string) : bool :=
  all_chars is_digit s
  && (1 <=? String.length s)%nat && (String.length s <=? 3)%nat
  && (match s with
      | String "0" (String _ _) => false
      | _ => true
      end)
  && (digits_value 0 s <=? 255)%N.

Definition is_hex_digit (c : ascii) : bool :=
  let n := N_of_ascii (lower_ascii c) in
  is_digit c || ((97 <=? n) && (n <=? 102))%N.

(** "Ends in a number": the last label is made of digits, or is [0x]
    followed by hexadecimal digits; such a host goes to the IPv4 parser. *)
Definition is_number_label (l : string) : bool :=
  match l with
  | EmptyString => false
  | String "0" (String x rest) =>
      if Ascii.eqb (lower_ascii x) "x" then all_chars is_hex_digit rest
      else all_chars is_digit l
  | _ => all_chars is_digit l
  end.

(** Host parsing on the modelled inputs: an ASCII domain is lower-cased;
    a host that ends in a number is kept when it is four decimal groups
    in canonical form, which the IPv4 parser and serializer leave as they
    are. *)
Definition parse_host (h : string) : option string :=
  let h' := toLowerCase h in
  let ls := labels h' in
  if String.eqb h' "" then None
  else if negb (all_chars (fun c => is_alpha c || is_digit c
                                    || Ascii.eqb c "-" || Ascii.eqb c "."
                                    || Ascii.eqb c "_") h') then None
  else if existsb (fun l => startsWith l "xn--") ls then None
  else
    let lastl := List.last ls "" in
    if String.eqb lastl "" then None
    else if is_number_label lastl then
      if ((List.length ls =? 4)%nat && forallb canonical_octet ls)
      then Some h' else None
    else Some h'.

(** Port state: an empty port is no port; the scheme's default port is
    dropped. *)
Definition parse_port (sch p : string) : option (option N) :=
  if negb (all_chars is_digit p) then None
  else if String.eqb p "" then Some None
  else
    let n := digits_value 0 p in
    if (65535 <? n)%N then None
    else if decide (default_port sch = Some n) then Some None
    else Some (Some n).

(** Shorten a URL's path (not [file:]): drop the last segment. *)
Definition shorten (p : list string) : list string := removelast p.

Definition is_double_dot (seg : string) : bool :=
  let l := toLowerCase seg in
  String.eqb l ".." || String.eqb l ".%2e" || String.eqb l "%2e." || String.eqb l "%2e%2e".

Definition is_single_dot (seg : string) : bool :=
  let l := toLowerCase seg in
  String.eqb l "." || String.eqb l "%2e".

(** Path state: [cur] is the buffer, [p] the path so far; the input
    holds neither ["?"] nor ["#"]. *)
Fixpoint path_state (p : list string) (cur : string) (s : string) : list string :=
  match s with
  | EmptyString =>
      if is_double_dot cur then shorten p ++ [""]
      else if is_single_dot cur then p ++ [""]
      else p ++ [cur]
  | String c s' =>
      if is_slash c then
        if is_double_dot cur then path_state (shorten p) "" s'
        else if is_single_dot cur then path_state p "" s'
        else path_state (p ++ [cur]) "" s'
      else path_state p (cur ++ String c EmptyString) s'
  end.

(** Split [rest] into the part before ["?"] and the query after it. *)
Definition split_query (s : string) : string * option string :=
  let '(a, b) := span_until (Ascii.eqb "?") s in
  match b with
  | String _ q => (a, Some q)
  | EmptyString => (a, None)
  end.

(** Path start state and what follows, for a special URL whose
    authority is known. *)
Definition finish (sch user pass h : string) (prt : option N)
    (p0 : list string) (rest : string) (frag : option string) : url :=
  let '(pth, q) := split_query rest in
  let pth' := match pth with
              | String c r => if is_slash c then r else pth
              | EmptyString => pth
              end in
  {| scheme := sch; username := user; password := pass; url_host := h;
     port := prt; path := path_state p0 "" pth'; query := q; fragment := frag |}.

(** The characters of a user name or password that are kept as they
    are. *)
Definition userinfo_char (c : ascii) : bool :=
  plain_char c && negb (existsb (Ascii.eqb c) [";"; "="; "@"; ":"]%char).

(** Authority state, host state and port state; [s] starts right after
    the slashes. *)
Definition authority_state (sch : string) (s : string) (frag : option string)
  : option url :=
  let '(auth, rest) := span_until (fun c => is_slash c || Ascii.eqb c "?") s in
  let '(cred, hp) := match split_last_at auth with
                     | Some (a, b) => (Some a, b)
                     | None => (None, auth)
                     end in
  let '(h, after) := span_until (Ascii.eqb ":") hp in
  let p := match after with String _ p' => p' | EmptyString => EmptyString end in
  let '(user, pass) :=
    match cred with
    | Some c =>
        let '(u, r) := span_until (Ascii.eqb ":") c in
        (u, match r with String _ pw => pw | EmptyString => EmptyString end)
    | None => (EmptyString, EmptyString)
    end in
  if negb (all_chars userinfo_char user && all_chars userinfo_char pass) then None
  else
    h' ← parse_host h;
    prt ← parse_port sch p;
    Some (finish sch user pass h' prt [] rest frag).

(** Relative state and relative slash state, against the base [b]. *)
Definition relative_state (b : url) (s : string) (frag : option string) : option url :=
  match s with
  | String c s' =>
      if is_slash c then
        match s' with
        | String d _ =>
            if is_slash d then authority_state (scheme b) (drop_while is_slash s') frag
            else Some (finish (scheme b) (username b) (password b) (url_host b) (port b)
                              [] s frag)
        | EmptyString =>
            Some (finish (scheme b) (username b) (password b) (url_host b) (port b)
                         [] s frag)
        end
      else if Ascii.eqb c "?" then
        Some {| scheme := scheme b; username := username b; password := password b;
                url_host := url_host b; port := port b; path := path b;
                query := Some s'; fragment := frag |}
      else
        let '(pth, q) := split_query s in
        Some {| scheme := scheme b; username := username b; password := password b;
                url_host := url_host b; port := port b;
                path := path_state (shorten (path b)) "" pth;
                query := q; fragment := frag |}
  | EmptyString =>
      Some {| scheme := scheme b; username := username b; password := password b;
              url_host := url_host b; port := port b; path := path b;
              query := query b; fragment := frag |}
  end.

(** The basic URL parser, with an already parsed base. *)
Definition basic_parse (input : string) (base : option url) : option url :=
  if negb (all_chars plain_char input) then None
  else
    let '(body, frag) :=
      let '(a, b) := span_until (Ascii.eqb "#") input in
      (a, match b with String _ f => Some f | EmptyString => None end) in
    match take_scheme body with
    | Some (sch, rest) =>
        if negb (is_special sch) then None
        else
          match base with
          | Some b =>
              if String.eqb (scheme b) sch then relative_state b rest frag
              else authority_state sch (drop_while is_slash rest) frag
          | None => authority_state sch (drop_while is_slash rest) frag
          end
    | None =>
        match base with
        | Some b => relative_state b body frag
        | None => None
        end
    end.

(** [new URL(input, base)]: the base string is parsed first. *)
Definition parse (input : string) (base : option string) : option url :=
  match base with
  | None => basic_parse input None
  | Some bs =>
      b ← basic_parse bs None;
      basic_parse input (Some b)
  end.

(** The [host] getter: host name and, when there is one, the port. *)
Definition host_of (u : url) : string :=
  match port u with
  | Some n => url_host u ++ ":" ++ pretty n
  | None => url_host u
  end.

(** The URL serializer ([href], [toString()]). *)
Definition serialize (u : url) : string :=
  scheme u ++ "://"
  ++ (if String.eqb (username u) "" && String.eqb (password u) "" then ""
      else username u
           ++ (if String.eqb (password u) "" then "" else ":" ++ password u)
           ++ "@")
  ++ host_of u
  ++ String.concat "" (List.map (fun seg => "/" ++ seg) (path u))
  ++ (match query u with Some q => "?" ++ q | None => "" end)
  ++ (match fragment u with Some f => "#" ++ f | None => "" end).

(** [searchParams.set]: the query as a list of [name=value] pairs, for
    names and values that form-urlencoding leaves as they are. *)
Definition query_pairs (q : string) : list (string * string) :=
  omap (fun kv : string =>
          if String.eqb kv "" then None
          else Some (before_first "=" kv,
                     match after_first "=" kv with Some v => v | None => "" end))
       (split_on "&" q).

(** Replace the value of the first pair named [name], drop the other
    pairs of that name, or append a new pair. *)
Fixpoint set_pair (name value : string) (found : bool) (l : list (string * string))
  : list (string * string) :=
  match l with
  | [] => if found then [] else [(name, value)]
  | (k, v) :: l' =>
      if String.eqb k name then
        if found then set_pair name value true l'
        else (k, value) :: set_pair name value true l'
      else (k, v) :: set_pair name value found l'
  end.

Definition set_param (name value : string) (u : url) : url :=
  let pairs := match query u with Some q => query_pairs q | None => [] end in
  let q' := JsString.join "&"
              (List.map (fun kv : string * string => fst kv ++ "=" ++ snd kv)
                        (set_pair name value false pairs)) in
  {| scheme := scheme u; username := username u; password := password u;
     url_host := url_host u; port := port u; path := path u;
     query := Some q'; fragment := fragment u |}.

Definition whatwg : UrlPlatform := {|
  URL := url;
  URL_new := parse;
  hostname := url_host;
  host := host_of;
  protocol := fun u => scheme u ++ ":";
  toString := serialize;
  searchParams_set := set_param
|}.

End Url.

(** ** [./types] *)

Module Types.

Inductive Action : Type := auto_approve | require_approval.

(** [match.method] and [match.path] are optional. *)
Record PolicyRule : Type := {
  match_method : option string;
  match_path : option string;
  action : Action
}.

Inductive AuthType : Type := bearer | header | query.

Record Auth : Type := {
  auth_type : AuthType;
  token : string;
  headerName : option string;
  paramName : option string
}.

Record Policy : Type := {
  default : Action;
  rules : option (list PolicyRule)
}.

Record ServiceConfig : Type := {
  upstream : string;
  auth : Auth;
  policy : Policy;
  hostnames : option (list string)
}.

Record SecurityConfig : Type := {
  allowedUpstreams : list string;
  blockPrivateIPs : bool;
  followRedirects : bool;
  maxPayloadLogSize : Z
}.

Record TelegramConfig : Type := {
  botToken : string;
  chatId : string;
  pairing_enabled : bool;
  pairing_secret : string
}.

(** The fields of [Config] read by the proxy, the approval manager
    and the notifier; [services] keeps the insertion order that
    [Object.entries] walks. *)
Record Config : Type := {
  server_agentKey : string;
  services : list (string * ServiceConfig);
  telegram : TelegramConfig;
  audit_logPayload : bool;
  security : SecurityConfig
}.

Record Approval : Type := {
  service : string;
  approvedAt : Z;
  expiresAt : Z;
  approvedBy : string
}.

Record AuditEntry : Type := {
  timestamp : Z;
  entry_service : string;
  method : string;
  entry_path : string;
  approved : bool;
  responseStatus : option Z;
  agentIp : string;
  requestBody : option string;
  responseBody : option string
}.

End Types.

(** ** [./security]: the pure checks of the Security Guard *)

Module Security.
Import JsString Regex Url Types.

Definition dot : regex := Lit ".".

(** A literal prefix, written in reading order. *)
Fixpoint word (s : string) : regex :=
  match s with
  | EmptyString => OneOf []
  | String c EmptyString => Lit c
  | String c s' => Seq (Lit c) (word s')
  end.

Definition PRIVATE_IP_RANGES : list pattern :=
  [ Pattern (word "127.") false                       (* /^127\./ *)
  ; Pattern (word "10.") false                        (* /^10\./ *)
  ; Pattern (Seq (word "172.")
              (Seq (Alt (Seq (Lit "1") (Range "6" "9"))
                     (Alt (Seq (Lit "2") Digit)
                          (Seq (Lit "3") (OneOf ["0"; "1"]%char))))
                   dot)) false                        (* /^172\.(1[6-9]|2\d|3[01])\./ *)
  ; Pattern (word "192.168.") false                   (* /^192\.168\./ *)
  ; Pattern (word "169.254.") false                   (* /^169\.254\./ *)
  ; Pattern (word "0.") false                         (* /^0\./ *)
  ; Pattern (Seq (word "::1") AtEnd) false            (* /^::1$/ *)
  ; Pattern (word "fc00:") true                       (* /^fc00:/i *)
  ; Pattern (word "fe80:") true                       (* /^fe80:/i *)
  ].

Definition isPrivateIP (ip : string) : bool :=
  existsb (fun range => test range ip) PRIVATE_IP_RANGES.

Definition isAllowedUpstream (hostname : string) (allowedUpstreams : list string) : bool :=
  if (List.length allowedUpstreams =? 0)%nat then true
  else existsb (fun allowed =>
                  String.eqb hostname allowed || endsWith hostname ("." ++ allowed))
               allowedUpstreams.

(** The [reason] of a failed check, by the branch that produced it. *)
Inductive reason : Type :=
| InvalidURL
| NotInAllowlist
| ResolvesToPrivateIP
| UnsupportedProtocol
| FailedToParse
| PathTraversal.

(** [{ valid: boolean; reason?: string }] *)
Record verdict : Type := Verdict { valid : bool; why : option reason }.

Definition ok : verdict := Verdict true None.
Definition rejected (r : reason) : verdict := Verdict false (Some r).

Section Guard.
Context {platform : UrlPlatform}.

Definition validateUpstreamUrl (urlString : string) (security : SecurityConfig)
  : verdict :=
  match URL_new urlString None with
  | None => rejected InvalidURL
  | Some parsed =>
      if negb (isAllowedUpstream (hostname parsed) (allowedUpstreams security))
      then rejected NotInAllowlist
      else if blockPrivateIPs security && isPrivateIP (hostname parsed)
      then rejected ResolvesToPrivateIP
      else if negb (existsb (String.eqb (protocol parsed)) ["http:"; "https:"])
      then rejected UnsupportedProtocol
      else ok
  end.

Definition validateRuntimeUrl (constructedUrl originalUpstream : string)
    (security : SecurityConfig) : verdict :=
  match URL_new constructedUrl None, URL_new originalUpstream None with
  | Some constructed, Some original =>
      if negb (String.eqb (hostname constructed) (hostname original))
      then rejected PathTraversal
      else validateUpstreamUrl constructedUrl security
  | _, _ => rejected FailedToParse
  end.
End Guard.

(** Why [validateAllUpstreams] ends the process. *)
Inductive violation : Type :=
| UpstreamRejected (name : string) (r : option reason)
| HostnameNotAllowed (name hostname : string)
| UrlThrew (name : string).

Section Startup.
Context {platform : UrlPlatform}.

(** The body of the loop of [validateAllUpstreams] for one service:
    [None] when the loop goes on, [Some v] when it calls
    [process.exit(1)].  The hostnames are looked at only when the list is
    there and not empty. *)
Definition validate_service (security : SecurityConfig)
    (entry : string * ServiceConfig) : option violation :=
  let '(name, service) := entry in
  let result := validateUpstreamUrl (upstream service) security in
  if negb (valid result) then Some (UpstreamRejected name (why result))
  else
    match hostnames service with
    | Some (h :: hs) =>
        match URL_new (upstream service) None with
        | None => Some (UrlThrew name)
        | Some parsed =>
            let upstreamHost := hostname parsed in
            match List.find
                    (fun hostname =>
                       negb (String.eqb hostname upstreamHost)
                       && negb (isAllowedUpstream hostname (allowedUpstreams security)))
                    (h :: hs) with
            | Some bad => Some (HostnameNotAllowed name bad)
            | None => None
            end
        end
    | _ => None
    end.

(** [validateAllUpstreams]: [None] when it returns, [Some v] when it
    exits the process at the first violation. *)
Fixpoint validate_services (security : SecurityConfig)
    (entries : list (string * ServiceConfig)) : option violation :=
  match entries with
  | [] => None
  | entry :: rest =>
      match validate_service security entry with
      | Some v => Some v
      | None => validate_services security rest
      end
  end.

Definition validateAllUpstreams (config : Config) : option violation :=
  validate_services (security config) (services config).

End Startup.

End Security.

(** ** The state of the running gateway and its effects *)

Module Runtime.
Import Types.

(** A row of the [approvals] table. *)
Record ApprovalRow : Type := {
  id : Z;
  row_timestamp : Z;
  row_service : string;
  approved_by : string;
  ttl_seconds : Z;
  expires_at : Z;
  revoked : bool
}.

(** [{ approved, ttlSeconds, approvedBy }]: what the promises raced by
    [checkApproval] resolve to. *)
Record ApprovalResult : Type := {
  d_approved : bool;
  d_ttlSeconds : Z;
  d_approvedBy : string
}.

(** The [{ error: ... }] bodies sent by the proxy. *)
Inductive ErrorBody : Type :=
| InvalidOrMissingKey
| NotFound
| UnknownService (name : string)
| UnknownHost
| BlockedBySecurityPolicy
| ApprovalDeniedOrTimedOut.

Definition error_text (e : ErrorBody) : string :=
  match e with
  | InvalidOrMissingKey => "Invalid or missing X-ClawGuard-Key"
  | NotFound => "Not found"
  | UnknownService name => "Unknown service: " ++ name
  | UnknownHost =>
      "Unknown host. Configure hostnames in service config for host-based routing."
  | BlockedBySecurityPolicy => "Request blocked by security policy"
  | ApprovalDeniedOrTimedOut => "Approval denied or timed out"
  end.

(** The texts the bot answers a button press with. *)
Inductive Answer : Type :=
| NotPaired
| RequestExpired
| ApprovedOnce
| ApprovedFor15m
| ApprovedFor1h
| ApprovedFor8h
| ApprovedFor24h
| Denied.

(** What the gateway does to the outside and to its own stores, in the
    order it does it. *)
Inductive effect : Type :=
| HttpResponse (status : Z) (body : ErrorBody)
| InsertRequest (e : AuditEntry)
| InsertApproval (r : ApprovalRow)
| DeleteExpired (now : Z)
| MarkRevoked (service : string)
| GrantInstalled (a : Approval)
| GrantDropped (service : string)
| UpstreamRequest (url method : string) (headers : gmap string string) (body : string)
| PromptSent (requestId : string)
| CallbackAnswered (a : Answer)
| PromptEdited (requestId : string) (a : Answer) (by_user : string)
| ReplyChannelInvoked (requestId : string) (d : ApprovalResult).

Record World : Type := {
  (** wall clock, [Date.now()] *)
  clock : Z;
  (** [AuditLogger]: the tables [requests], [approvals] and
      [telegram_paired_users] *)
  requests : list AuditEntry;
  approvals : list ApprovalRow;
  next_approval_id : Z;
  telegram_paired_users : gset string;
  (** [ApprovalManager] *)
  activeApprovals : gmap string Approval;
  requestCounter : Z;
  (** for each request suspended in [checkApproval], the outcome of its
      [Promise.race]: [None] while it is pending *)
  awaiting : gmap string (option ApprovalResult);
  (** [TelegramNotifier]; a callback is identified by the request whose
      promise it resolves *)
  pendingCallbacks : gmap string string;
  pendingTexts : gmap string string;
  paired : bool;
  (** everything done so far, oldest first *)
  trace : list effect
}.

(** Computations over the world. *)
Definition M (A : Type) : Type := World -> A * World.

#[global] Instance M_ret : MRet M := fun A a w => (a, w).
#[global] Instance M_bind : MBind M :=
  fun A B f m w => let '(a, w') := m w in f a w'.

Definition gets {A : Type} (f : World -> A) : M A := fun w => (f w, w).
Definition modify (f : World -> World) : M unit := fun w => (tt, f w).

Definition emit (e : effect) : M unit :=
  modify (fun w =>
    {| clock := clock w; requests := requests w; approvals := approvals w;
       next_approval_id := next_approval_id w;
       telegram_paired_users := telegram_paired_users w;
       activeApprovals := activeApprovals w; requestCounter := requestCounter w;
       awaiting := awaiting w; pendingCallbacks := pendingCallbacks w;
       pendingTexts := pendingTexts w; paired := paired w;
       trace := trace w ++ [e] |}).

Definition set_requests (f : list AuditEntry -> list AuditEntry) : M unit :=
  modify (fun w =>
    {| clock := clock w; requests := f (requests w); approvals := approvals w;
       next_approval_id := next_approval_id w;
       telegram_paired_users := telegram_paired_users w;
       activeApprovals := activeApprovals w; requestCounter := requestCounter w;
       awaiting := awaiting w; pendingCallbacks := pendingCallbacks w;
       pendingTexts := pendingTexts w; paired := paired w;
       trace := trace w |}).

Definition set_approvals (f : list ApprovalRow -> list ApprovalRow) : M unit :=
  modify (fun w =>
    {| clock := clock w; requests := requests w; approvals := f (approvals w);
       next_approval_id := next_approval_id w;
       telegram_paired_users := telegram_paired_users w;
       activeApprovals := activeApprovals w; requestCounter := requestCounter w;
       awaiting := awaiting w; pendingCallbacks := pendingCallbacks w;
       pendingTexts := pendingTexts w; paired := paired w;
       trace := trace w |}).

Definition set_next_approval_id (n : Z) : M unit :=
  modify (fun w =>
    {| clock := clock w; requests := requests w; approvals := approvals w;
       next_approval_id := n;
       telegram_paired_users := telegram_paired_users w;
       activeApprovals := activeApprovals w; requestCounter := requestCounter w;
       awaiting := awaiting w; pendingCallbacks := pendingCallbacks w;
       pendingTexts := pendingTexts w; paired := paired w;
       trace := trace w |}).

Definition set_activeApprovals
    (f : gmap string Approval -> gmap string Approval) : M unit :=
  modify (fun w =>
    {| clock := clock w; requests := requests w; approvals := approvals w;
       next_approval_id := next_approval_id w;
       telegram_paired_users := telegram_paired_users w;
       activeApprovals := f (activeApprovals w); requestCounter := requestCounter w;
       awaiting := awaiting w; pendingCallbacks := pendingCallbacks w;
       pendingTexts := pendingTexts w; paired := paired w;
       trace := trace w |}).

Definition set_requestCounter (n : Z) : M unit :=
  modify (fun w =>
    {| clock := clock w; requests := requests w; approvals := approvals w;
       next_approval_id := next_approval_id w;
       telegram_paired_users := telegram_paired_users w;
       activeApprovals := activeApprovals w; requestCounter := n;
       awaiting := awaiting w; pendingCallbacks := pendingCallbacks w;
       pendingTexts := pendingTexts w; paired := paired w;
       trace := trace w |}).

Definition set_awaiting
    (f : gmap string (option ApprovalResult) -> gmap string (option ApprovalResult)) : M unit :=
  modify (fun w =>
    {| clock := clock w; requests := requests w; approvals := approvals w;
       next_approval_id := next_approval_id w;
       telegram_paired_users := telegram_paired_users w;
       activeApprovals := activeApprovals w; requestCounter := requestCounter w;
       awaiting := f (awaiting w); pendingCallbacks := pendingCallbacks w;
       pendingTexts := pendingTexts w; paired := paired w;
       trace := trace w |}).

Definition set_pendingCallbacks
    (f : gmap string string -> gmap string string) : M unit :=
  modify (fun w =>
    {| clock := clock w; requests := requests w; approvals := approvals w;
       next_approval_id := next_approval_id w;
       telegram_paired_users := telegram_paired_users w;
       activeApprovals := activeApprovals w; requestCounter := requestCounter w;
       awaiting := awaiting w; pendingCallbacks := f (pendingCallbacks w);
       pendingTexts := pendingTexts w; paired := paired w;
       trace := trace w |}).

Definition set_pendingTexts
    (f : gmap string string -> gmap string string) : M unit :=
  modify (fun w =>
    {| clock := clock w; requests := requests w; approvals := approvals w;
       next_approval_id := next_approval_id w;
       telegram_paired_users := telegram_paired_users w;
       activeApprovals := activeApprovals w; requestCounter := requestCounter w;
       awaiting := awaiting w; pendingCallbacks := pendingCallbacks w;
       pendingTexts := f (pendingTexts w); paired := paired w;
       trace := trace w |}).

(** Time passing between two steps of the gateway. *)
Definition advance (ms : Z) (w : World) : World :=
  {| clock := clock w + ms; requests := requests w; approvals := approvals w;
     next_approval_id := next_approval_id w;
     telegram_paired_users := telegram_paired_users w;
     activeApprovals := activeApprovals w; requestCounter := requestCounter w;
     awaiting := awaiting w; pendingCallbacks := pendingCallbacks w;
     pendingTexts := pendingTexts w; paired := paired w;
     trace := trace w |}.

(** [Date.now()] *)
Definition Date_now : M Z := gets clock.

(** [for (const x of xs) body(x)] *)
Fixpoint for_each {A : Type} (xs : list A) (body : A -> M unit) : M unit :=
  match xs with
  | [] => mret tt
  | x :: rest => body x;; for_each rest body
  end.

Definition set_paired (b : bool) : M unit :=
  modify (fun w =>
    {| clock := clock w; requests := requests w; approvals := approvals w;
       next_approval_id := next_approval_id w;
       telegram_paired_users := telegram_paired_users w;
       activeApprovals := activeApprovals w; requestCounter := requestCounter w;
       awaiting := awaiting w; pendingCallbacks := pendingCallbacks w;
       pendingTexts := pendingTexts w; paired := b;
       trace := trace w |}).

Definition set_telegram_paired_users (f : gset string -> gset string) : M unit :=
  modify (fun w =>
    {| clock := clock w; requests := requests w; approvals := approvals w;
       next_approval_id := next_approval_id w;
       telegram_paired_users := f (telegram_paired_users w);
       activeApprovals := activeApprovals w; requestCounter := requestCounter w;
       awaiting := awaiting w; pendingCallbacks := pendingCallbacks w;
       pendingTexts := pendingTexts w; paired := paired w;
       trace := trace w |}).

End Runtime.

(** ** [./audit]: the Audit Store *)

Module AuditLogger.
Import Types Runtime.

(** [entry.requestBody || null] *)
Definition or_null (o : option string) : option string :=
  match o with
  | Some s => if String.eqb s "" then None else Some s
  | None => None
  end.

Definition logRequest (entry : AuditEntry) : M unit :=
  let row :=
    {| timestamp := timestamp entry; entry_service := entry_service entry;
       method := method entry; entry_path := entry_path entry;
       approved := approved entry; responseStatus := responseStatus entry;
       agentIp := agentIp entry;
       requestBody := or_null (requestBody entry);
       responseBody := or_null (responseBody entry) |} in
  set_requests (fun rows => (rows ++ [row])%list);;
  emit (InsertRequest row).

Definition logApproval (service approvedBy : string) (ttlSeconds : Z) : M unit :=
  now ← Date_now;
  let expiresAt := now + ttlSeconds * 1000 in
  n ← gets next_approval_id;
  let row :=
    {| id := n; row_timestamp := now; row_service := service;
       approved_by := approvedBy; ttl_seconds := ttlSeconds;
       expires_at := expiresAt; revoked := false |} in
  set_approvals (fun rows => (rows ++ [row])%list);;
  set_next_approval_id (n + 1);;
  emit (InsertApproval row).

(** [ORDER BY id DESC] *)
Definition newest_first : relation ApprovalRow := fun a b => id b <= id a.

#[global] Instance newest_first_dec a b : Decision (newest_first a b) :=
  Z_le_dec (id b) (id a).

Definition to_approval (row : ApprovalRow) : Approval :=
  {| service := row_service row; approvedAt := row_timestamp row;
     expiresAt := expires_at row; approvedBy := approved_by row |}.

(** The deduplication loop: [seen] is the [Set] of services met so far. *)
Fixpoint dedupe (seen : gset string) (rows : list ApprovalRow) : list Approval :=
  match rows with
  | [] => []
  | row :: rest =>
      if decide (row_service row ∈ seen) then dedupe seen rest
      else to_approval row :: dedupe ({[row_service row]} ∪ seen) rest
  end.

(** [DELETE FROM approvals WHERE expires_at <= ?] *)
Definition delete_expired (now : Z) (rows : list ApprovalRow) : list ApprovalRow :=
  List.filter (fun r => negb (expires_at r <=? now)) rows.

(** [SELECT ... WHERE expires_at > ? AND revoked = 0 ORDER BY id DESC] *)
Definition select_active (now : Z) (rows : list ApprovalRow) : list ApprovalRow :=
  merge_sort newest_first
    (List.filter (fun r => (now <? expires_at r) && negb (revoked r)) rows).

Definition getActiveApprovals : M (list Approval) :=
  now ← Date_now;
  set_approvals (delete_expired now);;
  emit (DeleteExpired now);;
  rows ← gets (fun w => select_active now (approvals w));
  mret (dedupe ∅ rows).

(** [UPDATE approvals SET revoked = 1 WHERE service = ? AND revoked = 0] *)
Definition mark_revoked (service : string) (r : ApprovalRow) : ApprovalRow :=
  if String.eqb (row_service r) service && negb (revoked r)
  then {| id := id r; row_timestamp := row_timestamp r; row_service := row_service r;
          approved_by := approved_by r; ttl_seconds := ttl_seconds r;
          expires_at := expires_at r; revoked := true |}
  else r.

Definition revokeApprovalInDb (service : string) : M unit :=
  set_approvals (List.map (mark_revoked service));;
  emit (MarkRevoked service).

Definition isPairedUser (chatId : string) : M bool :=
  gets (fun w => bool_decide (chatId ∈ telegram_paired_users w)).

(** [INSERT OR REPLACE INTO telegram_paired_users]: the table is kept as
    the set of its primary keys. *)
Definition pairUser (chatId : string) : M unit :=
  set_telegram_paired_users (fun users => {[chatId]} ∪ users).

(** [DELETE FROM telegram_paired_users WHERE chat_id = ?] *)
Definition unpairUser (chatId : string) : M unit :=
  set_telegram_paired_users (fun users => users ∖ {[chatId]}).

(** [SELECT ... FROM requests ORDER BY id DESC LIMIT ?]: the rows,
    newest first; a negative limit is no limit. *)
Definition getRecentRequests (limit : Z) : M (list AuditEntry) :=
  gets (fun w =>
          let newest := List.rev (requests w) in
          if limit <? 0 then newest else take (Z.to_nat limit) newest).

(** [SELECT COUNT( * ) FROM requests WHERE timestamp >= ?] *)
Definition getTotalRequests (since : Z) : M Z :=
  gets (fun w =>
          Z.of_nat (List.length (List.filter (fun e => since <=? timestamp e)
                                             (requests w)))).

(** [getApprovalStats]: the two sums over the rows since [since]; the
    sum over no row is [NULL], which [|| 0] turns into 0. *)
Definition getApprovalStats (since : Z) : M (Z * Z) :=
  gets (fun w =>
          let rows := List.filter (fun e => since <=? timestamp e) (requests w) in
          (fold_left (fun acc e => acc + (if approved e then 1 else 0)) rows 0,
           fold_left (fun acc e => acc + (if approved e then 0 else 1)) rows 0)).

End AuditLogger.

(** ** [./telegram]: the Out-of-Band Notifier *)

Module TelegramNotifier.
Import JsString Types Runtime AuditLogger.

(** The fields of a [callback_query] update that the handler reads:
    [query.data], [query.message.chat.id] (absent when there is no
    [query.message]) and
    [query.from.first_name || query.from.username || 'unknown']. *)
Record CallbackQuery : Type := {
  data : option string;
  message_chat_id : option string;
  userName : string
}.

(** Calling a resolve function of one of the two promises that
    [checkApproval] races for [requestId]: the race settles on the
    first call, later calls change nothing. *)
Definition resolve (requestId : string) (d : ApprovalResult) : M unit :=
  emit (ReplyChannelInvoked requestId d);;
  set_awaiting (fun m =>
    match m !! requestId with
    | Some None => <[requestId := Some d]> m
    | _ => m
    end).

(** The [switch (action)] of the handler: the arguments of
    [callback(...)] and the answer shown, or nothing for an action that
    is none of the six. *)
Definition on_action (action userName : string) : option (ApprovalResult * Answer) :=
  if String.eqb action "approve_once" then
    Some ({| d_approved := true; d_ttlSeconds := 1; d_approvedBy := userName |},
          ApprovedOnce)
  else if String.eqb action "approve_15m" then
    Some ({| d_approved := true; d_ttlSeconds := 900; d_approvedBy := userName |},
          ApprovedFor15m)
  else if String.eqb action "approve_1h" then
    Some ({| d_approved := true; d_ttlSeconds := 3600; d_approvedBy := userName |},
          ApprovedFor1h)
  else if String.eqb action "approve_8h" then
    Some ({| d_approved := true; d_ttlSeconds := 28800; d_approvedBy := userName |},
          ApprovedFor8h)
  else if String.eqb action "approve_24h" then
    Some ({| d_approved := true; d_ttlSeconds := 86400; d_approvedBy := userName |},
          ApprovedFor24h)
  else if String.eqb action "deny" then
    Some ({| d_approved := false; d_ttlSeconds := 0; d_approvedBy := userName |},
          Denied)
  else None.

(** What a [callback_query] handler that is suspended at one of its
    [await]s still holds: the callback's request, the answer shown, the
    approver's name and [requestId]. *)
Record PressCont : Type := {
  press_target : string;
  press_answer : Answer;
  press_user : string;
  press_requestId : option string
}.

(** Where a [callback_query] handler stands when it gives control
    back. *)
Inductive PressStage : Type :=
| PressDone
| AwaitingAnswer (c : PressCont)
| AwaitingEdit (c : PressCont).

(** [this.pendingCallbacks.delete(requestId);
    this.pendingTexts.delete(requestId)] *)
Definition discard (requestId : option string) : M unit :=
  match requestId with
  | Some k =>
      set_pendingCallbacks (delete k);;
      set_pendingTexts (delete k)
  | None => mret tt
  end.

(** The [callback_query] handler of [setupCallbackHandler] up to its
    first [await].  In the two early exits the [await] is the last thing
    the handler does; in the [switch] the callback has been called and
    [answerCallbackQuery] issued, and the two [delete]s are still to
    come. *)
Definition press_begin (config : TelegramConfig) (query : CallbackQuery)
  : M PressStage :=
  match truthy (data query), message_chat_id query with
  | Some data, Some chatId =>
      isPaired ← isPairedUser chatId;
      if pairing_enabled config && negb isPaired
      then emit (CallbackAnswered NotPaired);; mret PressDone
      else
        let action := before_first ":" data in
        let requestId := before_first ":" <$> after_first ":" data in
        callback ← gets (fun w => requestId ≫= fun k => pendingCallbacks w !! k);
        match callback with
        | None => emit (CallbackAnswered RequestExpired);; mret PressDone
        | Some target =>
            match on_action action (userName query) with
            | Some (d, a) =>
                resolve target d;;
                emit (CallbackAnswered a);;
                mret (AwaitingAnswer
                        {| press_target := target; press_answer := a;
                           press_user := userName query;
                           press_requestId := requestId |})
            | None => discard requestId;; mret PressDone
            end
        end
  | _, _ => mret PressDone
  end.

(** The handler resumed when [answerCallbackQuery] has settled: on
    success it issues [editMessageText], on failure the [catch] leads to
    the two [delete]s. *)
Definition press_answered (ok : bool) (c : PressCont) : M PressStage :=
  if ok then
    emit (PromptEdited (press_target c) (press_answer c) (press_user c));;
    mret (AwaitingEdit c)
  else discard (press_requestId c);; mret PressDone.

(** The handler resumed when [editMessageText] has settled, either
    way: the two [delete]s. *)
Definition press_edited (c : PressCont) : M unit :=
  discard (press_requestId c).

(** A run of the handler during which no other event is handled and
    both calls of the Bot API succeed. *)
Definition on_callback_query (config : TelegramConfig) (query : CallbackQuery)
  : M unit :=
  stage ← press_begin config query;
  match stage with
  | AwaitingAnswer c =>
      stage' ← press_answered true c;
      match stage' with
      | AwaitingEdit c' => press_edited c'
      | _ => mret tt
      end
  | _ => mret tt
  end.

(** The text of the prompt, without its pictographs and its wall-clock
    line. *)
Definition prompt_text (requestId service method path agentIp : string) : string :=
  join (String "010" "")
    [ "ClawGuard - Approval Request"; "";
      "Service: " ++ service; "Method: " ++ method; "Path: " ++ path;
      "Agent IP: " ++ agentIp; "Request ID: " ++ requestId ].

(** [requestApproval] up to the promise it returns: [Some d] when the
    promise is already resolved (the bot is not paired), [None] when it
    stays pending until the registered callback is called.
    [safeSendMessage] catches every failure of the transport, so the
    [.catch] of the source never runs. *)
Definition requestApproval (config : TelegramConfig)
    (requestId service method path agentIp : string) : M (option ApprovalResult) :=
  p ← gets paired;
  if pairing_enabled config && negb p
  then mret (Some {| d_approved := false; d_ttlSeconds := 0;
                     d_approvedBy := "unpaired" |})
  else
    set_pendingCallbacks (insert requestId requestId);;
    set_pendingTexts (insert requestId
                        (prompt_text requestId service method path agentIp));;
    emit (PromptSent requestId);;
    mret None.

(** What the bot writes back to a command. *)
Inductive CommandReply : Type :=
| PairingDisabled
| PairedSuccessfully
| WrongPairingSecret
| Unpaired
| StatusPaired
| StatusNotPaired.

(** The handler of [/pair <secret>]; [providedSecret] is the captured
    group after [trim()]. *)
Definition on_pair (config : TelegramConfig) (chatId providedSecret : string)
  : M CommandReply :=
  if negb (pairing_enabled config) then mret PairingDisabled
  else if String.eqb providedSecret (pairing_secret config) then
    pairUser chatId;;
    set_paired true;;
    mret PairedSuccessfully
  else mret WrongPairingSecret.

(** The handler of [/unpair]. *)
Definition on_unpair (chatId : string) : M CommandReply :=
  unpairUser chatId;;
  set_paired false;;
  mret Unpaired.

(** The handler of [/status]. *)
Definition on_status (chatId : string) : M CommandReply :=
  isPaired ← isPairedUser chatId;
  mret (if (isPaired : bool) then StatusPaired else StatusNotPaired).

(** The constructor: [this.paired] at start. *)
Definition start_notifier (config : TelegramConfig) : M unit :=
  if pairing_enabled config then
    p ← isPairedUser (chatId config);
    set_paired p
  else set_paired true.

End TelegramNotifier.

(** ** [./approval]: the Approval Coordinator *)

Module ApprovalManager.
Import JsString Types Runtime AuditLogger TelegramNotifier.

(** [`req_${Date.now()}_${++requestCounter}`] *)
Definition generateRequestId : M string :=
  now ← Date_now;
  n ← gets requestCounter;
  set_requestCounter (n + 1);;
  mret ("req_" ++ pretty now ++ "_" ++ pretty (n + 1)).

(** [this.activeApprovals.set(service, approval)] *)
Definition activeApprovals_set (a : Approval) : M unit :=
  set_activeApprovals (insert (service a) a);;
  emit (GrantInstalled a).

(** [this.activeApprovals.delete(service)] *)
Definition activeApprovals_delete (service : string) : M unit :=
  set_activeApprovals (delete service);;
  emit (GrantDropped service).

Definition restoreApprovals : M unit :=
  saved ← getActiveApprovals;
  for_each saved activeApprovals_set.

Definition matchesRule (rule : PolicyRule) (method path : string) : bool :=
  if match truthy (match_method rule) with
     | Some m => negb (String.eqb (toUpperCase m) (toUpperCase method))
     | None => false
     end
  then false
  else if match truthy (match_path rule) with
          | Some p => negb (startsWith path p)
          | None => false
          end
  then false
  else true.

Definition getAction (serviceConfig : ServiceConfig) (method path : string) : Action :=
  match rules (policy serviceConfig) with
  | Some rs =>
      match List.find (fun rule => matchesRule rule method path) rs with
      | Some rule => action rule
      | None => default (policy serviceConfig)
      end
  | None => default (policy serviceConfig)
  end.

Definition hasActiveApproval (service : string) : M bool :=
  approval ← gets (fun w => activeApprovals w !! service);
  match approval with
  | None => mret false
  | Some a =>
      now ← Date_now;
      if expiresAt a <? now
      then activeApprovals_delete service;; mret false
      else mret true
  end.

(** [checkApproval] after its [await]: [result] is what the race
    settled on. *)
Definition checkApproval_settled (service : string) (result : ApprovalResult) : M bool :=
  if d_approved result then
    now ← Date_now;
    let approval :=
      {| service := service; approvedAt := now;
         expiresAt := now + d_ttlSeconds result * 1000;
         approvedBy := d_approvedBy result |} in
    activeApprovals_set approval;;
    logApproval service (d_approvedBy result) (d_ttlSeconds result);;
    mret true
  else mret false.

(** [checkApproval] up to its [await]: [inl b] when it returns [b]
    without waiting, [inr requestId] when it is suspended on the race
    between the approver's reply and the timer. *)
Definition checkApproval (config : TelegramConfig)
    (service : string) (serviceConfig : ServiceConfig)
    (method path agentIp : string) : M (bool + string) :=
  match getAction serviceConfig method path with
  | auto_approve => mret (inl true)
  | require_approval =>
      active ← hasActiveApproval service;
      if (active : bool) then mret (inl true)
      else
        requestId ← generateRequestId;
        set_awaiting (insert requestId None);;
        r ← requestApproval config requestId service method path agentIp;
        match r with
        | Some d =>
            TelegramNotifier.resolve requestId d;;
            b ← checkApproval_settled service d;
            mret (inl b)
        | None => mret (inr requestId)
        end
  end.

(** The timer of [timeoutPromise] fires. *)
Definition on_timeout (requestId : string) : M unit :=
  TelegramNotifier.resolve requestId
    {| d_approved := false; d_ttlSeconds := 0; d_approvedBy := "timeout" |}.

(** The continuation of a suspended [checkApproval], run once its race
    has settled; [None] while it has not. *)
Definition checkApproval_resume (service requestId : string) : M (option bool) :=
  r ← gets (fun w => awaiting w !! requestId);
  match r with
  | Some (Some d) => b ← checkApproval_settled service d; mret (Some b)
  | _ => mret None
  end.

Definition revokeApproval (service : string) : M bool :=
  has ← gets (fun w => bool_decide (is_Some (activeApprovals w !! service)));
  if (has : bool) then
    activeApprovals_delete service;;
    revokeApprovalInDb service;;
    mret true
  else mret false.

(** [revokeAll].  [clear()] is recorded as the drop of each entry, and
    the services are walked in the order of the keys of the map, where
    the source walks them in insertion order. *)
Definition revokeAll : M nat :=
  count ← gets (fun w => size (activeApprovals w));
  services ← gets (fun w => (map_to_list (activeApprovals w)).*1);
  for_each services activeApprovals_delete;;
  for_each services revokeApprovalInDb;;
  mret count.

(** [getActiveCount]: the loop that drops the expired entries, then the
    size. *)
Definition getActiveCount : M nat :=
  entries ← gets (fun w => map_to_list (activeApprovals w));
  for_each entries
    (fun entry : string * Approval =>
       now ← Date_now;
       if expiresAt (snd entry) <? now then activeApprovals_delete (fst entry)
       else mret tt);;
  gets (fun w => size (activeApprovals w)).

End ApprovalManager.

(** ** [./proxy]: the Proxy Engine *)

Module Proxy.
Import JsString Url Types Security Runtime AuditLogger.

(** A value of [req.headers]: [string | string[] | undefined]. *)
Inductive HeaderValue : Type :=
| HString (s : string)
| HArray (l : list string)
| HUndefined.

(** What the handlers read of the Express request.  [params_service]
    is [req.params['service']], filled in by the router for the routes
    [/:service] and [/:service/*]. *)
Record Request : Type := {
  req_method : string;
  originalUrl : string;
  params_service : string;
  headers : list (string * HeaderValue);
  req_ip : string;
  remoteAddress : string;
  req_body : string
}.

(** [req.headers[name]] *)
Definition req_header (req : Request) (name : string) : HeaderValue :=
  match get name (headers req) with
  | Some v => v
  | None => HUndefined
  end.

(** [a || b] on header values. *)
Definition or_header (a b : HeaderValue) : HeaderValue :=
  match a with
  | HUndefined => b
  | HString s => if String.eqb s "" then b else a
  | HArray _ => a
  end.

(** [v === s] for a string [s]. *)
Definition is_string (v : HeaderValue) (s : string) : bool :=
  match v with
  | HString t => String.eqb t s
  | _ => false
  end.

(** [req.headers['x-clawguard-key'] || req.headers['x-agentgate-key']] *)
Definition agentKey (req : Request) : HeaderValue :=
  or_header (req_header req "x-clawguard-key") (req_header req "x-agentgate-key").

(** [res.status(status).json({ error })] *)
Definition respond (status : Z) (body : ErrorBody) : M unit :=
  emit (HttpResponse status body).

Definition resolveServiceByHost (host : HeaderValue)
    (services : list (string * ServiceConfig)) : option (string * ServiceConfig) :=
  match host with
  | HString h =>
      if String.eqb h "" then None
      else
        let hostname := before_first ":" h in
        List.find (fun entry : string * ServiceConfig =>
                     match hostnames (snd entry) with
                     | Some hs => existsb (fun h' => String.eqb h' hostname) hs
                     | None => false
                     end)
                  services
  | _ => None
  end.

(** The loop over [Object.entries(req.headers)], from an empty
    [forwardHeaders]. *)
Definition copy_header (forwardHeaders : gmap string string)
    (entry : string * HeaderValue) : gmap string string :=
  let '(key, value) := entry in
  let lower := toLowerCase key in
  if startsWith lower "x-clawguard" then forwardHeaders
  else if startsWith lower "x-agentgate" then forwardHeaders
  else if String.eqb lower "host" then forwardHeaders
  else match value with
       | HString v => <[key := v]> forwardHeaders
       | HArray vs => <[key := join ", " vs]> forwardHeaders
       | HUndefined => forwardHeaders
       end.

Definition copy_headers (req : Request) : gmap string string :=
  fold_left copy_header (headers req) ∅.

(** The names that every plain object inherits from
    [Object.prototype]: [config.services[name]] finds them when the
    service table has no entry of its own under [name], and what it finds
    (a function, or the prototype itself) is truthy. *)
Definition Object_prototype : list string :=
  [ "constructor"; "__defineGetter__"; "__defineSetter__"; "hasOwnProperty";
    "__lookupGetter__"; "__lookupSetter__"; "isPrototypeOf";
    "propertyIsEnumerable"; "toString"; "valueOf"; "__proto__"; "toLocaleString" ].

Definition inherited (name : string) : bool :=
  existsb (String.eqb name) Object_prototype.

Section Handlers.
Context {platform : UrlPlatform}.

(** The local variables that are live across the [await] of
    [checkApproval]. *)
Record Pending : Type := {
  serviceName : string;
  serviceConfig : ServiceConfig;
  upstreamPath : string;
  pending_agentIp : string;
  upstreamUrl : URL
}.

(** Where a handler stands when it gives control back. *)
Inductive Suspended : Type :=
| Returned
| Thrown
| AwaitingApproval (p : Pending)
| AwaitingUpstream.

Definition denied_entry (now : Z) (serviceName : string) (req : Request)
    (upstreamPath agentIp : string) : AuditEntry :=
  {| timestamp := now; entry_service := serviceName; method := req_method req;
     entry_path := upstreamPath; approved := false; responseStatus := Some 403;
     agentIp := agentIp; requestBody := None; responseBody := None |}.

(** [handleProxy], up to the call of [checkApproval]. *)
Definition handleProxy (config : Config) (req : Request) : M Suspended :=
  let serviceName := params_service req in
  if startsWith serviceName "__" then
    respond 404 NotFound;; mret Returned
  else
    match get serviceName (services config) with
    | None =>
        if negb (inherited serviceName) then
          respond 404 (UnknownService serviceName);; mret Returned
        else
          (* [serviceConfig] is a member of [Object.prototype]: its
             [upstream] and its [policy] are [undefined] *)
          if negb (is_string (agentKey req) (server_agentKey config)) then
            respond 401 InvalidOrMissingKey;; mret Returned
          else
            let prefixLen := String.length ("/" ++ serviceName) in
            let upstreamPath :=
              or_else (substring_from prefixLen (originalUrl req)) "/" in
            let agentIp :=
              or_else (req_ip req) (or_else (remoteAddress req) "unknown") in
            match URL_new upstreamPath None with
            | None => mret Thrown
            | Some upstreamUrl =>
                let runtimeCheck :=
                  validateRuntimeUrl (toString upstreamUrl) "undefined"
                                     (security config) in
                if negb (valid runtimeCheck) then
                  now ← Date_now;
                  logRequest (denied_entry now serviceName req upstreamPath agentIp);;
                  respond 403 BlockedBySecurityPolicy;;
                  mret Returned
                else
                  (* [checkApproval] reads [serviceConfig.policy.rules] *)
                  mret Thrown
            end
    | Some serviceConfig =>
        if negb (is_string (agentKey req) (server_agentKey config)) then
          respond 401 InvalidOrMissingKey;; mret Returned
        else
          let prefixLen := String.length ("/" ++ serviceName) in
          let upstreamPath :=
            or_else (substring_from prefixLen (originalUrl req)) "/" in
          let agentIp := or_else (req_ip req) (or_else (remoteAddress req) "unknown") in
          match URL_new upstreamPath (Some (upstream serviceConfig)) with
          | None => mret Thrown
          | Some upstreamUrl =>
              let runtimeCheck :=
                validateRuntimeUrl (toString upstreamUrl) (upstream serviceConfig)
                                   (security config) in
              if negb (valid runtimeCheck) then
                now ← Date_now;
                logRequest (denied_entry now serviceName req upstreamPath agentIp);;
                respond 403 BlockedBySecurityPolicy;;
                mret Returned
              else
                mret (AwaitingApproval
                        {| serviceName := serviceName; serviceConfig := serviceConfig;
                           upstreamPath := upstreamPath; pending_agentIp := agentIp;
                           upstreamUrl := upstreamUrl |})
          end
    end.

(** [handleHostProxy], up to the call of [checkApproval]. *)
Definition handleHostProxy (config : Config) (req : Request) : M Suspended :=
  match resolveServiceByHost (req_header req "host") (services config) with
  | None => respond 404 UnknownHost;; mret Returned
  | Some (serviceName, serviceConfig) =>
      if negb (is_string (agentKey req) (server_agentKey config)) then
        respond 401 InvalidOrMissingKey;; mret Returned
      else
        let upstreamPath := or_else (originalUrl req) "/" in
        let agentIp := or_else (req_ip req) (or_else (remoteAddress req) "unknown") in
        match URL_new upstreamPath (Some (upstream serviceConfig)) with
        | None => mret Thrown
        | Some upstreamUrl =>
            let runtimeCheck :=
              validateRuntimeUrl (toString upstreamUrl) (upstream serviceConfig)
                                 (security config) in
            if negb (valid runtimeCheck) then
              respond 403 BlockedBySecurityPolicy;;
              mret Returned
            else
              mret (AwaitingApproval
                      {| serviceName := serviceName; serviceConfig := serviceConfig;
                         upstreamPath := upstreamPath; pending_agentIp := agentIp;
                         upstreamUrl := upstreamUrl |})
        end
  end.

(** "Inject auth" and [forwardHeaders['host'] = upstreamUrl.host]:
    the headers and the URL of the upstream request. *)
Definition inject_auth (serviceConfig : ServiceConfig)
    (forwardHeaders : gmap string string) (upstreamUrl : URL)
  : gmap string string * URL :=
  let a := auth serviceConfig in
  let '(hs, url) :=
    match auth_type a with
    | bearer => (<["authorization" := "Bearer " ++ token a]> forwardHeaders, upstreamUrl)
    | header =>
        match truthy (headerName a) with
        | Some name => (<[name := token a]> forwardHeaders, upstreamUrl)
        | None => (forwardHeaders, upstreamUrl)
        end
    | query =>
        match truthy (paramName a) with
        | Some name => (forwardHeaders, searchParams_set name (token a) upstreamUrl)
        | None => (forwardHeaders, upstreamUrl)
        end
    end in
  (<["host" := host url]> hs, url).

(** The headers sent upstream. *)
Definition forward_headers (req : Request) (p : Pending) : gmap string string :=
  fst (inject_auth (serviceConfig p) (copy_headers req) (upstreamUrl p)).

(** Both handlers after [checkApproval] has answered [approved], up
    to [proxyReq.end()]; their text is the same here.  The captured
    request body is only read by the callbacks on the upstream
    response, which this development leaves out, and
    [transport.request] is taken not to throw. *)
Definition approval_answered (req : Request) (p : Pending) (approved : bool)
  : M Suspended :=
  if negb approved then
    now ← Date_now;
    logRequest (denied_entry now (serviceName p) req (upstreamPath p)
                             (pending_agentIp p));;
    respond 403 ApprovalDeniedOrTimedOut;;
    mret Returned
  else
    let '(forwardHeaders, url) :=
      inject_auth (serviceConfig p) (copy_headers req) (upstreamUrl p) in
    emit (UpstreamRequest (toString url) (req_method req) forwardHeaders
                          (req_body req));;
    mret AwaitingUpstream.

End Handlers.

End Proxy.

(** ** [./proxy], continued: the routes of [createProxy] *)

Module Router.
Import JsString Url Types Security Runtime AuditLogger Proxy.

Definition hex_digit_value (c : ascii) : option N :=
  let n := N_of_ascii c in
  if ((48 <=? n) && (n <=? 57))%N then Some (n - 48)%N
  else if ((65 <=? n) && (n <=? 70))%N then Some (n - 55)%N
  else if ((97 <=? n) && (n <=? 102))%N then Some (n - 87)%N
  else None.

(** What [decodeURIComponent] makes of a text: the decoded text, a
    [URIError], or, for an escape of a byte above [7F], a character that
    the 8-bit alphabet of this development does not have. *)
Inductive Decoded : Type :=
| Text (s : string)
| URIError
| Beyond.

Definition prepend (c : ascii) (d : Decoded) : Decoded :=
  match d with
  | Text t => Text (String c t)
  | _ => d
  end.

Fixpoint decodeURIComponent (s : string) : Decoded :=
  match s with
  | EmptyString => Text EmptyString
  | String c rest =>
      if Ascii.eqb c "%" then
        match rest with
        | String a (String b rest') =>
            match hex_digit_value a, hex_digit_value b with
            | Some x, Some y =>
                if (16 * x + y <? 128)%N
                then prepend (ascii_of_N (16 * x + y)) (decodeURIComponent rest')
                else Beyond
            | _, _ => URIError
            end
        | _ => URIError
        end
      else prepend c (decodeURIComponent rest)
  end.

(** The characters that send [parseurl] from its scan of the request
    target to the general URL parser. *)
Definition leaves_scan (c : ascii) : bool :=
  existsb (N.eqb (N_of_ascii c)) [9; 10; 12; 13; 32; 35; 160]%N.

(** [req.path]: the request target up to its first [?], for a target
    in origin form that the scan of [parseurl] accepts. *)
Definition pathname (target : string) : option string :=
  match target with
  | String "/" _ =>
      if all_chars (fun c => negb (leaves_scan c)) target
      then Some (before_first "?" target)
      else None
  | _ => None
  end.

(** The prefixes of the admin router and of the two introspection
    endpoints, which are registered before the proxy routes and are
    matched without regard to case. *)
Definition reserved (segment : string) : bool :=
  existsb (String.eqb (toLowerCase segment)) ["__admin"; "__status"; "__audit"].

(** Where a request goes among [app.all('/:service', ...)],
    [app.all('/:service/*', ...)] and [app.all('*', ...)]. *)
Inductive Route : Type :=
| ToProxy (service : string)
| ToHostProxy
| BadParam.

(** The route of a request target.  The two patterns with [:service]
    match every path with a first segment that is not empty;
    [req.params.service] is that segment decoded, and for the second
    pattern what follows the segment's slash is the capture of the star;
    the third pattern matches the other paths and captures the whole
    path.  Express decodes every capture before it calls the handler and
    answers 400 itself when one does not decode, the segment first.
    [None] stands for the targets left out: those with a reserved first
    segment, those that [pathname] leaves out and those with a capture
    that decodes beyond the alphabet. *)
Definition route (target : string) : option Route :=
  match pathname target with
  | Some (String c path) =>
      let segment := before_first "/" path in
      if String.eqb segment "" then
        match decodeURIComponent (String c path) with
        | Text _ => Some ToHostProxy
        | URIError => Some BadParam
        | Beyond => None
        end
      else if reserved segment then None
      else
        let star := match after_first "/" path with
                    | Some rest => rest
                    | None => ""
                    end in
        match decodeURIComponent segment with
        | Text service =>
            match decodeURIComponent star with
            | Text _ => Some (ToProxy service)
            | URIError => Some BadParam
            | Beyond => None
            end
        | URIError => Some BadParam
        | Beyond => None
        end
  | _ => None
  end.

Definition with_service (service : string) (req : Request) : Request :=
  {| req_method := req_method req; originalUrl := originalUrl req;
     params_service := service; headers := headers req; req_ip := req_ip req;
     remoteAddress := remoteAddress req; req_body := req_body req |}.

Section Gateway.
Context {platform : UrlPlatform}.

(** What the application does with a request that the body parser
    has handed on: one of the two handlers runs, or Express answers 400
    by itself. *)
Inductive Served : Type :=
| Handled (s : Suspended)
| BadRequest.

Definition gateway (config : Config) (req : Request) : option (M Served) :=
  match route (originalUrl req) with
  | Some (ToProxy service) =>
      Some (s ← handleProxy config (with_service service req); mret (Handled s))
  | Some ToHostProxy =>
      Some (s ← handleHostProxy config req; mret (Handled s))
  | Some BadParam => Some (mret BadRequest)
  | None => None
  end.

End Gateway.

End Router.

(** ** [./proxy], continued: the handlers around [checkApproval] *)

Module Pipeline.
Import JsString Url Types Security Runtime AuditLogger TelegramNotifier
       ApprovalManager Proxy.

Section Around.
Context {platform : UrlPlatform}.

(** Where a request stands after the handler has called
    [checkApproval]. *)
Inductive Stage : Type :=
| Settled (s : Suspended)
| AwaitingDecision (p : Pending) (requestId : string).

(** A handler ([handleProxy] or [handleHostProxy]) followed by
    [const approved = await approvalManager.checkApproval(...)] and, when
    the answer is there at once, by the rest of the handler. *)
Definition serve (handler : Config -> Request -> M Suspended)
    (config : Config) (req : Request) : M Stage :=
  s ← handler config req;
  match s with
  | AwaitingApproval p =>
      r ← checkApproval (telegram config) (serviceName p) (serviceConfig p)
            (req_method req) (upstreamPath p) (pending_agentIp p);
      match r with
      | inl approved =>
          s' ← approval_answered req p approved;
          mret (Settled s')
      | inr requestId => mret (AwaitingDecision p requestId)
      end
  | _ => mret (Settled s)
  end.

(** The handler resumed once the race of [requestId] has settled;
    [None] while it has not. *)
Definition resume (req : Request) (p : Pending) (requestId : string)
  : M (option Suspended) :=
  r ← checkApproval_resume (serviceName p) requestId;
  match r with
  | Some approved =>
      s ← approval_answered req p approved;
      mret (Some s)
  | None => mret None
  end.

End Around.

End Pipeline.

(** ** [./admin]: the IP allowlist of the admin surface and token masking *)

Module Admin.
Import JsString Url.

(** [net.isIPv4]: four decimal groups between 0 and 255 without leading
    zeros, separated by dots. *)
Definition isIPv4 (s : string) : bool :=
  let parts := split_on "." s in
  (List.length parts =? 4)%nat && forallb canonical_octet parts.

Definition is_space (c : ascii) : bool :=
  let n := N_of_ascii c in
  ((9 <=? n) && (n <=? 13) || (n =? 32))%N.

(** [parseInt(s, 10)]: leading white space, a sign, then the longest run
    of decimal digits; [None] is [NaN].  The value is the exact integer
    (a double rounds it beyond [2^53], which no comparison made here
    can see). *)
Definition parseInt10 (s : string) : option Z :=
  let s1 := drop_while is_space s in
  let '(negative, s2) :=
    match s1 with
    | String "-" r => (true, r)
    | String "+" r => (false, r)
    | _ => (false, s1)
    end in
  let digits := fst (span_until (fun c => negb (is_digit c)) s2) in
  if String.eqb digits "" then None
  else
    let n := Z.of_N (digits_value 0 digits) in
    Some (if negative then - n else n).

(** [ToInt32] and [ToUint32] *)
Definition int32 (z : Z) : Z := (z + 2 ^ 31) mod 2 ^ 32 - 2 ^ 31.
Definition uint32 (z : Z) : Z := z mod 2 ^ 32.

(** [a << n], [a | b], [a & b] and [a >>> 0] on numbers *)
Definition shl (a n : Z) : Z := int32 (Z.shiftl (int32 a) (uint32 n mod 32)).
Definition bitor (a b : Z) : Z := int32 (Z.lor (int32 a) (int32 b)).
Definition bitand (a b : Z) : Z := int32 (Z.land (int32 a) (int32 b)).
Definition ushr0 (a : Z) : Z := uint32 a.

(** [Number(part)] on a run of decimal digits. *)
Definition Number (part : string) : Z := Z.of_N (digits_value 0 part).

(** [ipv4ToInt], which is only called on strings that [net.isIPv4]
    accepts. *)
Definition ipv4ToInt (ip : string) : Z :=
  let parts := List.map Number (split_on "." ip) in
  let part (i : nat) := nth i parts 0 in
  ushr0 (bitor (bitor (bitor (shl (part 0%nat) 24) (shl (part 1%nat) 16))
                      (shl (part 2%nat) 8))
               (part 3%nat)).

(** [prefix === 0 ? 0 : (~0 << (32 - prefix)) >>> 0] *)
Definition mask_of (prefix : Z) : Z :=
  if prefix =? 0 then 0 else ushr0 (shl (-1) (32 - prefix)).

(** [isIpInCidr]; [cidr] holds a ["/"]. *)
Definition isIpInCidr (ip cidr : string) : bool :=
  let network := before_first "/" cidr in
  let prefixStr :=
    match after_first "/" cidr with
    | Some rest => before_first "/" rest
    | None => ""
    end in
  if negb (isIPv4 ip) || negb (isIPv4 network) then false
  else
    match parseInt10 prefixStr with
    | None => false
    | Some prefix =>
        if (prefix <? 0) || (32 <? prefix) then false
        else
          let ipNum := ipv4ToInt ip in
          let netNum := ipv4ToInt network in
          let mask := mask_of prefix in
          bitand ipNum mask =? bitand netNum mask
    end.

(** [entry.includes('/')] *)
Fixpoint includes (c : ascii) (s : string) : bool :=
  match s with
  | EmptyString => false
  | String d s' => Ascii.eqb d c || includes c s'
  end.

(** [clientIp.replace(/^::ffff:/, '')] *)
Definition strip_mapped (clientIp : string) : string :=
  if startsWith clientIp "::ffff:" then substring_from 7 clientIp else clientIp.

Definition ipMatchesEntry (clientIp entry : string) : bool :=
  let normalizedClient := strip_mapped clientIp in
  if includes "/" entry then isIpInCidr normalizedClient entry
  else String.eqb clientIp entry || String.eqb normalizedClient entry
       || String.eqb clientIp ("::ffff:" ++ entry).

(** The IP-allowlist middleware: [true] when it calls [next()], [false]
    when it answers 403. *)
Definition ip_allowed (allowedIPs : list string) (ip remoteAddress : string) : bool :=
  let clientIp := or_else ip (or_else remoteAddress "") in
  existsb (fun entry => ipMatchesEntry clientIp entry) allowedIPs.

Definition maskToken (token : string) : string :=
  if (String.length token <=? 8)%nat then "****"
  else String.substring 0 4 token ++ "****"
       ++ substring_from (String.length token - 4) token.

End Admin.

(** ** [./proxy], continued: the upstream response and the payload log *)

Module Relay.
Import JsString Url Types Security Runtime AuditLogger Proxy.

(** [config.security.maxPayloadLogSize || 10240] *)
Definition maxSize (config : Config) : Z :=
  if maxPayloadLogSize (security config) =? 0 then 10240
  else maxPayloadLogSize (security config).

(** The mark that [handleProxy] puts after a truncated body, and the
    one of [handleHostProxy]. *)
Definition path_mark (bodyStr : string) : string :=
  "... [truncated, " ++ pretty (Z.of_nat (String.length bodyStr)) ++ " bytes total]".

Definition host_mark (bodyStr : string) : string := "... [truncated]".

(** [bodyStr.length > maxSize ? bodyStr.substring(0, maxSize) + mark
    : bodyStr] *)
Definition clip (config : Config) (mark : string -> string) (bodyStr : string)
  : string :=
  if maxSize config <? Z.of_nat (String.length bodyStr)
  then String.substring 0 (Z.to_nat (maxSize config)) bodyStr ++ mark bodyStr
  else bodyStr.

(** [requestBodyLog]; a request without a body has the empty string as
    [req_body]. *)
Definition requestBodyLog (config : Config) (mark : string -> string) (req : Request)
  : option string :=
  if audit_logPayload config && negb (String.eqb (req_body req) "")
  then Some (clip config mark (req_body req))
  else None.

(** [responseBodyLog]; [chunks] are the chunks that the response
    delivered, which are kept only when payloads are logged. *)
Definition responseBodyLog (config : Config) (mark : string -> string)
    (chunks : list string) : option string :=
  let responseChunks := if audit_logPayload config then chunks else [] in
  if audit_logPayload config && negb (List.length responseChunks =? 0)%nat
  then Some (clip config mark (String.concat "" responseChunks))
  else None.

(** What the callbacks read of [proxyRes]. *)
Record UpstreamResponse : Type := {
  statusCode : option Z;
  response_headers : list (string * HeaderValue)
}.

(** What the response callback does with the response towards the
    agent: it answers 403 with the error [Redirect blocked by security
    policy], it relays the response with a status and headers, or it
    throws before it has answered. *)
Inductive Relayed : Type :=
| RedirectBlocked
| Relaying (status : Z) (headers : list (string * HeaderValue))
| CallbackThrew.

(** [proxyRes.statusCode || d] *)
Definition status_or (sc : option Z) (d : Z) : Z :=
  match sc with
  | Some n => if n =? 0 then d else n
  | None => d
  end.

(** [if (value)] on a header value *)
Definition truthy_value (v : HeaderValue) : bool :=
  match v with
  | HString s => negb (String.eqb s "")
  | HArray _ => true
  | HUndefined => false
  end.

(** [res.status(proxyRes.statusCode || 502)], the loop of
    [res.setHeader] and [proxyRes.pipe(res)] *)
Definition relay (proxyRes : UpstreamResponse) : Relayed :=
  Relaying (status_or (statusCode proxyRes) 502)
           (List.filter (fun entry => truthy_value (snd entry))
                        (response_headers proxyRes)).

(** [proxyRes.statusCode && proxyRes.statusCode >= 300 &&
    proxyRes.statusCode < 400] *)
Definition is_redirect (proxyRes : UpstreamResponse) : bool :=
  match statusCode proxyRes with
  | Some sc => negb (sc =? 0) && (300 <=? sc) && (sc <? 400)
  | None => false
  end.

(** [proxyRes.headers['location']] when it is truthy, as the text that
    [new URL] makes of it. *)
Definition location (proxyRes : UpstreamResponse) : option string :=
  match get "location" (response_headers proxyRes) with
  | Some (HString s) => if String.eqb s "" then None else Some s
  | Some (HArray l) => Some (join "," l)
  | _ => None
  end.

Section Callbacks.
Context {platform : UrlPlatform}.

(** [upstreamUrl] once the credential has been injected. *)
Definition sent_url (req : Request) (p : Pending) : URL :=
  snd (inject_auth (serviceConfig p) (copy_headers req) (upstreamUrl p)).

(** The audit record of a forwarded request. *)
Definition forwarded_entry (now : Z) (req : Request) (p : Pending)
    (status : Z) (requestBody responseBody : option string) : AuditEntry :=
  {| timestamp := now; entry_service := serviceName p; method := req_method req;
     entry_path := upstreamPath p; approved := true; responseStatus := Some status;
     agentIp := pending_agentIp p; requestBody := requestBody;
     responseBody := responseBody |}.

(** The response callback of [handleProxy], up to the registration of
    the [data] and [end] handlers. *)
Definition handleProxy_response (config : Config) (req : Request) (p : Pending)
    (proxyRes : UpstreamResponse) : M Relayed :=
  if negb (followRedirects (security config)) && is_redirect proxyRes then
    match location proxyRes with
    | Some loc =>
        match URL_new loc (Some (toString (sent_url req p))) with
        | None => mret CallbackThrew
        | Some target =>
            let redirectCheck :=
              validateRuntimeUrl (toString target) (upstream (serviceConfig p))
                                 (security config) in
            if negb (valid redirectCheck) then
              now ← Date_now;
              logRequest (forwarded_entry now req p 403
                            (requestBodyLog config path_mark req) None);;
              mret RedirectBlocked
            else mret (relay proxyRes)
        end
    | None => mret (relay proxyRes)
    end
  else mret (relay proxyRes).

(** The response callback of [handleHostProxy]. *)
Definition handleHostProxy_response (config : Config) (req : Request) (p : Pending)
    (proxyRes : UpstreamResponse) : M Relayed :=
  mret (relay proxyRes).

(** The [end] handlers of the two response callbacks. *)
Definition handleProxy_end (config : Config) (req : Request) (p : Pending)
    (proxyRes : UpstreamResponse) (chunks : list string) : M unit :=
  now ← Date_now;
  logRequest (forwarded_entry now req p (status_or (statusCode proxyRes) 0)
                (requestBodyLog config path_mark req)
                (responseBodyLog config path_mark chunks)).

Definition handleHostProxy_end (config : Config) (req : Request) (p : Pending)
    (proxyRes : UpstreamResponse) (chunks : list string) : M unit :=
  now ← Date_now;
  logRequest (forwarded_entry now req p (status_or (statusCode proxyRes) 0)
                (requestBodyLog config host_mark req)
                (responseBodyLog config host_mark chunks)).

End Callbacks.

End Relay.

(** ** The properties, in the words of the specification, and the
       configurations of its scenarios *)

Module Spec.
Import JsString Url Types Security Runtime AuditLogger TelegramNotifier
       ApprovalManager Proxy.

(** *** Security Guard *)

(** "[s] ends with [suf]" *)
Definition ends_with (s suf : string) : Prop := exists pre, s = pre ++ suf.

(** "the allowlist is empty, or some entry E satisfies hostname == E or
    hostname ends with "." + E" *)
Definition passes_allowlist (hostname : string) (allowlist : list string) : Prop :=
  allowlist = [] \/
  exists E, In E allowlist /\ (hostname = E \/ ends_with hostname ("." ++ E)).

Definition hex_digit (c : ascii) : option N :=
  let n := N_of_ascii (lower_ascii c) in
  if ((48 <=? n) && (n <=? 57))%N then Some (n - 48)%N
  else if ((97 <=? n) && (n <=? 102))%N then Some (n - 87)%N
  else None.

Fixpoint hex_value (acc : N) (s : string) : option N :=
  match s with
  | EmptyString => Some acc
  | String c s' =>
      match hex_digit c with
      | Some d => hex_value (acc * 16 + d)%N s'
      | None => None
      end
  end.

(** The first 16-bit group of an IPv6 literal written with a leading
    group, as in [fd00::1]. *)
Definition first_group (literal : string) : option N :=
  hex_value 0 (before_first ":" literal).

(** Membership of an IPv6 literal in [base::/bits] for [bits <= 16],
    decided on its first group. *)
Definition in_ipv6_prefix (base bits : N) (literal : string) : bool :=
  match first_group literal with
  | Some g => (N.shiftr g (16 - bits) =? N.shiftr base (16 - bits))%N
  | None => false
  end.

(** [fc00::/7], IPv6 unique local addresses *)
Definition in_ula (literal : string) : bool := in_ipv6_prefix 0xfc00 7 literal.

(** [fe80::/10], IPv6 link-local addresses *)
Definition in_link_local (literal : string) : bool :=
  in_ipv6_prefix 0xfe80 10 literal.

(** *** Grants *)

(** "not expired, not revoked" at time [now] *)
Definition live (now : Z) (r : ApprovalRow) : Prop :=
  now < expires_at r /\ revoked r = false.

(** "newest per service" among the live rows of the persisted set *)
Definition newest_live (now : Z) (rows : list ApprovalRow) (r : ApprovalRow) : Prop :=
  In r rows /\ live now r /\
  forall r', In r' rows -> live now r' -> row_service r' = row_service r ->
             id r' <= id r.

(** The grant that a persisted row stands for: the row's service and
    approver, granted at the row's timestamp and expiring at the row's
    expiry. *)
Definition grant_of_row (r : ApprovalRow) (a : Approval) : Prop :=
  service a = row_service r /\ approvedAt a = row_timestamp r
  /\ expiresAt a = expires_at r /\ approvedBy a = approved_by r.

(** The process goes down and comes up again [ms] milliseconds later:
    the tables stay, what was in memory is gone. *)
Definition restart (ms : Z) (w : World) : World :=
  {| clock := clock w + ms; requests := requests w; approvals := approvals w;
     next_approval_id := next_approval_id w;
     telegram_paired_users := telegram_paired_users w;
     activeApprovals := ∅; requestCounter := 0;
     awaiting := ∅; pendingCallbacks := ∅; pendingTexts := ∅;
     paired := paired w; trace := trace w |}.

(** What a computation adds to the trace. *)
Definition effects_of {A : Type} (m : M A) (w : World) : list effect :=
  drop (List.length (trace w)) (trace (snd (m w))).

(** The position of the first effect satisfying [p]. *)
Fixpoint position (p : effect -> bool) (tr : list effect) : option nat :=
  match tr with
  | [] => None
  | e :: rest => if p e then Some O else S <$> position p rest
  end.

Definition is_persist (e : effect) : bool :=
  match e with InsertApproval _ => true | _ => false end.
Definition is_install (e : effect) : bool :=
  match e with GrantInstalled _ => true | _ => false end.
Definition is_mark_revoked (e : effect) : bool :=
  match e with MarkRevoked _ => true | _ => false end.
Definition is_drop (e : effect) : bool :=
  match e with GrantDropped _ => true | _ => false end.

(** "[p] happens, and before [q]" *)
Definition happens_before (p q : effect -> bool) (tr : list effect) : Prop :=
  match position p tr, position q tr with
  | Some i, Some j => (i < j)%nat
  | _, _ => False
  end.

(** *** Proxy *)


(** The gateway "responds 401 with the machine-readable error body and
    performs no further processing". *)
Definition answers_401 {platform : UrlPlatform}
    (handler : M Suspended) (w : World) : Prop :=
  handler w = (Returned, snd (respond 401 InvalidOrMissingKey w)).

(** The upstream URL a handler has constructed when it reaches the
    approval check. *)
Definition constructed {platform : UrlPlatform} (s : Suspended) : option string :=
  match s with
  | AwaitingApproval p => Some (toString (upstreamUrl p))
  | _ => None
  end.

(** The header names that header shaping strips. *)
Definition stripped (key : string) : bool :=
  let lower := toLowerCase key in
  startsWith lower "x-clawguard" || startsWith lower "x-agentgate"
  || String.eqb lower "host".

(** A header value as it is copied. *)
Definition rendered (v : HeaderValue) : option string :=
  match v with
  | HString s => Some s
  | HArray vs => Some (join ", " vs)
  | HUndefined => None
  end.

(** "every other incoming header is forwarded unchanged" *)
Definition others_forwarded_unchanged (req : Request)
    (forwardHeaders : gmap string string) : Prop :=
  forall key v, In (key, HString v) (headers req) -> stripped key = false ->
                forwardHeaders !! key = Some v.

(** *** Configurations *)

Definition empty_world (now : Z) : World :=
  {| clock := now; requests := []; approvals := []; next_approval_id := 1;
     telegram_paired_users := ∅; activeApprovals := ∅; requestCounter := 0;
     awaiting := ∅; pendingCallbacks := ∅; pendingTexts := ∅; paired := true;
     trace := [] |}.

(** A store of three rows of one service: an expired one and two live
    ones. *)
Definition three_rows : World :=
  {| clock := 1000; requests := [];
     approvals :=
       [ {| id := 1; row_timestamp := 0; row_service := "gh"; approved_by := "ann";
            ttl_seconds := 1; expires_at := 900; revoked := false |};
         {| id := 2; row_timestamp := 10; row_service := "gh"; approved_by := "ann";
            ttl_seconds := 3600; expires_at := 3600010; revoked := false |};
         {| id := 3; row_timestamp := 20; row_service := "gh"; approved_by := "bob";
            ttl_seconds := 900; expires_at := 900020; revoked := false |} ];
     next_approval_id := 4; telegram_paired_users := ∅; activeApprovals := ∅;
     requestCounter := 0; awaiting := ∅; pendingCallbacks := ∅; pendingTexts := ∅;
     paired := true; trace := [] |}.

Definition bob_grant : Approval :=
  {| service := "gh"; approvedAt := 20; expiresAt := 900020; approvedBy := "bob" |}.

(** Two live rows of [gh], the older one outliving the newer, which is
    the live grant. *)
Definition two_live_rows : World :=
  {| clock := 1000; requests := [];
     approvals :=
       [ {| id := 1; row_timestamp := 0; row_service := "gh"; approved_by := "ann";
            ttl_seconds := 86400; expires_at := 86400000; revoked := false |};
         {| id := 2; row_timestamp := 10; row_service := "gh"; approved_by := "ann";
            ttl_seconds := 900; expires_at := 900010; revoked := false |} ];
     next_approval_id := 3; telegram_paired_users := ∅;
     activeApprovals :=
       {[ "gh" := {| service := "gh"; approvedAt := 10; expiresAt := 900010;
                     approvedBy := "ann" |} ]};
     requestCounter := 0; awaiting := ∅; pendingCallbacks := ∅; pendingTexts := ∅;
     paired := true; trace := [] |}.

Definition no_pairing : TelegramConfig :=
  {| botToken := "token"; chatId := "42"; pairing_enabled := false;
     pairing_secret := "" |}.

Definition bearer_service (upstream : string) (hosts : list string) : ServiceConfig :=
  {| upstream := upstream;
     auth := {| auth_type := bearer; token := "T"; headerName := None;
                paramName := None |};
     policy := {| default := require_approval; rules := None |};
     hostnames := Some hosts |}.

Definition config_with (name upstream : string) (hosts allowlist : list string)
  : Config :=
  {| server_agentKey := "K";
     services := [(name, bearer_service upstream hosts)];
     telegram := no_pairing;
     audit_logPayload := false;
     security := {| allowedUpstreams := allowlist; blockPrivateIPs := true;
                    followRedirects := false; maxPayloadLogSize := 10240 |} |}.

Definition request (method target service : string)
    (headers : list (string * HeaderValue)) : Request :=
  {| req_method := method; originalUrl := target; params_service := service;
     headers := headers; req_ip := "192.0.2.7"; remoteAddress := "192.0.2.7";
     req_body := "" |}.

(** Scenario: service [gh], allowlist [api.github.com], key [K]. *)
Definition gh_service : ServiceConfig :=
  bearer_service "https://api.github.com" ["api.github.com"].

Definition gh_config : Config :=
  config_with "gh" "https://api.github.com" ["api.github.com"] ["api.github.com"].

(** Round trips: service [svc] with base [https://u.example/api]. *)
Definition svc_config : Config :=
  config_with "svc" "https://u.example/api" ["u.example"] [].

Definition with_key : string * HeaderValue := ("x-clawguard-key", HString "K").

Definition one_hour (who : string) : ApprovalResult :=
  {| d_approved := true; d_ttlSeconds := 3600; d_approvedBy := who |}.

Definition timed_out : ApprovalResult :=
  {| d_approved := false; d_ttlSeconds := 0; d_approvedBy := "timeout" |}.

(** A [DELETE /gh/repos/a/b] reaches [checkApproval] at time 1000 and
    is suspended as [req_1000_1]. *)
Definition prompted : World :=
  snd (checkApproval no_pairing "gh" gh_service "DELETE" "/repos/a/b" "192.0.2.7"
         (empty_world 1000)).

(** Nobody answers: 120 s later the timer fires and [checkApproval]
    resumes. *)
Definition after_deadline : World :=
  snd (checkApproval_resume "gh" "req_1000_1"
         (snd (on_timeout "req_1000_1" (advance 120000 prompted)))).

(** The approver taps "1h" on the prompt of [req_1000_1]. *)
Definition tap_1h : CallbackQuery :=
  {| data := Some "approve_1h:req_1000_1"; message_chat_id := Some "42";
     userName := "ann" |}.

(** The approver answers 10 s after the prompt, and [checkApproval]
    resumes. *)
Definition after_decision : World :=
  snd (checkApproval_resume "gh" "req_1000_1"
         (snd (on_callback_query no_pairing tap_1h (advance 10000 prompted)))).

(** Two requests for [gh] wait for an approval at the same time.  The
    approver answers the first with "24h" and the second with "once";
    each handler resumes on its answer, so the grant of one second
    replaces the grant of a day in memory while both rows are persisted.
    Two seconds later the next check finds the grant in memory stale and
    drops it. *)
Definition lapsed_once : World :=
  let ask path w :=
    snd (checkApproval no_pairing "gh" gh_service "DELETE" path "192.0.2.7" w) in
  let tap action requestId w :=
    snd (checkApproval_resume "gh" requestId
           (snd (on_callback_query no_pairing
                   {| data := Some (action ++ ":" ++ requestId);
                      message_chat_id := Some "42"; userName := "ann" |} w))) in
  let w1 := ask "/repos/a/c" (ask "/repos/a/b" (empty_world 1000)) in
  let w2 := tap "approve_24h" "req_1000_1" (advance 5000 w1) in
  let w3 := tap "approve_once" "req_1000_2" (advance 1000 w2) in
  snd (hasActiveApproval "gh" (advance 2000 w3)).

(** [GET /gh/user] with the key, at the approval check. *)
Definition gh_user_url : url :=
  {| Url.scheme := "https"; Url.username := ""; Url.password := "";
     Url.url_host := "api.github.com"; Url.port := None; Url.path := ["user"];
     Url.query := None; Url.fragment := None |}.

Definition gh_user_pending : Pending (platform := whatwg) :=
  @Build_Pending whatwg "gh" gh_service "/user" "192.0.2.7" gh_user_url.

(** An agent that sends a placeholder credential of its own. *)
Definition with_dummy_token : Request :=
  request "GET" "/gh/user" "gh" [with_key; ("authorization", HString "Bearer dummy")].

Definition with_gateway_headers : Request :=
  request "GET" "/gh/user" "gh"
    [with_key; ("x-agentgate-key", HString "K"); ("host", HString "gateway:9090");
     ("accept", HString "application/json"); ("authorization", HString "Bearer dummy")].

(** How many times a resolve function was called for [requestId]. *)
Definition invocations (requestId : string) (tr : list effect) : nat :=
  List.length
    (List.filter (fun e => match e with
                           | ReplyChannelInvoked k _ => String.eqb k requestId
                           | _ => false
                           end) tr).

(** The row ids of the [approvals] table are distinct and below the
    next id to be given. *)
Definition fresh_ids (w : World) : Prop :=
  NoDup (id <$> approvals w)
  /\ forall r, In r (approvals w) -> id r < next_approval_id w.

(** Every grant in memory is backed by a persisted, non-revoked row of
    its service and approver. *)
Definition backed (w : World) : Prop :=
  forall s a, activeApprovals w !! s = Some a ->
    service a = s
    /\ exists r, In r (approvals w) /\ row_service r = s /\ revoked r = false
                 /\ approved_by r = approvedBy a.

(** A rule that matches the request. *)
Definition no_rule_matches (rs : list PolicyRule) (method path : string) : Prop :=
  Forall (fun r => matchesRule r method path = false) rs.

(** *** Notifier *)

(** A press of the button [action] of the prompt of [requestId]:
    its [callback_data] is [`${action}:${requestId}`]. *)
Definition press (chatId action requestId user : string) : CallbackQuery :=
  {| data := Some (action ++ ":" ++ requestId); message_chat_id := Some chatId;
     userName := user |}.

(** The chats whose button presses the handler acts on. *)
Definition may_decide (config : TelegramConfig) (chatId : string) (w : World) : Prop :=
  pairing_enabled config = false \/ chatId ∈ telegram_paired_users w.

Definition with_secret : TelegramConfig :=
  {| botToken := "token"; chatId := "42"; pairing_enabled := true;
     pairing_secret := "s3cret" |}.

(** *** Routing *)

Import Router.

(** The upstream URL that a served request has reached the approval
    check with. *)
Definition constructed_by {platform : UrlPlatform} (s : Served) : option string :=
  match s with
  | Handled h => constructed h
  | BadRequest => None
  end.


(** "the host exists": some service lists the Host header, port
    stripped, among its hostnames. *)
Definition names_a_host (config : Config) (req : Request) : bool :=
  match resolveServiceByHost (req_header req "host") (services config) with
  | Some _ => true
  | None => false
  end.


(** *** Payload log *)

(** [logged] is [body] cut at [limit] characters: the body itself when
    it is within the limit, and else its first [limit] characters (none
    for a negative limit) followed by a mark. *)
Definition clipped (limit : Z) (body logged : string) : Prop :=
  (Z.of_nat (String.length body) <= limit /\ logged = body)
  \/ (limit < Z.of_nat (String.length body)
      /\ exists kept dropped mark,
           body = kept ++ dropped
           /\ Z.of_nat (String.length kept) = Z.max 0 limit
           /\ logged = kept ++ mark).

(** *** Forwarding *)

Definition is_upstream (e : effect) : bool :=
  match e with UpstreamRequest _ _ _ _ => true | _ => false end.

(** The requests sent upstream so far. *)
Definition forwards (w : World) : list effect := List.filter is_upstream (trace w).

(** The value of a dotted-decimal IPv4 address. *)
Definition ipv4_value (a b c d : Z) : Z := a * 2 ^ 24 + b * 2 ^ 16 + c * 2 ^ 8 + d.

(** The text of a dotted-decimal IPv4 address. *)
Definition dotted (a b c d : Z) : string :=
  pretty a ++ "." ++ pretty b ++ "." ++ pretty c ++ "." ++ pretty d.

(** An octet. *)
Definition octet (a : Z) : Prop := 0 <= a < 256.

End Spec.

(** * Properties *)

Import JsString Url Types Security Runtime AuditLogger TelegramNotifier
       ApprovalManager Proxy Spec.

(** ** Strings *)

Section StringFacts.

Lemma length_app_string (a b : string) :
  String.length (a ++ b) = (String.length a + String.length b)%nat.
Proof. induction a as [|c a IH]; simpl; [reflexivity | now rewrite IH]. Qed.

Lemma substring_from_app (pre suf : string) :
  substring_from (String.length pre) (pre ++ suf) = suf.
Proof. induction pre as [|c pre IH]; simpl; [now destruct suf | exact IH]. Qed.

Lemma substring_from_split (n : nat) (s : string) :
  (n <= String.length s)%nat ->
  exists pre, s = pre ++ substring_from n s /\ String.length pre = n.
Proof.
  revert s; induction n as [|n IH]; intros s Hn.
  - exists EmptyString. now destruct s.
  - destruct s as [|c s]; simpl in *; [lia|].
    destruct (IH s) as [pre [Heq Hlen]]; [lia|].
    exists (String c pre). split; [ | simpl; now rewrite Hlen].
    change (String c s = String c (pre ++ substring_from n s)). now f_equal.
Qed.

Lemma endsWith_spec (s suf : string) :
  endsWith s suf = true <-> ends_with s suf.
Proof.
  unfold endsWith, ends_with. rewrite andb_true_iff, Nat.leb_le, String.eqb_eq.
  split.
  - intros [Hle Heq].
    destruct (substring_from_split (String.length s - String.length suf) s)
      as [pre [Hs _]]; [lia|].
    exists pre. now rewrite Heq in Hs.
  - intros [pre ->]. rewrite length_app_string. split; [lia|].
    replace (String.length pre + String.length suf - String.length suf)%nat
      with (String.length pre) by lia.
    apply substring_from_app.
Qed.

Lemma startsWith_app (p rest : string) : startsWith (p ++ rest) p = true.
Proof.
  induction p as [|c p IH]; simpl; [now destruct rest|].
  now rewrite Ascii.eqb_refl.
Qed.

Lemma startsWith_spec (s p : string) :
  startsWith s p = true <-> exists rest, s = p ++ rest.
Proof.
  split.
  - revert s; induction p as [|c p IH]; intros s H.
    + now exists s.
    + destruct s as [|d s]; simpl in H; [discriminate|].
      destruct (Ascii.eqb_spec c d) as [->|]; [|discriminate].
      destruct (IH s H) as [rest ->]. now exists rest.
  - intros [rest ->]. apply startsWith_app.
Qed.

End StringFacts.

(** ** Security Guard *)

Section AllowlistFacts.

Lemma existsb_allowed (hostname : string) (l : list string) :
  existsb (fun allowed =>
             String.eqb hostname allowed || endsWith hostname ("." ++ allowed)) l = true
  <-> exists E, In E l /\ (hostname = E \/ ends_with hostname ("." ++ E)).
Proof.
  rewrite existsb_exists. split; intros [E [HIn H]]; exists E; split; trivial.
  - apply orb_true_iff in H as [H|H]; [left; now apply String.eqb_eq
                                      | right; now apply endsWith_spec].
  - apply orb_true_iff. destruct H as [H|H]; [left; now apply String.eqb_eq
                                             | right; now apply endsWith_spec].
Qed.

End AllowlistFacts.

(** C7. For every hostname and allowlist, [isAllowedUpstream] passes iff
    the allowlist is empty or some entry E has hostname = E or hostname
    ending with "." ++ E; with the entry [example.com],
    [api.example.com] passes and [evilexample.com] does not. *)
Theorem isAllowedUpstream_iff :
  (forall hostname allowlist,
      isAllowedUpstream hostname allowlist = true
      <-> passes_allowlist hostname allowlist)
  /\ isAllowedUpstream "api.example.com" ["example.com"] = true
  /\ isAllowedUpstream "evilexample.com" ["example.com"] = false.
Proof.
  split; [|split; reflexivity].
  intros hostname allowlist. unfold isAllowedUpstream, passes_allowlist.
  destruct allowlist as [|E0 rest].
  - simpl. split; [now left | reflexivity].
  - change (List.length (E0 :: rest) =? 0)%nat with false. cbv iota.
    rewrite existsb_allowed. split.
    + intros H. now right.
    + intros [H|H]; [discriminate | exact H].
Qed.

Section PrivateRanges.

(** The IPv4 ranges are recognised on dotted-decimal literals. *)
Lemma isPrivateIP_ipv4 (rest : string) :
  isPrivateIP ("127." ++ rest) = true
  /\ isPrivateIP ("10." ++ rest) = true
  /\ isPrivateIP ("192.168." ++ rest) = true
  /\ isPrivateIP ("169.254." ++ rest) = true
  /\ isPrivateIP ("0." ++ rest) = true
  /\ isPrivateIP ("172.16." ++ rest) = true
  /\ isPrivateIP ("172.31." ++ rest) = true
  /\ isPrivateIP "::1" = true.
Proof. repeat split; vm_compute; reflexivity. Qed.

(** The second group of [172.16.0.0/12] runs from 16 to 31. *)
Lemma isPrivateIP_172 (n : N) (rest : string) :
  (16 <= n <= 31)%N -> isPrivateIP ("172." ++ pretty n ++ "." ++ rest) = true.
Proof.
  intros [Hlo Hhi].
  assert (H : exists k : nat, (k < 16)%nat /\ n = (16 + N.of_nat k)%N).
  { exists (N.to_nat (n - 16)). split; lia. }
  destruct H as [k [Hk ->]].
  do 16 (destruct k as [|k]; [vm_compute; reflexivity|]). lia.
Qed.

(** The guard rejects every URL whose host the predicate classifies as
    private, when private-IP blocking is on. *)
Lemma validateUpstreamUrl_blocks_private {platform : UrlPlatform}
    (urlString : string) (security : SecurityConfig) (parsed : URL) :
  URL_new urlString None = Some parsed ->
  blockPrivateIPs security = true ->
  isPrivateIP (hostname parsed) = true ->
  valid (validateUpstreamUrl urlString security) = false.
Proof.
  intros Hp Hb Hpriv. unfold validateUpstreamUrl. rewrite Hp, Hb, Hpriv.
  now destruct (isAllowedUpstream _ _).
Qed.

End PrivateRanges.

(** C8. The private-IP predicate is claimed to classify as private every
    literal of [fc00::/7] and of [fe80::/10]; evaluated on [fd00::1],
    which lies in [fc00::/7], and on [fe90::1], which lies in
    [fe80::/10], [isPrivateIP] answers [false]. *)
Theorem isPrivateIP_misses_ipv6_ranges :
  in_ula "fd00::1" = true /\ isPrivateIP "fd00::1" = false
  /\ in_link_local "fe90::1" = true /\ isPrivateIP "fe90::1" = false.
Proof. repeat split; vm_compute; reflexivity. Qed.

(** ** Audit Store and hydration *)

Section Hydration.

Lemma newest_first_total : Total newest_first.
Proof. intros a b. unfold newest_first. lia. Qed.

Lemma newest_first_trans : Transitive newest_first.
Proof. intros a b c. unfold newest_first. lia. Qed.

Lemma select_active_sorted (now : Z) (rows : list ApprovalRow) :
  StronglySorted newest_first (select_active now rows).
Proof.
  unfold select_active.
  apply (@StronglySorted_merge_sort _ newest_first _ newest_first_trans
           newest_first_total).
Qed.

Lemma select_active_In (now : Z) (rows : list ApprovalRow) (r : ApprovalRow) :
  In r (select_active now rows) <-> In r rows /\ live now r.
Proof.
  unfold select_active, live.
  rewrite <- !list_elem_of_In, merge_sort_Permutation, !list_elem_of_In.
  rewrite filter_In, andb_true_iff, Z.ltb_lt, negb_true_iff. tauto.
Qed.

Lemma delete_expired_In (now : Z) (rows : list ApprovalRow) (r : ApprovalRow) :
  In r (delete_expired now rows) <-> In r rows /\ now < expires_at r.
Proof.
  unfold delete_expired. rewrite filter_In, negb_true_iff, Z.leb_gt. tauto.
Qed.

(** The first row of a service in a list sorted newest first is its
    newest row. *)
Lemma find_newest (rows : list ApprovalRow) (p : ApprovalRow -> bool) (r : ApprovalRow) :
  StronglySorted newest_first rows ->
  List.find p rows = Some r ->
  In r rows /\ p r = true /\ forall r', In r' rows -> p r' = true -> id r' <= id r.
Proof.
  induction 1 as [|x l Hs IH Hall]; simpl; [discriminate|].
  destruct (p x) eqn:Hpx.
  - intros [= <-]. repeat split; [now left | exact Hpx |].
    intros r' [<-|Hin] _; [lia|].
    rewrite Forall_forall in Hall. apply Hall. now apply list_elem_of_In.
  - intros Hf. destruct (IH Hf) as [Hin [Hp Hmax]].
    repeat split; [now right | exact Hp |].
    intros r' [<-|Hin'] Hp'; [congruence | now apply Hmax].
Qed.

Lemma find_absent {A : Type} (p : A -> bool) (l : list A) :
  (forall x, In x l -> p x = false) -> List.find p l = None.
Proof.
  intros H. destruct (List.find p l) as [x|] eqn:Hf; [|reflexivity].
  apply find_some in Hf as [Hin Hp]. rewrite (H x Hin) in Hp. discriminate.
Qed.

Lemma find_present {A : Type} (p : A -> bool) (l : list A) (x : A) :
  In x l -> p x = true -> exists y, List.find p l = Some y.
Proof.
  intros Hin Hp. destruct (List.find p l) as [y|] eqn:Hf; [now exists y|].
  rewrite (find_none _ _ Hf x Hin) in Hp. discriminate.
Qed.

Lemma same_id_same_row (rows : list ApprovalRow) (a b : ApprovalRow) :
  NoDup (id <$> rows) -> In a rows -> In b rows -> id a = id b -> a = b.
Proof.
  induction rows as [|x l IH]; simpl; [tauto|].
  rewrite ?fmap_cons, NoDup_cons. intros [Hx Hl] [<-|Ha] [<-|Hb] Hid; trivial.
  - exfalso. apply Hx. rewrite Hid. apply list_elem_of_fmap. exists b.
    split; [reflexivity | now apply list_elem_of_In].
  - exfalso. apply Hx. rewrite <- Hid. apply list_elem_of_fmap. exists a.
    split; [reflexivity | now apply list_elem_of_In].
  - now apply IH.
Qed.

(** What the deduplication loop followed by the loop of
    [restoreApprovals] leaves in the map, service by service. *)
Lemma dedupe_installed (rows : list ApprovalRow) (seen : gset string)
    (m : gmap string Approval) (s : string) :
  foldl (fun m a => <[service a := a]> m) m (dedupe seen rows) !! s
  = if decide (s ∈ seen) then m !! s
    else match List.find (fun r => String.eqb (row_service r) s) rows with
         | Some r => Some (to_approval r)
         | None => m !! s
         end.
Proof.
  revert seen m. induction rows as [|r rest IH]; intros seen m; simpl.
  - now destruct (decide (s ∈ seen)).
  - destruct (decide (row_service r ∈ seen)) as [Hin|Hnin].
    + rewrite IH. destruct (decide (s ∈ seen)) as [Hs|Hs]; [reflexivity|].
      destruct (String.eqb_spec (row_service r) s) as [E|E]; [congruence|reflexivity].
    + simpl. rewrite IH.
      destruct (String.eqb_spec (row_service r) s) as [E|E].
      * subst s. rewrite decide_True by (apply elem_of_union; left; now apply elem_of_singleton).
        rewrite decide_False by exact Hnin.
        apply lookup_insert_eq.
      * destruct (decide (s ∈ seen)) as [Hs|Hs].
        -- rewrite decide_True by (apply elem_of_union; now right).
           now apply lookup_insert_ne.
        -- rewrite decide_False.
           ++ destruct (List.find _ rest); [reflexivity | now apply lookup_insert_ne].
           ++ rewrite elem_of_union, elem_of_singleton. intros [Heq|Hin]; congruence.
Qed.

Lemma dedupe_services (rows : list ApprovalRow) (seen : gset string) :
  NoDup (service <$> dedupe seen rows)
  /\ forall s, s ∈ (service <$> dedupe seen rows) -> s ∉ seen.
Proof.
  revert seen. induction rows as [|r rest IH]; intros seen; simpl.
  - split; [constructor | intros s Hs; inversion Hs].
  - destruct (decide (row_service r ∈ seen)) as [Hin|Hnin]; [apply IH|].
    rewrite fmap_cons. destruct (IH ({[row_service r]} ∪ seen)) as [Hnd Hfresh].
    split.
    + constructor; [|exact Hnd]. intros Hc. apply Hfresh in Hc.
      apply Hc, elem_of_union. left. now apply elem_of_singleton.
    + intros s Hs. apply elem_of_cons in Hs as [->|Hs]; [exact Hnin|].
      apply Hfresh in Hs. intros Hseen. apply Hs, elem_of_union. now right.
Qed.

(** The loop of [restoreApprovals] only touches the map and the trace. *)
Lemma for_each_set (saved : list Approval) (w : World) :
  let w' := snd (for_each saved activeApprovals_set w) in
  activeApprovals w' = foldl (fun m a => <[service a := a]> m) (activeApprovals w) saved
  /\ approvals w' = approvals w /\ clock w' = clock w /\ requests w' = requests w.
Proof.
  revert w. induction saved as [|a rest IH]; intros w; simpl; [tauto|].
  unfold mbind, M_bind. simpl.
  match goal with |- context [for_each rest activeApprovals_set ?w1] =>
    destruct (IH w1) as (H1 & H2 & H3 & H4) end.
  simpl in *. rewrite H1, H2, H3, H4. tauto.
Qed.

(** Hydration, spelled out. *)
Lemma restoreApprovals_run (w : World) :
  let w' := snd (restoreApprovals w) in
  activeApprovals w'
  = foldl (fun m a => <[service a := a]> m) (activeApprovals w)
      (dedupe ∅ (select_active (clock w) (delete_expired (clock w) (approvals w))))
  /\ approvals w' = delete_expired (clock w) (approvals w)
  /\ clock w' = clock w.
Proof.
  unfold restoreApprovals, getActiveApprovals. unfold mbind, M_bind. simpl.
  match goal with |- context [for_each ?l activeApprovals_set ?w1] =>
    destruct (for_each_set l w1) as (H1 & H2 & H3 & _) end.
  simpl in *. rewrite H1, H2, H3. tauto.
Qed.

End Hydration.

(** C4. Startup hydration first deletes the persisted approval rows with
    [expires_at <= now], then loads the remaining non-revoked rows newest
    first, keeping the first row met per service; the resulting live-Grants
    map is the filter of the persisted set by (not expired, not revoked,
    newest per service), with at most one entry per service. *)
Theorem restoreApprovals_live_view (w : World) :
  activeApprovals w = ∅ ->
  NoDup (id <$> approvals w) ->
  let now := clock w in
  let w' := snd (restoreApprovals w) in
  (forall r, In r (approvals w') <-> In r (approvals w) /\ ~ expires_at r <= now)
  /\ (forall s a,
        activeApprovals w' !! s = Some a
        <-> exists r, newest_live now (approvals w) r
                      /\ row_service r = s /\ grant_of_row r a)
  /\ NoDup (service <$> fst (getActiveApprovals w))
  /\ (forall s a, activeApprovals w' !! s = Some a -> service a = s).
Proof.
  intros Hempty Hnd now w'.
  assert (Hgrant : forall r a, grant_of_row r a <-> a = to_approval r).
  { intros r [sv at_ ex by_]. unfold grant_of_row, to_approval. simpl. split.
    - intros (-> & -> & -> & ->). reflexivity.
    - intros [= -> -> -> ->]. repeat split. }
  destruct (restoreApprovals_run w) as (Hmap & Hrows & _).
  fold w' in Hmap, Hrows. fold now in Hmap, Hrows.
  assert (Hlook : forall s,
    activeApprovals w' !! s
    = to_approval <$> List.find (fun r => String.eqb (row_service r) s)
                        (select_active now (delete_expired now (approvals w)))).
  { intros s. rewrite Hmap, dedupe_installed, Hempty.
    rewrite decide_False by apply not_elem_of_empty.
    now destruct (List.find _ _). }
  assert (Hin : forall r,
    In r (select_active now (delete_expired now (approvals w)))
    <-> In r (approvals w) /\ live now r).
  { intros r. rewrite select_active_In, delete_expired_In. unfold live. tauto. }
  split; [|split; [|split]].
  - intros r. rewrite Hrows, delete_expired_In.
    split; intros [Hr Hexp]; (split; [exact Hr | lia]).
  - intros s a. rewrite Hlook. setoid_rewrite Hgrant. split.
    + destruct (List.find _ _) as [r|] eqn:Hf; [|discriminate].
      intros [= <-].
      apply find_newest in Hf as (Hr & Hs & Hmax); [|apply select_active_sorted].
      apply String.eqb_eq in Hs. apply Hin in Hr as [Hr Hlive].
      exists r. split; [|split; [exact Hs | reflexivity]].
      split; [exact Hr|]. split; [exact Hlive|].
      intros r' Hr' Hlive' Hsame. apply Hmax; [now apply Hin|].
      apply String.eqb_eq. congruence.
    + intros (r & (Hr & Hlive & Hmax) & Hs & ->).
      destruct (find_present (fun r => String.eqb (row_service r) s)
                  (select_active now (delete_expired now (approvals w))) r)
        as [r1 Hf]; [now apply Hin | now apply String.eqb_eq|].
      rewrite Hf. simpl. do 2 f_equal.
      apply find_newest in Hf as (Hr1 & Hs1 & Hmax1); [|apply select_active_sorted].
      apply String.eqb_eq in Hs1. apply Hin in Hr1 as [Hr1 Hlive1].
      apply (same_id_same_row (approvals w)); trivial.
      apply Z.le_antisymm.
      * apply Hmax; trivial. congruence.
      * apply Hmax1; [now apply Hin | now apply String.eqb_eq].
  - apply dedupe_services.
  - intros s a. rewrite Hlook.
    destruct (List.find _ _) as [r|] eqn:Hf; [|discriminate].
    intros [= <-]. apply find_some in Hf as [_ Hs]. now apply String.eqb_eq in Hs.
Qed.

Lemma restoreApprovals_live_view_witness :
  activeApprovals three_rows = ∅
  /\ NoDup (id <$> approvals three_rows)
  /\ exists r, newest_live (clock three_rows) (approvals three_rows) r
               /\ row_service r = "gh" /\ grant_of_row r bob_grant.
Proof.
  assert (H1 : activeApprovals three_rows = ∅) by reflexivity.
  assert (H2 : NoDup (id <$> approvals three_rows)).
  { apply (bool_decide_unpack _). vm_compute. exact I. }
  split; [exact H1|]. split; [exact H2|].
  apply (proj1 (proj1 (proj2 (restoreApprovals_live_view three_rows H1 H2))
                  "gh" bob_grant)).
  vm_compute. reflexivity.
Defined.

Section Revocation.

Lemma mark_revoked_service (s : string) (r : ApprovalRow) :
  row_service (mark_revoked s r) = row_service r.
Proof. unfold mark_revoked. now destruct (_ && _). Qed.

Lemma mark_revoked_revoked (s : string) (r : ApprovalRow) :
  row_service r = s -> revoked (mark_revoked s r) = true.
Proof.
  intros <-. unfold mark_revoked. rewrite String.eqb_refl. simpl.
  now destruct (revoked r) eqn:E.
Qed.

(** When every row of [s] is revoked, hydration restores nothing for
    [s], whatever the time. *)
Lemma nothing_restored (w : World) (s : string) :
  activeApprovals w = ∅ ->
  (forall r, In r (approvals w) -> row_service r = s -> revoked r = true) ->
  activeApprovals (snd (restoreApprovals w)) !! s = None.
Proof.
  intros Hempty Hrev. destruct (restoreApprovals_run w) as (-> & _ & _).
  rewrite dedupe_installed, Hempty.
  rewrite decide_False by apply not_elem_of_empty.
  rewrite find_absent; [apply lookup_empty|].
  intros r Hr. apply select_active_In in Hr as [Hr [_ Hlive]].
  apply delete_expired_In in Hr as [Hr _].
  destruct (String.eqb_spec (row_service r) s) as [E|E]; [|reflexivity].
  rewrite (Hrev r Hr E) in Hlive. discriminate.
Qed.

Lemma revokeApproval_run (w : World) (s : string) :
  is_Some (activeApprovals w !! s) ->
  fst (revokeApproval s w) = true
  /\ approvals (snd (revokeApproval s w)) = List.map (mark_revoked s) (approvals w)
  /\ activeApprovals (snd (revokeApproval s w)) = delete s (activeApprovals w)
  /\ trace (snd (revokeApproval s w)) = (trace w ++ [GrantDropped s; MarkRevoked s])%list.
Proof.
  intros Hs. unfold revokeApproval, mbind, M_bind, gets. simpl.
  rewrite bool_decide_eq_true_2 by exact Hs. simpl.
  rewrite <- app_assoc. tauto.
Qed.

End Revocation.

(** C10, as stated, fails: a revoke of a service that has no grant in
    memory marks no row.  In a state reached from the empty store, where
    the grant of [gh] has lapsed in memory and an older row of [gh] is
    still unexpired, [revokeApproval] answers [false] and changes
    nothing, and the next start restores a grant for [gh] from that
    row. *)
Lemma revoke_of_lapsed_grant_marks_nothing :
  activeApprovals lapsed_once !! "gh" = None
  /\ (revoked <$> approvals lapsed_once) = [false; false]
  /\ revokeApproval "gh" lapsed_once = (false, lapsed_once)
  /\ approvedBy
     <$> activeApprovals
           (snd (restoreApprovals (restart 1000 (snd (revokeApproval "gh" lapsed_once)))))
         !! "gh"
     = Some "ann".
Proof. repeat split; vm_compute; reflexivity. Qed.

(** C10, amended. Revoking the approval of a service that has a grant
    in memory marks every non-revoked persisted row of that service as
    revoked, not only the most recent one, and leaves the rows of the
    other services as they are; after it, no later startup hydration
    restores a grant for that service from the rows that were there. *)
Theorem revoke_marks_every_row (w : World) (s : string) :
  is_Some (activeApprovals w !! s) ->
  let w1 := snd (revokeApproval s w) in
  fst (revokeApproval s w) = true
  /\ approvals w1 = List.map (mark_revoked s) (approvals w)
  /\ (forall r, In r (approvals w1) -> row_service r = s -> revoked r = true)
  /\ (forall r, In r (approvals w) -> row_service r <> s -> In r (approvals w1))
  /\ forall ms, activeApprovals (snd (restoreApprovals (restart ms w1))) !! s = None.
Proof.
  intros Hs w1. destruct (revokeApproval_run w s Hs) as (Hb & Hrows & _ & _).
  fold w1 in Hrows.
  assert (Hall : forall r, In r (approvals w1) -> row_service r = s -> revoked r = true).
  { intros r. rewrite Hrows, in_map_iff. intros (r0 & <- & _) E.
    rewrite mark_revoked_service in E. now apply mark_revoked_revoked. }
  split; [exact Hb|]. split; [exact Hrows|]. split; [exact Hall|]. split.
  - intros r Hr Hne. rewrite Hrows, in_map_iff. exists r. split; [|exact Hr].
    unfold mark_revoked.
    destruct (String.eqb_spec (row_service r) s); [contradiction | reflexivity].
  - intros ms. apply nothing_restored; [reflexivity | exact Hall].
Qed.

Lemma revoke_marks_every_row_witness :
  is_Some (activeApprovals two_live_rows !! "gh")
  /\ activeApprovals
       (snd (restoreApprovals (restart 5000 (snd (revokeApproval "gh" two_live_rows)))))
       !! "gh" = None.
Proof.
  assert (H : is_Some (activeApprovals two_live_rows !! "gh")).
  { vm_compute. eexists. reflexivity. }
  split; [exact H|].
  exact (proj2 (proj2 (proj2 (proj2 (revoke_marks_every_row two_live_rows "gh" H))))
           5000).
Defined.

(** ** Approval Coordinator: the order of writes *)

Section WriteOrder.

Lemma checkApproval_settled_run (w : World) (s : string) (d : ApprovalResult) :
  d_approved d = true ->
  let a := {| service := s; approvedAt := clock w;
              expiresAt := clock w + d_ttlSeconds d * 1000;
              approvedBy := d_approvedBy d |} in
  let row := {| id := next_approval_id w; row_timestamp := clock w;
                row_service := s; approved_by := d_approvedBy d;
                ttl_seconds := d_ttlSeconds d;
                expires_at := clock w + d_ttlSeconds d * 1000; revoked := false |} in
  let w' := snd (checkApproval_settled s d w) in
  fst (checkApproval_settled s d w) = true
  /\ trace w' = (trace w ++ [GrantInstalled a; InsertApproval row])%list
  /\ activeApprovals w' = <[s := a]> (activeApprovals w)
  /\ approvals w' = (approvals w ++ [row])%list.
Proof.
  intros Hd. unfold checkApproval_settled. rewrite Hd.
  unfold mbind, M_bind. simpl. rewrite <- app_assoc. tauto.
Qed.

Lemma effects_of_app {A : Type} (m : M A) (w : World) (es : list effect) :
  trace (snd (m w)) = (trace w ++ es)%list -> effects_of m w = es.
Proof. unfold effects_of. intros ->. apply drop_app_length. Qed.

End WriteOrder.

(** C9, as stated, fails: when an approval is granted the Grant is
    installed in the in-memory map before it is persisted, and a
    revocation drops the in-memory entry before it marks the rows. *)
Lemma persist_then_install_refuted :
  ~ happens_before is_persist is_install
      (effects_of (checkApproval_settled "gh" (one_hour "ann")) (empty_world 1000))
  /\ ~ happens_before is_mark_revoked is_drop
         (effects_of (revokeApproval "gh") two_live_rows).
Proof. split; vm_compute; lia. Qed.

(** C9, amended. When an approval is granted, the Grant is installed in
    the in-memory map and then persisted to the Audit Store, both before
    [checkApproval] returns [true] to the request it authorizes; a
    revocation of a live Grant drops the in-memory entry and then writes
    the revoked mark to the Audit Store. *)
Theorem install_then_persist (w w2 : World) (s : string) (d : ApprovalResult) :
  d_approved d = true ->
  is_Some (activeApprovals w2 !! s) ->
  let a := {| service := s; approvedAt := clock w;
              expiresAt := clock w + d_ttlSeconds d * 1000;
              approvedBy := d_approvedBy d |} in
  let row := {| id := next_approval_id w; row_timestamp := clock w;
                row_service := s; approved_by := d_approvedBy d;
                ttl_seconds := d_ttlSeconds d;
                expires_at := clock w + d_ttlSeconds d * 1000; revoked := false |} in
  let granted := checkApproval_settled s d in
  (fst (granted w) = true
   /\ effects_of granted w = [GrantInstalled a; InsertApproval row]
   /\ happens_before is_install is_persist (effects_of granted w)
   /\ activeApprovals (snd (granted w)) !! s = Some a
   /\ In row (approvals (snd (granted w))))
  /\ (fst (revokeApproval s w2) = true
      /\ effects_of (revokeApproval s) w2 = [GrantDropped s; MarkRevoked s]
      /\ happens_before is_drop is_mark_revoked (effects_of (revokeApproval s) w2)).
Proof.
  intros Hd Hs a row granted.
  destruct (checkApproval_settled_run w s d Hd) as (Hb & Htr & Hmap & Hrows).
  destruct (revokeApproval_run w2 s Hs) as (Hb' & _ & _ & Htr').
  fold a row in Htr, Hmap, Hrows.
  apply effects_of_app in Htr. apply effects_of_app in Htr'.
  split; [split; [exact Hb | split; [exact Htr | split; [|split]]]|].
  - unfold granted. rewrite Htr. vm_compute. lia.
  - unfold granted. rewrite Hmap. apply lookup_insert_eq.
  - unfold granted. rewrite Hrows. apply in_or_app. right. now left.
  - split; [exact Hb' | split; [exact Htr'|]]. rewrite Htr'. vm_compute. lia.
Qed.

Lemma install_then_persist_witness :
  d_approved (one_hour "ann") = true
  /\ is_Some (activeApprovals two_live_rows !! "gh")
  /\ happens_before is_install is_persist
       (effects_of (checkApproval_settled "gh" (one_hour "ann")) (empty_world 1000))
  /\ effects_of (revokeApproval "gh") two_live_rows = [GrantDropped "gh"; MarkRevoked "gh"].
Proof.
  assert (H1 : d_approved (one_hour "ann") = true) by reflexivity.
  assert (H2 : is_Some (activeApprovals two_live_rows !! "gh")).
  { vm_compute. eexists. reflexivity. }
  split; [exact H1|]. split; [exact H2|].
  pose proof (install_then_persist (empty_world 1000) two_live_rows "gh"
                (one_hour "ann") H1 H2) as H.
  split; [exact (proj1 (proj2 (proj2 (proj1 H))))
         | exact (proj1 (proj2 (proj2 H)))].
Defined.

(** ** Out-of-Band Notifier: the pending registry *)

(** When the approver answers before the deadline, the entry is
    discarded and a later reply with the same request id is answered as
    expired. *)
Lemma reply_before_deadline :
  fst (checkApproval no_pairing "gh" gh_service "DELETE" "/repos/a/b" "192.0.2.7"
         (empty_world 1000)) = inr "req_1000_1"
  /\ awaiting after_decision !! "req_1000_1" = Some (Some (one_hour "ann"))
  /\ pendingCallbacks after_decision !! "req_1000_1" = None
  /\ effects_of (on_callback_query no_pairing tap_1h) after_decision
     = [CallbackAnswered RequestExpired]
  /\ invocations "req_1000_1" (trace after_decision) = 1%nat.
Proof. repeat split; vm_compute; reflexivity. Qed.

(** C5. The pending-registry entry is claimed to be discarded once the
    deadline has resolved the PendingApproval, so that a later reply is
    answered as expired.  Evaluated on a request nobody answers for 120 s:
    the deadline resolves it as denied, the entry is still registered, and
    a reply tapped afterwards finds it, calls the reply channel a second
    time and is answered "approved for 1 hour". *)
Theorem reply_after_deadline :
  awaiting after_deadline !! "req_1000_1" = Some (Some timed_out)
  /\ invocations "req_1000_1" (trace after_deadline) = 1%nat
  /\ pendingCallbacks after_deadline !! "req_1000_1" = Some "req_1000_1"
  /\ effects_of (on_callback_query no_pairing tap_1h) after_deadline
     = [ReplyChannelInvoked "req_1000_1" (one_hour "ann");
        CallbackAnswered ApprovedFor1h;
        PromptEdited "req_1000_1" ApprovedFor1h "ann"]
  /\ invocations "req_1000_1"
       (trace (snd (on_callback_query no_pairing tap_1h after_deadline))) = 2%nat
  /\ activeApprovals (snd (on_callback_query no_pairing tap_1h after_deadline)) !! "gh"
     = None.
Proof. repeat split; vm_compute; reflexivity. Qed.

(** ** Proxy Engine *)

Section Identity.
Context {platform : UrlPlatform}.

Lemma is_string_true (v : HeaderValue) (s : string) :
  is_string v s = true -> v = HString s.
Proof.
  destruct v as [t| |]; simpl; try discriminate.
  intros H. apply String.eqb_eq in H. now subst.
Qed.


Lemma handleProxy_bad_key (config : Config) (req : Request) (w : World) :
  startsWith (params_service req) "__" = false ->
  is_Some (get (params_service req) (services config)) ->
  is_string (agentKey req) (server_agentKey config) = false ->
  handleProxy config req w = (Returned, snd (respond 401 InvalidOrMissingKey w)).
Proof.
  intros Hp [sc Hsc] Hk. unfold handleProxy. rewrite Hp, Hsc, Hk. reflexivity.
Qed.

Lemma handleHostProxy_bad_key (config : Config) (req : Request) (w : World) :
  is_Some (resolveServiceByHost (req_header req "host") (services config)) ->
  is_string (agentKey req) (server_agentKey config) = false ->
  handleHostProxy config req w = (Returned, snd (respond 401 InvalidOrMissingKey w)).
Proof.
  intros [[name sc] Hsc] Hk. unfold handleHostProxy. rewrite Hsc, Hk. reflexivity.
Qed.

End Identity.

Import Router.

Section Unkeyed.
Context {platform : UrlPlatform}.




End Unkeyed.




Section GuardFailure.
Context {platform : UrlPlatform}.

(** Path-prefix routing: a failed runtime check writes one audit row
    and answers 403. *)
Lemma handleProxy_guard_failure (config : Config) (req : Request) (w : World)
    (sc : ServiceConfig) (u : URL) :
  let upstreamPath :=
    or_else (substring_from (String.length ("/" ++ params_service req))
               (originalUrl req)) "/" in
  let agentIp := or_else (req_ip req) (or_else (remoteAddress req) "unknown") in
  let e := denied_entry (clock w) (params_service req) req upstreamPath agentIp in
  startsWith (params_service req) "__" = false ->
  get (params_service req) (services config) = Some sc ->
  is_string (agentKey req) (server_agentKey config) = true ->
  URL_new upstreamPath (Some (upstream sc)) = Some u ->
  valid (validateRuntimeUrl (toString u) (upstream sc) (security config)) = false ->
  fst (handleProxy config req w) = Returned
  /\ requests (snd (handleProxy config req w)) = (requests w ++ [e])%list
  /\ effects_of (handleProxy config req) w
     = [InsertRequest e; HttpResponse 403 BlockedBySecurityPolicy].
Proof.
  intros upstreamPath agentIp e Hp Hsc Hk Hu Hv.
  assert (H : handleProxy config req w
              = (Returned,
                 snd (respond 403 BlockedBySecurityPolicy (snd (logRequest e w))))).
  { unfold handleProxy. rewrite Hp, Hsc, Hk. simpl negb. cbv iota.
    fold upstreamPath. rewrite Hu, Hv. reflexivity. }
  rewrite H. split; [reflexivity|]. split; [reflexivity|].
  apply effects_of_app. rewrite H. simpl. now rewrite <- app_assoc.
Qed.

(** Host-header routing: a failed runtime check answers 403 and writes
    nothing. *)
Lemma handleHostProxy_guard_failure (config : Config) (req : Request) (w : World)
    (name : string) (sc : ServiceConfig) (u : URL) :
  resolveServiceByHost (req_header req "host") (services config) = Some (name, sc) ->
  is_string (agentKey req) (server_agentKey config) = true ->
  URL_new (or_else (originalUrl req) "/") (Some (upstream sc)) = Some u ->
  valid (validateRuntimeUrl (toString u) (upstream sc) (security config)) = false ->
  fst (handleHostProxy config req w) = Returned
  /\ requests (snd (handleHostProxy config req w)) = requests w
  /\ effects_of (handleHostProxy config req) w
     = [HttpResponse 403 BlockedBySecurityPolicy].
Proof.
  intros Hsc Hk Hu Hv.
  assert (H : handleHostProxy config req w
              = (Returned, snd (respond 403 BlockedBySecurityPolicy w))).
  { unfold handleHostProxy. rewrite Hsc, Hk. simpl negb. cbv iota.
    rewrite Hu, Hv. reflexivity. }
  rewrite H. split; [reflexivity|]. split; [reflexivity|].
  apply effects_of_app. rewrite H. reflexivity.
Qed.

End GuardFailure.

(** C3. Whenever the runtime SSRF guard fails, in both routing modes, the
    client is to receive 403 and exactly one AuditRecord with
    approved=false and status=403 is to be written.  Evaluated on a
    request target that swings the host to [evil.example]: in path-prefix
    routing the row is written and 403 answered; in host-header routing
    403 is answered and no row is written. *)
Theorem host_mode_guard_failure_unaudited :
  let by_path := request "GET" "/gh//evil.example/x" "gh" [with_key] in
  let by_host :=
    request "GET" "//evil.example/x" "" [("host", HString "api.github.com"); with_key] in
  let row :=
    {| timestamp := 1000; entry_service := "gh"; method := "GET";
       entry_path := "//evil.example/x"; approved := false; responseStatus := Some 403;
       agentIp := "192.0.2.7"; requestBody := None; responseBody := None |} in
  (effects_of (handleProxy (platform := whatwg) gh_config by_path) (empty_world 1000)
   = [InsertRequest row; HttpResponse 403 BlockedBySecurityPolicy]
   /\ requests (snd (handleProxy (platform := whatwg) gh_config by_path
                       (empty_world 1000))) = [row])
  /\ (effects_of (handleHostProxy (platform := whatwg) gh_config by_host)
        (empty_world 1000)
      = [HttpResponse 403 BlockedBySecurityPolicy]
      /\ requests (snd (handleHostProxy (platform := whatwg) gh_config by_host
                          (empty_world 1000))) = []).
Proof. repeat split; vm_compute; reflexivity. Qed.

Import Router.

Section Routing.

(** The host-header handler is given a request only when the path of
    its target is [/] or begins with [//]. *)
Lemma route_to_host (target : string) :
  route target = Some ToHostProxy ->
  pathname target = Some "/" \/ exists rest, pathname target = Some ("//" ++ rest).
Proof.
  unfold route. destruct (pathname target) as [[|c path]|] eqn:Hp; try discriminate.
  assert (Hc : c = "/"%char).
  { unfold pathname in Hp. destruct target as [|c0 t]; [discriminate|].
    destruct (Ascii.eqb_spec c0 "/") as [->|Hne].
    - destruct (all_chars _ _); [|discriminate].
      change (before_first "?" (String "/" t))
        with (String "/" (before_first "?" t)) in Hp.
      now injection Hp as <- _.
    - exfalso. revert Hp. destruct c0 as [[] [] [] [] [] [] [] []]; try discriminate.
      now destruct Hne. }
  subst c.
  destruct (String.eqb_spec (before_first "/" path) "") as [He|Hne].
  - intros _. destruct path as [|d path]; [now left|].
    right. exists path. simpl in He.
    destruct (Ascii.eqb_spec d "/") as [->|_]; [reflexivity | discriminate].
  - destruct (reserved _); [discriminate|].
    destruct (decodeURIComponent (before_first "/" path)); try discriminate.
    destruct (decodeURIComponent _); discriminate.
Qed.

End Routing.

(** C1. The upstream URL is claimed to keep the path of the upstream
    base, in host-header mode for Host [u.example] and the request
    target [/x?z=1].  Evaluated on the routes of [createProxy]: that
    request never reaches the host-header handler, although its Host
    names the service; the route [/:service] gives it to the path-prefix
    handler as service [x], which answers 404, and no upstream URL is
    constructed.  The host-header handler is given only the targets whose
    path is [/] or begins with [//]; given the target [/?z=1] with the
    same Host it constructs [https://u.example/?z=1].  In path-prefix
    mode the target [/svc/x/y?z=1] gives [https://u.example/x/y?z=1]. *)
Theorem host_target_routed_by_path :
  let by_host := request "GET" "/x?z=1" "" [("host", HString "u.example"); with_key] in
  let by_root := request "GET" "/?z=1" "" [("host", HString "u.example"); with_key] in
  let by_path := request "GET" "/svc/x/y?z=1" "" [with_key] in
  (names_a_host svc_config by_host = true
   /\ route (originalUrl by_host) = Some (ToProxy "x")
   /\ exists run,
        gateway (platform := whatwg) svc_config by_host = Some run
        /\ effects_of run (empty_world 1000) = [HttpResponse 404 (UnknownService "x")]
        /\ constructed_by (fst (run (empty_world 1000))) = None)
  /\ (forall target,
        route target = Some ToHostProxy ->
        pathname target = Some "/" \/ exists rest, pathname target = Some ("//" ++ rest))
  /\ (exists run,
        gateway (platform := whatwg) svc_config by_root = Some run
        /\ route (originalUrl by_root) = Some ToHostProxy
        /\ constructed_by (fst (run (empty_world 1000)))
           = Some "https://u.example/?z=1")
  /\ (exists run,
        gateway (platform := whatwg) svc_config by_path = Some run
        /\ constructed_by (fst (run (empty_world 1000)))
           = Some "https://u.example/x/y?z=1").
Proof.
  intros by_host by_root by_path. split; [|split; [|split]].
  - split; [reflexivity|]. split; [reflexivity|].
    eexists. split; [reflexivity|]. split; vm_compute; reflexivity.
  - exact route_to_host.
  - eexists. split; [reflexivity|]. split; vm_compute; reflexivity.
  - eexists. split; [reflexivity|]. vm_compute. reflexivity.
Qed.

Section HeaderShaping.
Context {platform : UrlPlatform}.

Lemma copy_header_lookup (m : gmap string string) (k0 : string) (v0 : HeaderValue)
    (k : string) :
  copy_header m (k0, v0) !! k
  = if String.eqb k0 k
    then (if stripped k then m !! k
          else match rendered v0 with Some s => Some s | None => m !! k end)
    else m !! k.
Proof.
  unfold copy_header, stripped.
  destruct (String.eqb_spec k0 k) as [->|Hne].
  - destruct (startsWith (toLowerCase k) "x-clawguard"); [reflexivity|].
    destruct (startsWith (toLowerCase k) "x-agentgate"); [reflexivity|].
    destruct (String.eqb (toLowerCase k) "host"); [reflexivity|].
    destruct v0; simpl; [apply lookup_insert_eq | apply lookup_insert_eq | reflexivity].
  - destruct (startsWith (toLowerCase k0) "x-clawguard"); [reflexivity|].
    destruct (startsWith (toLowerCase k0) "x-agentgate"); [reflexivity|].
    destruct (String.eqb (toLowerCase k0) "host"); [reflexivity|].
    destruct v0; [now apply lookup_insert_ne | now apply lookup_insert_ne | reflexivity].
Qed.

Lemma get_absent {A : Type} (k : string) (entries : list (string * A)) :
  k ∉ (fst <$> entries) -> get k entries = None.
Proof.
  induction entries as [|[k0 v0] rest IH]; simpl; [reflexivity|].
  rewrite not_elem_of_cons. intros [Hne Hrest].
  destruct (String.eqb_spec k0 k) as [E|E]; [congruence | now apply IH].
Qed.

(** The copying loop, header by header, for a request whose header
    names are distinct (they are the keys of an object). *)
Lemma copy_loop_lookup (hs : list (string * HeaderValue)) (m : gmap string string)
    (k : string) :
  NoDup (fst <$> hs) ->
  fold_left copy_header hs m !! k
  = match get k hs with
    | Some v => if stripped k then m !! k
                else match rendered v with Some s => Some s | None => m !! k end
    | None => m !! k
    end.
Proof.
  revert m. induction hs as [|[k0 v0] rest IH]; intros m Hnd; [reflexivity|].
  change (fold_left copy_header ((k0, v0) :: rest) m)
    with (fold_left copy_header rest (copy_header m (k0, v0))).
  change (get k ((k0, v0) :: rest))
    with (if String.eqb k0 k then Some v0 else get k rest).
  rewrite fmap_cons in Hnd. apply NoDup_cons in Hnd as [Hfresh Hnd].
  rewrite (IH _ Hnd), !copy_header_lookup.
  destruct (String.eqb_spec k0 k) as [->|Hne]; [|reflexivity].
  now rewrite (get_absent k rest Hfresh).
Qed.

(** Credential injection and the Host header override what was copied
    and leave the rest. *)
Lemma inject_auth_lookup (sc : ServiceConfig) (m : gmap string string) (u : URL)
    (k : string) :
  fst (inject_auth sc m u) !! k
  = match fst (inject_auth sc ∅ u) !! k with
    | Some v => Some v
    | None => m !! k
    end
  /\ snd (inject_auth sc m u) = snd (inject_auth sc ∅ u).
Proof.
  unfold inject_auth.
  destruct (auth_type (auth sc)); [| destruct (truthy (headerName (auth sc)))
                                   | destruct (truthy (paramName (auth sc)))];
    simpl; (split; [|reflexivity]);
    repeat (rewrite !lookup_insert; repeat case_decide; simpl; trivial);
    rewrite ?lookup_empty; trivial.
Qed.

End HeaderShaping.

(** C6, as stated, fails: with the bearer recipe an incoming
    [authorization] header, which is neither a gateway header nor [Host],
    is not forwarded unchanged; it leaves with the service credential. *)
Lemma incoming_authorization_replaced :
  fst (handleProxy (platform := whatwg) gh_config with_dummy_token (empty_world 1000))
  = AwaitingApproval gh_user_pending
  /\ forward_headers with_dummy_token gh_user_pending !! "authorization"
     = Some "Bearer T"
  /\ ~ others_forwarded_unchanged with_dummy_token
         (forward_headers with_dummy_token gh_user_pending).
Proof.
  split; [reflexivity|].
  split; [vm_compute; reflexivity|].
  intros H. specialize (H "authorization" "Bearer dummy").
  assert (Hin : In ("authorization", HString "Bearer dummy") (headers with_dummy_token))
    by (right; now left).
  specialize (H Hin eq_refl). vm_compute in H. discriminate.
Qed.

(** C6, amended. For every forwarded request: no incoming header whose
    lowercase name starts with [x-clawguard] or [x-agentgate], and no
    incoming [Host], reaches the upstream request; every other incoming
    header is forwarded with its value (a list of values joined by
    [", "]) unless the gateway itself sets a header of that name; the
    gateway sets the service credential after the stripping
    ([authorization: Bearer T] for the bearer recipe, the configured
    header for the header recipe) and last [host], to the upstream URL's
    host; what it sets overrides what was copied. *)
Theorem forward_headers_shaping {platform : UrlPlatform} (req : Request) (p : Pending) :
  NoDup (fst <$> headers req) ->
  let forwardHeaders := forward_headers req p in
  let set_by_gateway := fst (inject_auth (serviceConfig p) ∅ (upstreamUrl p)) in
  let a := auth (serviceConfig p) in
  (forall w, exists url,
      effects_of (approval_answered req p true) w
      = [UpstreamRequest url (req_method req) forwardHeaders (req_body req)])
  /\ (forall key, stripped key = true -> forwardHeaders !! key = set_by_gateway !! key)
  /\ (forall key v, get key (headers req) = Some v -> stripped key = false ->
                    set_by_gateway !! key = None ->
                    forwardHeaders !! key = rendered v)
  /\ (forall key, get key (headers req) = None ->
                  forwardHeaders !! key = set_by_gateway !! key)
  /\ (forall key v, set_by_gateway !! key = Some v -> forwardHeaders !! key = Some v)
  /\ forwardHeaders !! "host"
     = Some (host (snd (inject_auth (serviceConfig p) (copy_headers req) (upstreamUrl p))))
  /\ (auth_type a = bearer ->
      forwardHeaders !! "authorization" = Some ("Bearer " ++ token a))
  /\ (forall name, auth_type a = header -> truthy (headerName a) = Some name ->
                   name <> "host" -> forwardHeaders !! name = Some (token a)).
Proof.
  intros Hnd forwardHeaders set_by_gateway a.
  assert (Hfh : forall key,
    forwardHeaders !! key
    = match set_by_gateway !! key with
      | Some v => Some v
      | None => copy_headers req !! key
      end).
  { intros key. apply inject_auth_lookup. }
  assert (Hcopy : forall key,
    copy_headers req !! key
    = match get key (headers req) with
      | Some v => if stripped key then None else rendered v
      | None => None
      end).
  { intros key. unfold copy_headers. rewrite (copy_loop_lookup _ _ _ Hnd).
    rewrite lookup_empty. destruct (get key (headers req)) as [v|]; [|reflexivity].
    destruct (stripped key); [reflexivity|]. now destruct (rendered v). }
  split; [|split; [|split; [|split; [|split; [|split; [|split]]]]]].
  - intros w. unfold forwardHeaders, forward_headers, approval_answered. simpl negb.
    cbv iota.
    destruct (inject_auth (serviceConfig p) (copy_headers req) (upstreamUrl p))
      as [hs url].
    exists (toString url). apply effects_of_app. reflexivity.
  - intros key Hs. rewrite Hfh, Hcopy, Hs.
    destruct (set_by_gateway !! key); [reflexivity|].
    now destruct (get key (headers req)).
  - intros key v Hg Hs Hset. now rewrite Hfh, Hset, Hcopy, Hg, Hs.
  - intros key Hg. rewrite Hfh, Hcopy, Hg. now destruct (set_by_gateway !! key).
  - intros key v Hset. now rewrite Hfh, Hset.
  - unfold forwardHeaders, forward_headers, inject_auth.
    destruct (auth_type (auth (serviceConfig p)));
      [| destruct (truthy (headerName (auth (serviceConfig p))))
       | destruct (truthy (paramName (auth (serviceConfig p))))];
      simpl; apply lookup_insert_eq.
  - intros Hb. unfold forwardHeaders, forward_headers, inject_auth. fold a.
    rewrite Hb. simpl. rewrite lookup_insert_ne by discriminate.
    apply lookup_insert_eq.
  - intros name Hh Hname Hne. unfold forwardHeaders, forward_headers, inject_auth.
    fold a. rewrite Hh, Hname. simpl. rewrite lookup_insert_ne by congruence.
    apply lookup_insert_eq.
Qed.

Lemma forward_headers_shaping_witness :
  fst (handleProxy (platform := whatwg) gh_config with_gateway_headers (empty_world 1000))
  = AwaitingApproval gh_user_pending
  /\ NoDup (fst <$> headers with_gateway_headers)
  /\ forward_headers with_gateway_headers gh_user_pending !! "x-clawguard-key" = None
  /\ forward_headers with_gateway_headers gh_user_pending !! "accept"
     = Some "application/json"
  /\ forward_headers with_gateway_headers gh_user_pending !! "host"
     = Some "api.github.com"
  /\ forward_headers with_gateway_headers gh_user_pending !! "authorization"
     = Some "Bearer T".
Proof.
  split; [reflexivity|].
  assert (Hnd : NoDup (fst <$> headers with_gateway_headers)).
  { apply (bool_decide_unpack _). vm_compute. exact I. }
  split; [exact Hnd|].
  pose proof (forward_headers_shaping (platform := whatwg) with_gateway_headers
                gh_user_pending Hnd) as H.
  cbv zeta in H. destruct H as (_ & H1 & H2 & _ & _ & H5 & H6 & _).
  split; [rewrite (H1 "x-clawguard-key" eq_refl); vm_compute; reflexivity|].
  split; [rewrite (H2 "accept" (HString "application/json") eq_refl eq_refl eq_refl);
          reflexivity|].
  split; [rewrite H5; vm_compute; reflexivity|].
  rewrite (H6 eq_refl). vm_compute. reflexivity.
Defined.

(** * Further properties of the code *)

(** ** Security Guard *)

Section GuardFacts.
Context {platform : UrlPlatform}.

Lemma app_assoc_string (a b c : string) : (a ++ b) ++ c = a ++ (b ++ c).
Proof.
  induction a as [|x a IH]; [reflexivity|].
  change (String x ((a ++ b) ++ c) = String x (a ++ (b ++ c))). now f_equal.
Qed.

Lemma validateUpstreamUrl_valid_iff (urlString : string) (security : SecurityConfig) :
  valid (validateUpstreamUrl urlString security) = true
  <-> exists parsed,
        URL_new urlString None = Some parsed
        /\ isAllowedUpstream (hostname parsed) (allowedUpstreams security) = true
        /\ (blockPrivateIPs security = true -> isPrivateIP (hostname parsed) = false)
        /\ (protocol parsed = "http:" \/ protocol parsed = "https:").
Proof.
  unfold validateUpstreamUrl. split.
  - destruct (URL_new urlString None) as [parsed|]; [|discriminate].
    destruct (isAllowedUpstream _ _) eqn:Ha; [|discriminate]. simpl.
    destruct (blockPrivateIPs security && isPrivateIP (hostname parsed)) eqn:Hb;
      [discriminate|].
    simpl. destruct (String.eqb_spec (protocol parsed) "http:") as [Hp|Hp].
    + intros _. exists parsed. repeat split; trivial; [|now left].
      intros Hblock. rewrite Hblock in Hb. exact Hb.
    + destruct (String.eqb_spec (protocol parsed) "https:") as [Hq|Hq]; [|discriminate].
      intros _. exists parsed. repeat split; trivial; [|now right].
      intros Hblock. rewrite Hblock in Hb. exact Hb.
  - intros (parsed & -> & Ha & Hb & Hp). rewrite Ha. simpl.
    destruct (blockPrivateIPs security); simpl.
    + rewrite (Hb eq_refl). simpl.
      destruct Hp as [-> | ->]; reflexivity.
    + destruct Hp as [-> | ->]; reflexivity.
Qed.

Lemma validate_service_passes (security : SecurityConfig) (name : string)
    (service : ServiceConfig) :
  validate_service security (name, service) = None
  <-> valid (validateUpstreamUrl (upstream service) security) = true
      /\ forall parsed hs,
           URL_new (upstream service) None = Some parsed ->
           hostnames service = Some hs ->
           forall h, In h hs ->
                     h = hostname parsed
                     \/ isAllowedUpstream h (allowedUpstreams security) = true.
Proof.
  unfold validate_service.
  destruct (valid (validateUpstreamUrl (upstream service) security)) eqn:Hv;
    simpl negb; cbv iota.
  2:{ split; [discriminate | intros [H _]; discriminate]. }
  apply validateUpstreamUrl_valid_iff in Hv as (parsed & Hp & _).
  rewrite Hp.
  destruct (hostnames service) as [[|h hs]|] eqn:Hh.
  - split; [|reflexivity]. intros _. split; [reflexivity|].
    intros parsed' hs' _ [= <-] h' [].
  - split.
    + destruct (List.find _ (h :: hs)) as [bad|] eqn:Hf; [discriminate|].
      intros _. split; [reflexivity|].
      intros parsed' hs' [= <-] [= <-] h' Hin.
      pose proof (find_none _ _ Hf h' Hin) as Hnone. cbv beta in Hnone.
      apply andb_false_iff in Hnone as [Hn|Hn]; apply negb_false_iff in Hn.
      * left. now apply String.eqb_eq.
      * now right.
    + intros [_ Hall].
      destruct (List.find _ (h :: hs)) as [bad|] eqn:Hf; [|reflexivity].
      apply find_some in Hf as [Hin Hbad].
      apply andb_true_iff in Hbad as [H1 H2].
      apply negb_true_iff in H1, H2.
      destruct (Hall parsed (h :: hs) eq_refl eq_refl bad Hin) as [E|E].
      * apply String.eqb_neq in H1. contradiction.
      * congruence.
  - split; [|reflexivity]. intros _. split; [reflexivity|].
    intros parsed' hs' _ [=].
Qed.

End GuardFacts.

(** X1. The allowlist is closed under subdomains: when a host name
    passes, every name obtained by putting labels in front of it passes
    too. *)
Theorem allowlist_admits_subdomains (hostname sub : string) (allowlist : list string) :
  isAllowedUpstream hostname allowlist = true ->
  isAllowedUpstream (sub ++ "." ++ hostname) allowlist = true.
Proof.
  unfold isAllowedUpstream. destruct allowlist as [|E0 rest]; [reflexivity|].
  change (List.length (E0 :: rest) =? 0)%nat with false. cbv iota.
  rewrite !existsb_allowed. intros (E & HIn & H). exists E. split; [exact HIn|].
  right. destruct H as [->|[pre ->]].
  - now exists sub.
  - exists (sub ++ "." ++ pre). now rewrite !app_assoc_string.
Qed.

Lemma allowlist_admits_subdomains_witness :
  isAllowedUpstream "example.com" ["example.com"] = true
  /\ isAllowedUpstream ("a.b" ++ "." ++ "example.com") ["example.com"] = true.
Proof.
  assert (H : isAllowedUpstream "example.com" ["example.com"] = true) by reflexivity.
  split; [exact H|]. exact (allowlist_admits_subdomains "example.com" "a.b" _ H).
Defined.

(** X2. The runtime check accepts a constructed URL exactly when it and
    the configured upstream both parse, their host names are equal, the
    host name passes the allowlist, is not classified as private when
    private-IP blocking is on, and the protocol is [http:] or [https:]. *)
Theorem validateRuntimeUrl_valid_iff {platform : UrlPlatform}
    (constructedUrl originalUpstream : string) (security : SecurityConfig) :
  valid (validateRuntimeUrl constructedUrl originalUpstream security) = true
  <-> exists constructed original,
        URL_new constructedUrl None = Some constructed
        /\ URL_new originalUpstream None = Some original
        /\ hostname constructed = hostname original
        /\ isAllowedUpstream (hostname constructed) (allowedUpstreams security) = true
        /\ (blockPrivateIPs security = true ->
            isPrivateIP (hostname constructed) = false)
        /\ (protocol constructed = "http:" \/ protocol constructed = "https:").
Proof.
  unfold validateRuntimeUrl. split.
  - destruct (URL_new constructedUrl None) as [c|] eqn:Hc; [|discriminate].
    destruct (URL_new originalUpstream None) as [o|] eqn:Ho; [|discriminate].
    destruct (String.eqb_spec (hostname c) (hostname o)) as [Hh|Hh]; [|discriminate].
    simpl. intros Hv. apply validateUpstreamUrl_valid_iff in Hv as (c' & Hc' & Hrest).
    rewrite Hc in Hc'. injection Hc' as <-. exists c, o. tauto.
  - intros (c & o & Hc & Ho & Hh & Hrest). rewrite Hc, Ho, Hh, String.eqb_refl. simpl.
    apply validateUpstreamUrl_valid_iff. exists c. tauto.
Qed.

(** X3. [validateAllUpstreams] returns, rather than ending the process,
    exactly when every configured service has an upstream URL that
    passes [validateUpstreamUrl] and each of its intercept host names is
    the upstream's host name or passes the allowlist. *)
Theorem validateAllUpstreams_returns_iff {platform : UrlPlatform} (config : Config) :
  validateAllUpstreams config = None
  <-> forall name service,
        In (name, service) (services config) ->
        valid (validateUpstreamUrl (upstream service) (security config)) = true
        /\ forall parsed hs,
             URL_new (upstream service) None = Some parsed ->
             hostnames service = Some hs ->
             forall h, In h hs ->
                       h = hostname parsed
                       \/ isAllowedUpstream h (allowedUpstreams (security config)) = true.
Proof.
  unfold validateAllUpstreams. generalize (security config) as security.
  intros security. induction (services config) as [|[name service] rest IH];
    cbn [validate_services].
  - split; [intros _ ? ? [] | reflexivity].
  - destruct (validate_service security (name, service)) as [v|] eqn:Hs.
    + split; [discriminate|]. intros Hall.
      pose proof (proj2 (validate_service_passes security name service)
                    (Hall name service (or_introl eq_refl))) as Hnone.
      congruence.
    + rewrite IH. apply validate_service_passes in Hs. split.
      * intros Hrest n sv [[= <- <-]|Hin]; [exact Hs | exact (Hrest n sv Hin)].
      * intros Hall n sv Hin. apply (Hall n sv). now right.
Qed.

(** ** Proxy Engine: identity, routing and the guard *)

Section ProxyFacts.
Context {platform : UrlPlatform}.

Lemma is_string_iff (v : HeaderValue) (s : string) :
  is_string v s = true <-> v = HString s.
Proof.
  split; [apply is_string_true|]. intros ->. simpl. apply String.eqb_refl.
Qed.

Lemma agentKey_accepted (req : Request) (key : string) :
  is_string (agentKey req) key = true
  <-> (req_header req "x-clawguard-key" = HString key /\ key <> "")
      \/ ((req_header req "x-clawguard-key" = HUndefined
           \/ req_header req "x-clawguard-key" = HString "")
          /\ req_header req "x-agentgate-key" = HString key).
Proof.
  rewrite is_string_iff. unfold agentKey, or_header.
  destruct (req_header req "x-clawguard-key") as [t|l|].
  - destruct (String.eqb_spec t "") as [->|Ht].
    + split; [intros H; right; split; [now right | exact H]|].
      intros [[[= <-] Hk]|[_ H]]; [contradiction | exact H].
    + split; [intros [= ->]; left; now split|].
      intros [[H _]|[[H|[= H]] _]]; [exact H | discriminate | contradiction].
  - split; [discriminate|]. intros [[H _]|[[H|H] _]]; discriminate.
  - split; [intros H; right; split; [now left | exact H]|].
    intros [[H _]|[_ H]]; [discriminate | exact H].
Qed.

(** What [handleProxy] has established when it reaches the approval
    check. *)
Lemma handleProxy_reaches (config : Config) (req : Request) (w : World) (p : Pending) :
  fst (handleProxy config req w) = AwaitingApproval p ->
  snd (handleProxy config req w) = w
  /\ startsWith (params_service req) "__" = false
  /\ serviceName p = params_service req
  /\ get (serviceName p) (services config) = Some (serviceConfig p)
  /\ is_string (agentKey req) (server_agentKey config) = true
  /\ upstreamPath p
     = or_else (substring_from (String.length ("/" ++ params_service req))
                  (originalUrl req)) "/"
  /\ URL_new (upstreamPath p) (Some (upstream (serviceConfig p))) = Some (upstreamUrl p)
  /\ valid (validateRuntimeUrl (toString (upstreamUrl p)) (upstream (serviceConfig p))
              (security config)) = true.
Proof.
  unfold handleProxy.
  destruct (startsWith (params_service req) "__") eqn:Hp; [discriminate|].
  destruct (get (params_service req) (services config)) as [sc|] eqn:Hsc.
  2:{ destruct (inherited (params_service req)); [|discriminate].
      destruct (is_string (agentKey req) (server_agentKey config)); [|discriminate].
      simpl negb. cbv iota.
      destruct (URL_new _ None) as [u|]; [|discriminate].
      destruct (valid (validateRuntimeUrl (toString u) "undefined" (security config)));
        discriminate. }
  destruct (is_string (agentKey req) (server_agentKey config)) eqn:Hk; [|discriminate].
  simpl negb. cbv iota.
  destruct (URL_new _ (Some (upstream sc))) as [u|] eqn:Hu; [|discriminate].
  destruct (valid (validateRuntimeUrl (toString u) (upstream sc) (security config)))
    eqn:Hv; [|discriminate].
  simpl. intros [= <-]. simpl. repeat split; trivial.
Qed.

Lemma handleHostProxy_reaches (config : Config) (req : Request) (w : World)
    (p : Pending) :
  fst (handleHostProxy config req w) = AwaitingApproval p ->
  snd (handleHostProxy config req w) = w
  /\ resolveServiceByHost (req_header req "host") (services config)
     = Some (serviceName p, serviceConfig p)
  /\ is_string (agentKey req) (server_agentKey config) = true
  /\ upstreamPath p = or_else (originalUrl req) "/"
  /\ URL_new (upstreamPath p) (Some (upstream (serviceConfig p))) = Some (upstreamUrl p)
  /\ valid (validateRuntimeUrl (toString (upstreamUrl p)) (upstream (serviceConfig p))
              (security config)) = true.
Proof.
  unfold handleHostProxy.
  destruct (resolveServiceByHost _ _) as [[name sc]|] eqn:Hsc; [|discriminate].
  destruct (is_string (agentKey req) (server_agentKey config)) eqn:Hk; [|discriminate].
  simpl negb. cbv iota.
  destruct (URL_new _ (Some (upstream sc))) as [u|] eqn:Hu; [|discriminate].
  destruct (valid (validateRuntimeUrl (toString u) (upstream sc) (security config)))
    eqn:Hv; [|discriminate].
  simpl. intros [= <-]. simpl. repeat split; trivial.
Qed.

(** A URL accepted by the runtime check has the host name of the
    upstream. *)
Lemma runtime_valid_pins_host (constructedUrl originalUpstream : string)
    (security : SecurityConfig) :
  valid (validateRuntimeUrl constructedUrl originalUpstream security) = true ->
  exists constructed original,
    URL_new constructedUrl None = Some constructed
    /\ URL_new originalUpstream None = Some original
    /\ hostname constructed = hostname original.
Proof.
  unfold validateRuntimeUrl.
  destruct (URL_new constructedUrl None) as [c|]; [|discriminate].
  destruct (URL_new originalUpstream None) as [o|]; [|discriminate].
  destruct (String.eqb_spec (hostname c) (hostname o)) as [Hh|Hh]; [|discriminate].
  intros _. now exists c, o.
Qed.

Lemma before_first_app (c : ascii) (h rest : string) :
  before_first c h = h -> before_first c (h ++ String c rest) = h.
Proof.
  induction h as [|d h IH]; simpl.
  - intros _. change (before_first c (String c rest) = ""). simpl.
    now rewrite Ascii.eqb_refl.
  - change (String d h ++ String c rest) with (String d (h ++ String c rest)).
    simpl. destruct (Ascii.eqb d c); [discriminate|].
    intros [= H]. now rewrite (IH H).
Qed.

Lemma find_host_sound (hostname : string) (services : list (string * ServiceConfig))
    (name : string) (sc : ServiceConfig) :
  List.find (fun entry : string * ServiceConfig =>
               match hostnames (snd entry) with
               | Some hs => existsb (fun h' => String.eqb h' hostname) hs
               | None => false
               end) services = Some (name, sc) ->
  In (name, sc) services
  /\ exists hs, hostnames sc = Some hs /\ In hostname hs.
Proof.
  intros Hf. apply find_some in Hf as [Hin Hm]. split; [exact Hin|]. simpl in Hm.
  destruct (hostnames sc) as [hs|]; [|discriminate]. exists hs. split; [reflexivity|].
  apply existsb_exists in Hm as (h' & Hh & E). apply String.eqb_eq in E. now subst.
Qed.

End ProxyFacts.

(** X4. Both handlers accept the agent secret exactly when the canonical
    header is the non-empty configured key, or the canonical header is
    absent or empty and the legacy alias is the configured key: for a
    request whose service or host resolves, the answer is the 401 of the
    identity check if and only if that fails.  In particular a wrong
    canonical header is refused even when the alias carries the key. *)
Theorem identity_check_iff {platform : UrlPlatform}
    (config : Config) (req : Request) (w : World) :
  let key := server_agentKey config in
  let accepted :=
    (req_header req "x-clawguard-key" = HString key /\ key <> "")
    \/ ((req_header req "x-clawguard-key" = HUndefined
         \/ req_header req "x-clawguard-key" = HString "")
        /\ req_header req "x-agentgate-key" = HString key) in
  (startsWith (params_service req) "__" = false ->
   is_Some (get (params_service req) (services config)) ->
   (answers_401 (handleProxy config req) w <-> ~ accepted))
  /\ (is_Some (resolveServiceByHost (req_header req "host") (services config)) ->
      (answers_401 (handleHostProxy config req) w <-> ~ accepted)).
Proof.
  intros key accepted.
  assert (Hacc : is_string (agentKey req) (server_agentKey config) = true <-> accepted)
    by apply agentKey_accepted.
  split.
  - intros Hp [sc Hsc]. split.
    + intros H401 Ha. apply Hacc in Ha. unfold answers_401, handleProxy in H401.
      rewrite Hp, Hsc, Ha in H401. simpl negb in H401. cbv iota in H401.
      destruct (URL_new _ (Some (upstream sc))) as [u|]; [|discriminate].
      destruct (valid _) in H401; [discriminate|].
      apply (f_equal (fun r => trace (snd r))) in H401. simpl in H401.
      rewrite <- app_assoc in H401. apply app_inv_head in H401. discriminate.
    + intros Hn. apply handleProxy_bad_key; [exact Hp | now exists sc |].
      destruct (is_string (agentKey req) (server_agentKey config)) eqn:E; [|reflexivity].
      destruct Hn. now apply Hacc.
  - intros [[name sc] Hsc]. split.
    + intros H401 Ha. apply Hacc in Ha. unfold answers_401, handleHostProxy in H401.
      rewrite Hsc, Ha in H401. simpl negb in H401. cbv iota in H401.
      destruct (URL_new _ (Some (upstream sc))) as [u|]; [|discriminate].
      destruct (valid _) in H401; [discriminate|].
      apply (f_equal (fun r => trace (snd r))) in H401. simpl in H401.
      apply app_inv_head in H401. discriminate.
    + intros Hn. apply handleHostProxy_bad_key; [now exists (name, sc)|].
      destruct (is_string (agentKey req) (server_agentKey config)) eqn:E; [|reflexivity].
      destruct Hn. now apply Hacc.
Qed.

Lemma identity_check_iff_witness :
  let req :=
    request "GET" "/gh/user" "gh"
      [("x-clawguard-key", HString "wrong"); ("x-agentgate-key", HString "K")] in
  startsWith (params_service req) "__" = false
  /\ is_Some (get (params_service req) (services gh_config))
  /\ answers_401 (platform := whatwg) (handleProxy gh_config req) (empty_world 1000).
Proof.
  intros req.
  assert (H1 : startsWith (params_service req) "__" = false) by reflexivity.
  assert (H2 : is_Some (get (params_service req) (services gh_config))).
  { vm_compute. eexists. reflexivity. }
  split; [exact H1|]. split; [exact H2|].
  apply (proj2 (proj1 (identity_check_iff (platform := whatwg) gh_config req
                         (empty_world 1000)) H1 H2)).
  intros [[H _]|[[H|H] _]]; discriminate.
Defined.

(** X5. A request reaches the approval check, in either routing mode,
    only if its service resolved to an entry of the service table, its
    agent secret was accepted and the constructed upstream URL passed the
    runtime check, so that the URL has the host name of the configured
    upstream; up to that point the handler that reached the check has
    written nothing and answered nothing. *)
Theorem approval_check_is_guarded {platform : UrlPlatform}
    (handler : Config -> Request -> M Suspended)
    (config : Config) (req : Request) (w : World) (p : Pending) :
  handler = handleProxy \/ handler = handleHostProxy ->
  fst (handler config req w) = AwaitingApproval p ->
  handler config req w = (AwaitingApproval p, w)
  /\ In (serviceName p, serviceConfig p) (services config)
  /\ is_string (agentKey req) (server_agentKey config) = true
  /\ URL_new (upstreamPath p) (Some (upstream (serviceConfig p))) = Some (upstreamUrl p)
  /\ valid (validateRuntimeUrl (toString (upstreamUrl p)) (upstream (serviceConfig p))
              (security config)) = true
  /\ exists constructed original,
       URL_new (toString (upstreamUrl p)) None = Some constructed
       /\ URL_new (upstream (serviceConfig p)) None = Some original
       /\ hostname constructed = hostname original.
Proof.
  intros [->| ->] H.
  - pose proof H as H0.
    apply handleProxy_reaches in H as (Hw & _ & Hn & Hg & Hk & _ & Hu & Hv).
    split.
    { destruct (handleProxy config req w) as [s0 w0]. simpl in H0, Hw. now subst. }
    split.
    + clear Hu Hv. revert Hg. generalize (serviceName p) as n.
      induction (services config) as [|[k v] rest IH]; intros n; simpl; [discriminate|].
      destruct (String.eqb_spec k n) as [->|Hne].
      * intros [= ->]. now left.
      * intros Hg. right. now apply IH.
    + repeat split; trivial. now apply (runtime_valid_pins_host _ _ (security config)).
  - pose proof H as H0.
    apply handleHostProxy_reaches in H as (Hw & Hr & Hk & _ & Hu & Hv).
    split.
    { destruct (handleHostProxy config req w) as [s0 w0]. simpl in H0, Hw. now subst. }
    split.
    + unfold resolveServiceByHost in Hr.
      destruct (req_header req "host") as [h| |]; try discriminate.
      destruct (String.eqb h ""); [discriminate|].
      now apply find_host_sound in Hr as [Hin _].
    + repeat split; trivial. now apply (runtime_valid_pins_host _ _ (security config)).
Qed.

Lemma approval_check_is_guarded_witness :
  fst (handleProxy (platform := whatwg) gh_config with_dummy_token (empty_world 1000))
  = AwaitingApproval gh_user_pending
  /\ handleProxy (platform := whatwg) gh_config with_dummy_token (empty_world 1000)
     = (AwaitingApproval gh_user_pending, empty_world 1000).
Proof.
  assert (H : fst (handleProxy (platform := whatwg) gh_config with_dummy_token
                     (empty_world 1000)) = AwaitingApproval gh_user_pending)
    by reflexivity.
  split; [exact H|].
  exact (proj1 (approval_check_is_guarded (platform := whatwg) handleProxy gh_config
                  with_dummy_token (empty_world 1000) gh_user_pending
                  (or_introl eq_refl) H)).
Defined.

Import Admin.

Section RouteFacts.
Context {platform : UrlPlatform}.

Lemma app_empty_string (s : string) : s ++ "" = s.
Proof.
  induction s as [|d s IH]; [reflexivity|].
  change (String d (s ++ "") = String d s). now f_equal.
Qed.

Lemma includes_append (c : ascii) (s t : string) :
  includes c (s ++ t) = includes c s || includes c t.
Proof.
  induction s as [|d s IH]; [reflexivity|].
  change (String d s ++ t) with (String d (s ++ t)). simpl.
  rewrite IH. apply orb_assoc.
Qed.


Lemma before_first_unchanged (c : ascii) (s : string) :
  includes c s = false -> before_first c s = s.
Proof.
  induction s as [|d s IH]; [reflexivity|].
  cbn [includes before_first]. destruct (Ascii.eqb d c); [discriminate|].
  simpl orb. intros H. now rewrite (IH H).
Qed.




End RouteFacts.



(** X7. Host-header resolution ignores the port of the Host header, and
    answers with a configured service that lists the host name; it finds
    nothing for an absent or empty Host header. *)
Theorem resolveServiceByHost_spec (services : list (string * ServiceConfig)) :
  (forall h port,
      h <> "" -> before_first ":" h = h ->
      resolveServiceByHost (HString (h ++ ":" ++ port)) services
      = resolveServiceByHost (HString h) services)
  /\ (forall h name sc,
        resolveServiceByHost (HString h) services = Some (name, sc) ->
        In (name, sc) services
        /\ exists hs, hostnames sc = Some hs /\ In (before_first ":" h) hs)
  /\ resolveServiceByHost HUndefined services = None
  /\ resolveServiceByHost (HString "") services = None.
Proof.
  split; [|split; [|split; reflexivity]].
  - intros h port Hne Hcolon. unfold resolveServiceByHost.
    change (h ++ ":" ++ port) with (h ++ String ":" port).
    rewrite (before_first_app ":" h port Hcolon), Hcolon.
    destruct h as [|c h]; [contradiction|]. reflexivity.
  - intros h name sc. unfold resolveServiceByHost.
    destruct (String.eqb h ""); [discriminate|]. apply find_host_sound.
Qed.

Lemma resolveServiceByHost_spec_witness :
  "api.github.com" <> "" /\ before_first ":" "api.github.com" = "api.github.com"
  /\ resolveServiceByHost (HString ("api.github.com" ++ ":" ++ "443")) (services gh_config)
     = resolveServiceByHost (HString "api.github.com") (services gh_config).
Proof.
  assert (H1 : "api.github.com" <> "") by discriminate.
  assert (H2 : before_first ":" "api.github.com" = "api.github.com") by reflexivity.
  split; [exact H1|]. split; [exact H2|].
  exact (proj1 (resolveServiceByHost_spec (services gh_config)) "api.github.com" "443"
           H1 H2).
Defined.

(** ** Approval Coordinator: policy, grants and the race *)

Section PolicyFacts.

Lemma upper_lower_ascii (c : ascii) : upper_ascii (lower_ascii c) = upper_ascii c.
Proof. destruct c as [[] [] [] [] [] [] [] []]; reflexivity. Qed.

Lemma upper_upper_ascii (c : ascii) : upper_ascii (upper_ascii c) = upper_ascii c.
Proof. destruct c as [[] [] [] [] [] [] [] []]; reflexivity. Qed.

Lemma toUpperCase_toLowerCase (s : string) :
  toUpperCase (toLowerCase s) = toUpperCase s.
Proof.
  induction s as [|c s IH]; simpl; [reflexivity|].
  now rewrite upper_lower_ascii, IH.
Qed.

Lemma toUpperCase_idem (s : string) : toUpperCase (toUpperCase s) = toUpperCase s.
Proof.
  induction s as [|c s IH]; simpl; [reflexivity|].
  now rewrite upper_upper_ascii, IH.
Qed.

Lemma matchesRule_case (rule : PolicyRule) (m1 m2 path : string) :
  toUpperCase m1 = toUpperCase m2 ->
  matchesRule rule m1 path = matchesRule rule m2 path.
Proof. intros H. unfold matchesRule. now rewrite H. Qed.

Lemma getAction_case (sc : ServiceConfig) (m1 m2 path : string) :
  toUpperCase m1 = toUpperCase m2 ->
  getAction sc m1 path = getAction sc m2 path.
Proof.
  intros H. unfold getAction. destruct (rules (policy sc)) as [rs|]; [|reflexivity].
  induction rs as [|r rs IH]; simpl; [reflexivity|].
  rewrite (matchesRule_case r m1 m2 path H).
  destruct (matchesRule r m2 path); [reflexivity | exact IH].
Qed.

Lemma find_first {A : Type} (f : A -> bool) (pre post : list A) (x : A) :
  Forall (fun y => f y = false) pre -> f x = true ->
  List.find f (pre ++ x :: post) = Some x.
Proof.
  induction 1 as [|y pre Hy _ IH]; simpl; intros Hx.
  - now rewrite Hx.
  - rewrite Hy. now apply IH.
Qed.

End PolicyFacts.

(** X8. Policy evaluation: the first rule that matches decides, whatever
    the rules after it; when no rule matches, or there are no rules, the
    service default decides; a rule with neither method nor path matches
    every request; and the method is compared without regard to case. *)
Theorem getAction_first_match (sc : ServiceConfig) (method path : string) :
  (forall (pre : list PolicyRule) r post,
      rules (policy sc) = Some (pre ++ r :: post)%list ->
      no_rule_matches pre method path ->
      matchesRule r method path = true ->
      getAction sc method path = action r)
  /\ (forall rs, rules (policy sc) = Some rs -> no_rule_matches rs method path ->
                 getAction sc method path = default (policy sc))
  /\ (rules (policy sc) = None -> getAction sc method path = default (policy sc))
  /\ (forall r, truthy (match_method r) = None -> truthy (match_path r) = None ->
                matchesRule r method path = true)
  /\ getAction sc (toLowerCase method) path = getAction sc method path
  /\ getAction sc (toUpperCase method) path = getAction sc method path.
Proof.
  split; [|split; [|split; [|split; [|split]]]].
  - intros pre r post Hr Hpre Hm. unfold getAction. rewrite Hr.
    now rewrite (find_first _ pre post r Hpre Hm).
  - intros rs Hr Hnone. unfold getAction. rewrite Hr.
    rewrite find_absent; [reflexivity|].
    intros r Hin. unfold no_rule_matches in Hnone. rewrite Forall_forall in Hnone.
    apply Hnone. now apply list_elem_of_In.
  - intros Hr. unfold getAction. now rewrite Hr.
  - intros r Hm Hp. unfold matchesRule. now rewrite Hm, Hp.
  - apply getAction_case, toUpperCase_toLowerCase.
  - apply getAction_case, toUpperCase_idem.
Qed.

Lemma getAction_first_match_witness :
  let get_rule := {| match_method := Some "get"; match_path := None;
                     action := auto_approve |} in
  let sc := {| upstream := "https://api.github.com";
               auth := {| auth_type := bearer; token := "T"; headerName := None;
                          paramName := None |};
               policy := {| default := require_approval;
                            rules := Some ([] ++ get_rule :: [])%list |};
               hostnames := None |} in
  no_rule_matches [] "GET" "/user"
  /\ matchesRule get_rule "GET" "/user" = true
  /\ getAction sc "GET" "/user" = auto_approve.
Proof.
  intros get_rule sc.
  assert (H1 : no_rule_matches [] "GET" "/user") by constructor.
  assert (H2 : matchesRule get_rule "GET" "/user" = true) by reflexivity.
  split; [exact H1|]. split; [exact H2|].
  exact (proj1 (getAction_first_match sc "GET" "/user") [] get_rule [] eq_refl H1 H2).
Defined.

Section GrantFacts.

Lemma hasActiveApproval_run (w : World) (s : string) :
  hasActiveApproval s w
  = match activeApprovals w !! s with
    | None => (false, w)
    | Some a =>
        if expiresAt a <? clock w
        then (false, snd (activeApprovals_delete s w))
        else (true, w)
    end.
Proof.
  unfold hasActiveApproval, mbind, M_bind, gets. simpl.
  destruct (activeApprovals w !! s) as [a|]; [|reflexivity].
  unfold Date_now, gets. simpl. now destruct (expiresAt a <? clock w).
Qed.

(** [checkApproval] when the policy asks for an approval and there is
    no live grant: it is refused at once when the bot is not paired, and
    suspended on a fresh request id after the prompt otherwise. *)
Lemma checkApproval_no_grant (config : TelegramConfig) (s : string)
    (sc : ServiceConfig) (method path agentIp : string) (w : World) :
  getAction sc method path = require_approval ->
  fst (hasActiveApproval s w) = false ->
  let w0 := snd (hasActiveApproval s w) in
  let k := "req_" ++ pretty (clock w) ++ "_" ++ pretty (requestCounter w + 1) in
  let res := checkApproval config s sc method path agentIp w in
  activeApprovals (snd res) = activeApprovals w0
  /\ approvals (snd res) = approvals w
  /\ requests (snd res) = requests w
  /\ if pairing_enabled config && negb (paired w)
     then fst res = inl false
          /\ pendingCallbacks (snd res) = pendingCallbacks w
          /\ trace (snd res)
             = (trace w0 ++ [ReplyChannelInvoked k
                               {| d_approved := false; d_ttlSeconds := 0;
                                  d_approvedBy := "unpaired" |}])%list
     else fst res = inr k
          /\ pendingCallbacks (snd res) = <[k := k]> (pendingCallbacks w)
          /\ awaiting (snd res) !! k = Some None
          /\ trace (snd res) = (trace w0 ++ [PromptSent k])%list.
Proof.
  intros Hact Hno w0 k res.
  assert (Hh : hasActiveApproval s w = (false, w0)).
  { unfold w0. destruct (hasActiveApproval s w) as [b x]. simpl in Hno. now subst. }
  assert (Hsame : clock w0 = clock w /\ requestCounter w0 = requestCounter w
                  /\ paired w0 = paired w /\ approvals w0 = approvals w
                  /\ requests w0 = requests w
                  /\ pendingCallbacks w0 = pendingCallbacks w).
  { clearbody w0. rewrite hasActiveApproval_run in Hh.
    destruct (activeApprovals w !! s) as [a|]; [|injection Hh as <-; tauto].
    destruct (expiresAt a <? clock w); [injection Hh as <-; simpl; tauto | discriminate]. }
  destruct Hsame as (Hc & Hr & Hp & Ha & Hq & Hpc).
  unfold res, k. clear res k. clearbody w0.
  remember (checkApproval config s sc method path agentIp w) as r eqn:Er.
  unfold checkApproval in Er. rewrite Hact in Er.
  unfold mbind at 1, M_bind at 1 in Er. rewrite Hh in Er. cbv iota in Er.
  rewrite <- Hc, <- Hr, <- Hp, <- Ha, <- Hq, <- Hpc.
  unfold requestApproval, generateRequestId, TelegramNotifier.resolve,
    checkApproval_settled, set_awaiting, set_requestCounter, set_pendingCallbacks,
    set_pendingTexts, emit, modify, Date_now, gets, mbind, M_bind, mret, M_ret in Er.
  cbn [fst snd clock requests approvals next_approval_id telegram_paired_users
       activeApprovals requestCounter awaiting pendingCallbacks pendingTexts paired
       trace] in Er.
  destruct (pairing_enabled config && negb (paired w0));
    cbn [fst snd clock requests approvals next_approval_id telegram_paired_users
         activeApprovals requestCounter awaiting pendingCallbacks pendingTexts paired
         trace d_approved] in Er;
    subst r;
    cbn [fst snd clock requests approvals next_approval_id telegram_paired_users
         activeApprovals requestCounter awaiting pendingCallbacks pendingTexts paired
         trace];
    repeat split; try reflexivity.
  apply lookup_insert_eq.
Qed.

End GrantFacts.

(** X9. [hasActiveApproval] answers [true] exactly when the map holds a
    grant of the service whose expiry is not before now (a grant is still
    live at the very instant it expires), and then changes nothing; when
    it finds a stale grant it drops it from the map; it never touches
    the tables. *)
Theorem hasActiveApproval_spec (w : World) (s : string) :
  let b := fst (hasActiveApproval s w) in
  let w' := snd (hasActiveApproval s w) in
  (b = true <-> exists a, activeApprovals w !! s = Some a /\ clock w <= expiresAt a)
  /\ (b = true -> w' = w)
  /\ (b = false -> activeApprovals w' = delete s (activeApprovals w))
  /\ approvals w' = approvals w /\ requests w' = requests w.
Proof.
  cbv zeta. rewrite hasActiveApproval_run.
  destruct (activeApprovals w !! s) as [a|] eqn:Ha.
  - destruct (Z.ltb_spec (expiresAt a) (clock w)) as [Hlt|Hge]; simpl.
    + repeat split; try discriminate; trivial.
      intros (a' & [= <-] & Hle). lia.
    + repeat split; try discriminate; trivial. intros _. now exists a.
  - simpl. repeat split; try discriminate; trivial.
    + intros (a' & [=] & _).
    + intros _. symmetry. now apply delete_id.
Qed.



Section RaceFacts.

Lemma resolve_run (k : string) (d : ApprovalResult) (w : World) :
  let w' := snd (TelegramNotifier.resolve k d w) in
  awaiting w' = match awaiting w !! k with
                | Some None => <[k := Some d]> (awaiting w)
                | _ => awaiting w
                end
  /\ trace w' = (trace w ++ [ReplyChannelInvoked k d])%list
  /\ activeApprovals w' = activeApprovals w /\ approvals w' = approvals w
  /\ requests w' = requests w /\ pendingCallbacks w' = pendingCallbacks w
  /\ pendingTexts w' = pendingTexts w /\ clock w' = clock w
  /\ next_approval_id w' = next_approval_id w /\ paired w' = paired w
  /\ telegram_paired_users w' = telegram_paired_users w.
Proof. cbv zeta. unfold TelegramNotifier.resolve, mbind, M_bind. simpl. tauto. Qed.

Lemma checkApproval_resume_run (s k : string) (d : ApprovalResult) (w : World) :
  awaiting w !! k = Some (Some d) ->
  checkApproval_resume s k w
  = (Some (fst (checkApproval_settled s d w)), snd (checkApproval_settled s d w)).
Proof.
  intros H. unfold checkApproval_resume, mbind at 1, M_bind at 1, gets. rewrite H.
  unfold mbind, M_bind. now destruct (checkApproval_settled s d w).
Qed.

Lemma checkApproval_settled_denied (s : string) (d : ApprovalResult) (w : World) :
  d_approved d = false -> checkApproval_settled s d w = (false, w).
Proof. intros H. unfold checkApproval_settled. now rewrite H. Qed.

End RaceFacts.

(** X11. The wait of [checkApproval] settles on the first resolution and
    no later one changes it: whichever of the approver's reply and the
    timer comes second, the continuation sees the result of the one that
    came first; a timer that comes first makes [checkApproval] answer
    [false] and leaves the grants and the tables as they were. *)
Theorem race_settles_on_first (w : World) (s k : string) (d1 d2 : ApprovalResult) :
  awaiting w !! k = Some None ->
  let w1 := snd (TelegramNotifier.resolve k d1 w) in
  let w2 := snd (TelegramNotifier.resolve k d2 w1) in
  awaiting w1 !! k = Some (Some d1)
  /\ awaiting w2 = awaiting w1
  /\ fst (checkApproval_resume s k w2) = Some (d_approved d1)
  /\ (let w3 := snd (on_timeout k w) in
      checkApproval_resume s k w3 = (Some false, w3)
      /\ activeApprovals w3 = activeApprovals w /\ approvals w3 = approvals w).
Proof.
  intros Hk w1 w2.
  destruct (resolve_run k d1 w) as (Ha1 & _). fold w1 in Ha1.
  destruct (resolve_run k d2 w1) as (Ha2 & _). fold w2 in Ha2.
  rewrite Hk in Ha1.
  assert (H1 : awaiting w1 !! k = Some (Some d1)).
  { rewrite Ha1. apply lookup_insert_eq. }
  rewrite H1 in Ha2.
  split; [exact H1|]. split; [exact Ha2|]. split.
  - rewrite (checkApproval_resume_run s k d1); [|now rewrite Ha2].
    simpl. unfold checkApproval_settled.
    destruct (d_approved d1); [|reflexivity].
    unfold mbind, M_bind. simpl. reflexivity.
  - intros w3.
    assert (E3 : w3 = snd (TelegramNotifier.resolve k timed_out w)) by reflexivity.
    destruct (resolve_run k timed_out w) as (Ha3 & _ & Hm & Hr & _).
    rewrite <- E3 in Ha3, Hm, Hr. clearbody w3. rewrite Hk in Ha3.
    split; [|split; assumption].
    rewrite (checkApproval_resume_run s k timed_out).
    + now rewrite checkApproval_settled_denied.
    + rewrite Ha3. apply lookup_insert_eq.
Qed.

Lemma race_settles_on_first_witness :
  awaiting prompted !! "req_1000_1" = Some None
  /\ fst (checkApproval_resume "gh" "req_1000_1"
            (snd (TelegramNotifier.resolve "req_1000_1" timed_out
                    (snd (TelegramNotifier.resolve "req_1000_1" (one_hour "ann")
                            prompted)))))
     = Some (d_approved (one_hour "ann")).
Proof.
  assert (H : awaiting prompted !! "req_1000_1" = Some None) by (vm_compute; reflexivity).
  split; [exact H|].
  exact (proj1 (proj2 (proj2 (race_settles_on_first prompted "gh" "req_1000_1"
                                (one_hour "ann") timed_out H)))).
Defined.

Section RevokeAllFacts.

Lemma for_each_delete (l : list string) (w : World) :
  let w' := snd (for_each l activeApprovals_delete w) in
  activeApprovals w' = foldl (fun m k => delete k m) (activeApprovals w) l
  /\ approvals w' = approvals w /\ clock w' = clock w /\ requests w' = requests w
  /\ next_approval_id w' = next_approval_id w.
Proof.
  revert w. induction l as [|k l IH]; intros w; simpl; [tauto|].
  unfold mbind, M_bind. simpl.
  match goal with |- context [for_each l activeApprovals_delete ?w1] =>
    destruct (IH w1) as (H1 & H2 & H3 & H4 & H5) end.
  simpl in *. rewrite H1, H2, H3, H4, H5. tauto.
Qed.

Lemma for_each_revoke (l : list string) (w : World) :
  let w' := snd (for_each l revokeApprovalInDb w) in
  approvals w' = foldl (fun rows s => List.map (mark_revoked s) rows) (approvals w) l
  /\ activeApprovals w' = activeApprovals w /\ clock w' = clock w
  /\ requests w' = requests w /\ next_approval_id w' = next_approval_id w.
Proof.
  revert w. induction l as [|k l IH]; intros w; simpl; [tauto|].
  unfold mbind, M_bind. simpl.
  match goal with |- context [for_each l revokeApprovalInDb ?w1] =>
    destruct (IH w1) as (H1 & H2 & H3 & H4 & H5) end.
  simpl in *. rewrite H1, H2, H3, H4, H5. tauto.
Qed.

Lemma foldl_delete_lookup (l : list string) (m : gmap string Approval) (k : string) :
  foldl (fun m k => delete k m) m l !! k = if decide (k ∈ l) then None else m !! k.
Proof.
  revert m. induction l as [|x l IH]; intros m; cbn [foldl].
  - rewrite decide_False; [reflexivity | apply not_elem_of_nil].
  - rewrite IH. destruct (decide (k ∈ l)) as [Hin|Hnin].
    + rewrite decide_True; [reflexivity | now right].
    + destruct (decide (x = k)) as [->|Hne].
      * rewrite decide_True by now left. apply lookup_delete_eq.
      * rewrite decide_False.
        -- now apply lookup_delete_ne.
        -- rewrite elem_of_cons. intros [E|E]; [congruence | contradiction].
Qed.

Lemma mark_revoked_idem (s t : string) (r : ApprovalRow) :
  row_service r = s -> mark_revoked t (mark_revoked s r) = mark_revoked s r.
Proof.
  intros <-. unfold mark_revoked. rewrite String.eqb_refl. simpl.
  destruct (revoked r) eqn:E; simpl.
  - now rewrite E, andb_false_r.
  - now rewrite andb_false_r.
Qed.

Lemma mark_revoked_other (s : string) (r : ApprovalRow) :
  row_service r <> s -> mark_revoked s r = r.
Proof.
  intros H. unfold mark_revoked.
  destruct (String.eqb_spec (row_service r) s); [contradiction | reflexivity].
Qed.

Lemma foldl_mark (l : list string) (rows : list ApprovalRow) :
  foldl (fun rows s => List.map (mark_revoked s) rows) rows l
  = List.map (fun r => if decide (row_service r ∈ l)
                       then mark_revoked (row_service r) r else r) rows.
Proof.
  revert rows. induction l as [|s l IH]; intros rows; cbn [foldl].
  - rewrite <- (map_id rows) at 1. apply map_ext. intros r.
    rewrite decide_False; [reflexivity | apply not_elem_of_nil].
  - rewrite IH, map_map. apply map_ext. intros r.
    destruct (String.eqb_spec (row_service r) s) as [E|E].
    + subst s.
      rewrite (decide_True (P := row_service r ∈ row_service r :: l)) by now left.
      rewrite mark_revoked_service.
      destruct (decide (row_service r ∈ l)); [|reflexivity].
      now apply mark_revoked_idem.
    + rewrite (mark_revoked_other s r E).
      destruct (decide (row_service r ∈ l)) as [Hin|Hnin].
      * rewrite decide_True; [reflexivity | now right].
      * rewrite decide_False; [reflexivity|].
        rewrite elem_of_cons. intros [?|?]; [congruence | contradiction].
Qed.

Lemma keys_of_map (m : gmap string Approval) (k : string) :
  k ∈ (map_to_list m).*1 <-> is_Some (m !! k).
Proof.
  rewrite list_elem_of_fmap. split.
  - intros ([k' a] & -> & Hin). apply elem_of_map_to_list in Hin. now exists a.
  - intros [a Ha]. exists (k, a). split; [reflexivity|]. now apply elem_of_map_to_list.
Qed.

End RevokeAllFacts.

(** X12. [revokeAll] answers the number of grants that were in the map,
    leaves the map empty, marks as revoked every row of every service
    that had a grant and leaves the rows of the other services as they
    were; after it no hydration restores a grant for any of those
    services. *)
Theorem revokeAll_spec (w : World) :
  let n := fst (revokeAll w) in
  let w' := snd (revokeAll w) in
  n = size (activeApprovals w)
  /\ activeApprovals w' = ∅
  /\ approvals w'
     = List.map (fun r => if decide (is_Some (activeApprovals w !! row_service r))
                          then mark_revoked (row_service r) r else r)
                (approvals w)
  /\ forall s ms, is_Some (activeApprovals w !! s) ->
                  activeApprovals (snd (restoreApprovals (restart ms w'))) !! s = None.
Proof.
  cbv zeta. unfold revokeAll, mbind, M_bind, gets. simpl.
  set (keys := (map_to_list (activeApprovals w)).*1).
  destruct (for_each_delete keys w) as (Hd & Hda & _).
  set (w1 := snd (for_each keys activeApprovals_delete w)) in *.
  destruct (for_each_revoke keys w1) as (Hr & Hrm & _).
  set (w2 := snd (for_each keys revokeApprovalInDb w1)) in *.
  replace (for_each keys activeApprovals_delete w) with (fst (for_each keys activeApprovals_delete w), w1)
    by (unfold w1; now destruct (for_each keys activeApprovals_delete w)).
  replace (for_each keys revokeApprovalInDb w1) with (fst (for_each keys revokeApprovalInDb w1), w2)
    by (unfold w2; now destruct (for_each keys revokeApprovalInDb w1)).
  simpl.
  assert (Hrows : approvals w2
                  = List.map (fun r => if decide (is_Some (activeApprovals w !! row_service r))
                                       then mark_revoked (row_service r) r else r)
                             (approvals w)).
  { rewrite Hr, Hda, foldl_mark. apply map_ext. intros r.
    destruct (decide (row_service r ∈ keys)) as [Hin|Hnin].
    - rewrite decide_True; [reflexivity | now apply keys_of_map].
    - rewrite decide_False; [reflexivity|]. intros H. apply Hnin. now apply keys_of_map. }
  split; [reflexivity|]. split; [|split; [exact Hrows|]].
  - rewrite Hrm, Hd. apply map_eq. intros k. rewrite foldl_delete_lookup, lookup_empty.
    destruct (decide (k ∈ keys)) as [Hin|Hnin]; [reflexivity|].
    destruct (activeApprovals w !! k) eqn:E; [|reflexivity].
    destruct Hnin. apply keys_of_map. now rewrite E.
  - intros s ms Hs. apply nothing_restored; [reflexivity|].
    simpl approvals. rewrite Hrows. intros r Hin E.
    apply in_map_iff in Hin as (r0 & <- & _).
    destruct (decide (is_Some (activeApprovals w !! row_service r0))) as [Hy|Hn].
    + now apply mark_revoked_revoked.
    + rewrite E in Hn. contradiction.
Qed.

Lemma revokeAll_spec_witness :
  is_Some (activeApprovals two_live_rows !! "gh")
  /\ activeApprovals
       (snd (restoreApprovals (restart 5000 (snd (revokeAll two_live_rows))))) !! "gh"
     = None.
Proof.
  assert (H : is_Some (activeApprovals two_live_rows !! "gh")).
  { vm_compute. eexists. reflexivity. }
  split; [exact H|].
  exact (proj2 (proj2 (proj2 (revokeAll_spec two_live_rows))) "gh" 5000 H).
Defined.

Section ActiveCountFacts.

Lemma M_bind_run {A B : Type} (m : M A) (k : A -> M B) (w : World) :
  (m ≫= k) w = k (fst (m w)) (snd (m w)).
Proof. unfold mbind, M_bind. now destruct (m w). Qed.

Lemma for_each_cons_snd {A : Type} (x : A) (l : list A) (body : A -> M unit)
    (w : World) :
  snd (for_each (x :: l) body w) = snd (for_each l body (snd (body x w))).
Proof. simpl. unfold mbind, M_bind. now destruct (body x w). Qed.

Lemma for_each_expire (l : list (string * Approval)) (w : World) :
  let body := fun entry : string * Approval =>
                now ← Date_now;
                if expiresAt (snd entry) <? now then activeApprovals_delete (fst entry)
                else mret tt in
  let w' := snd (for_each l body w) in
  activeApprovals w'
  = foldl (fun m (e : string * Approval) =>
             if expiresAt (snd e) <? clock w then delete (fst e) m else m)
          (activeApprovals w) l
  /\ approvals w' = approvals w /\ clock w' = clock w /\ requests w' = requests w.
Proof.
  intros body. cbv zeta. revert w. induction l as [|[k a] l IH]; intros w.
  - simpl. tauto.
  - rewrite for_each_cons_snd. set (w1 := snd (body (k, a) w)).
    assert (Hw1 : activeApprovals w1
                  = (if expiresAt a <? clock w then delete k (activeApprovals w)
                     else activeApprovals w)
                  /\ approvals w1 = approvals w /\ clock w1 = clock w
                  /\ requests w1 = requests w).
    { unfold w1, body, mbind, M_bind, Date_now, gets. simpl.
      destruct (expiresAt a <? clock w); simpl; tauto. }
    destruct Hw1 as (E1 & E2 & E3 & E4).
    destruct (IH w1) as (H1 & H2 & H3 & H4).
    rewrite H1, H2, H3, H4, E1, E2, E3, E4. cbn [foldl fst snd]. tauto.
Qed.

Lemma foldl_expire_lookup (now : Z) (l : list (string * Approval))
    (m : gmap string Approval) (k : string) :
  foldl (fun m (e : string * Approval) =>
           if expiresAt (snd e) <? now then delete (fst e) m else m) m l !! k
  = if existsb (fun e : string * Approval =>
                  String.eqb (fst e) k && (expiresAt (snd e) <? now)) l
    then None else m !! k.
Proof.
  revert m. induction l as [|[x a] l IH]; intros m; cbn [foldl existsb fst snd].
  - reflexivity.
  - rewrite IH. destruct (existsb _ l); [now rewrite orb_true_r|].
    rewrite orb_false_r.
    destruct (expiresAt a <? now); [|now rewrite andb_false_r].
    rewrite andb_true_r. destruct (String.eqb_spec x k) as [->|Hne].
    + apply lookup_delete_eq.
    + now apply lookup_delete_ne.
Qed.

End ActiveCountFacts.

(** X13. [getActiveCount] drops from the map the grants whose expiry is
    before now, keeps the others, answers how many are left, and leaves
    the tables alone: the rows of the dropped grants stay until the next
    hydration. *)
Theorem getActiveCount_spec (w : World) :
  let n := fst (getActiveCount w) in
  let w' := snd (getActiveCount w) in
  (forall s a, activeApprovals w' !! s = Some a
               <-> activeApprovals w !! s = Some a /\ clock w <= expiresAt a)
  /\ n = size (activeApprovals w')
  /\ approvals w' = approvals w.
Proof.
  cbv zeta. unfold getActiveCount. rewrite !M_bind_run. unfold gets at 1 2 3 4.
  cbn [fst snd].
  destruct (for_each_expire (map_to_list (activeApprovals w)) w) as (Hm & Ha & _).
  cbv zeta in Hm, Ha. unfold gets. cbn [fst snd].
  split; [|split; [reflexivity | exact Ha]].
  intros s a. rewrite Hm, foldl_expire_lookup.
  destruct (existsb _ _) eqn:Hex.
  - split; [discriminate|]. intros [Hs Hle].
    apply existsb_exists in Hex as ([k a'] & Hin & Hc). simpl in Hc.
    apply andb_true_iff in Hc as [Hk Hlt]. apply String.eqb_eq in Hk. subst k.
    apply list_elem_of_In, elem_of_map_to_list in Hin.
    rewrite Hs in Hin. injection Hin as <-. apply Z.ltb_lt in Hlt. lia.
  - split; [|tauto]. intros Hs. split; [exact Hs|].
    destruct (Z.le_gt_cases (clock w) (expiresAt a)) as [Hle|Hgt]; [exact Hle|].
    assert (Hc : existsb (fun e : string * Approval =>
                            String.eqb (fst e) s && (expiresAt (snd e) <? clock w))
                         (map_to_list (activeApprovals w)) = true).
    { apply existsb_exists. exists (s, a). split.
      - apply list_elem_of_In. now apply elem_of_map_to_list.
      - simpl. rewrite String.eqb_refl. simpl. apply Z.ltb_lt. lia. }
    congruence.
Qed.

Section RestoreFacts.

(** Hydration of a fresh manager restores, for the service of a newest
    live row, that row. *)
Lemma restore_finds_newest (w : World) (r : ApprovalRow) :
  activeApprovals w = ∅ ->
  NoDup (id <$> approvals w) ->
  newest_live (clock w) (approvals w) r ->
  activeApprovals (snd (restoreApprovals w)) !! row_service r = Some (to_approval r).
Proof.
  intros Hempty Hnd (Hr & Hlive & Hmax).
  destruct (restoreApprovals_run w) as (-> & _ & _).
  rewrite dedupe_installed, Hempty, decide_False by apply not_elem_of_empty.
  assert (Hin : forall x,
    In x (select_active (clock w) (delete_expired (clock w) (approvals w)))
    <-> In x (approvals w) /\ live (clock w) x).
  { intros x. rewrite select_active_In, delete_expired_In. unfold live. tauto. }
  destruct (find_present (fun x => String.eqb (row_service x) (row_service r))
              (select_active (clock w) (delete_expired (clock w) (approvals w))) r)
    as [r1 Hf]; [now apply Hin | apply String.eqb_refl|].
  rewrite Hf. do 2 f_equal.
  apply find_newest in Hf as (Hr1 & Hs1 & Hmax1); [|apply select_active_sorted].
  apply String.eqb_eq in Hs1. apply Hin in Hr1 as [Hr1 Hlive1].
  apply (same_id_same_row (approvals w)); trivial.
  apply Z.le_antisymm.
  - now apply Hmax.
  - apply Hmax1; [now apply Hin | apply String.eqb_refl].
Qed.

Lemma for_each_set_next (saved : list Approval) (w : World) :
  next_approval_id (snd (for_each saved activeApprovals_set w)) = next_approval_id w.
Proof.
  revert w. induction saved as [|a l IH]; intros w; [reflexivity|].
  rewrite for_each_cons_snd, IH. reflexivity.
Qed.

Lemma restoreApprovals_next (w : World) :
  next_approval_id (snd (restoreApprovals w)) = next_approval_id w.
Proof.
  unfold restoreApprovals. rewrite M_bind_run, for_each_set_next. reflexivity.
Qed.

End RestoreFacts.

(** X14. [revokeApproval] looks only at the map: for a service without a
    grant in memory it answers [false] and changes nothing, also when the
    table still holds a live, non-revoked row of that service; such a row
    is restored as the service's grant at the next start. *)
Theorem revoke_without_entry_keeps_rows (w : World) (s : string) (r : ApprovalRow)
    (ms : Z) :
  activeApprovals w !! s = None ->
  NoDup (id <$> approvals w) ->
  newest_live (clock w + ms) (approvals w) r ->
  row_service r = s ->
  revokeApproval s w = (false, w)
  /\ activeApprovals (snd (restoreApprovals (restart ms (snd (revokeApproval s w))))) !! s
     = Some (to_approval r).
Proof.
  intros Hnone Hnd Hlive Hs.
  assert (Hrev : revokeApproval s w = (false, w)).
  { unfold revokeApproval, mbind, M_bind, gets. simpl.
    rewrite bool_decide_eq_false_2; [reflexivity|]. rewrite Hnone. now intros [x Hx]. }
  split; [exact Hrev|]. rewrite Hrev. simpl snd. subst s.
  now apply restore_finds_newest.
Qed.

Lemma revoke_without_entry_keeps_rows_witness :
  let w := snd (hasActiveApproval "gh" (advance 1000000 two_live_rows)) in
  let r := {| id := 1; row_timestamp := 0; row_service := "gh"; approved_by := "ann";
              ttl_seconds := 86400; expires_at := 86400000; revoked := false |} in
  activeApprovals w !! "gh" = None
  /\ newest_live (clock w + 5000) (approvals w) r
  /\ activeApprovals (snd (restoreApprovals (restart 5000 (snd (revokeApproval "gh" w)))))
       !! "gh" = Some (to_approval r).
Proof.
  intros w r.
  assert (H1 : activeApprovals w !! "gh" = None) by (vm_compute; reflexivity).
  assert (H2 : NoDup (id <$> approvals w)).
  { apply (bool_decide_unpack _). vm_compute. exact I. }
  assert (H3 : newest_live (clock w + 5000) (approvals w) r).
  { split; [left; reflexivity|]. split; [split; [vm_compute; reflexivity | reflexivity]|].
    intros r' [<-|[<-|[]]] [Hexp _] _; [vm_compute; discriminate|].
    vm_compute in Hexp. discriminate. }
  split; [exact H1|]. split; [exact H3|].
  exact (proj2 (revoke_without_entry_keeps_rows w "gh" r 5000 H1 H2 H3 eq_refl)).
Defined.

Section TableInvariants.

Lemma fresh_ids_same_ids (w w' : World) :
  id <$> approvals w' = id <$> approvals w ->
  next_approval_id w' = next_approval_id w ->
  fresh_ids w -> fresh_ids w'.
Proof.
  intros Hids Hnext [Hnd Hlt]. split; [now rewrite Hids|].
  intros r Hin. rewrite Hnext.
  assert (Hi : id r ∈ (id <$> approvals w)).
  { rewrite <- Hids. apply list_elem_of_fmap. exists r.
    split; [reflexivity | now apply list_elem_of_In]. }
  apply list_elem_of_fmap in Hi as (r0 & -> & Hr0). apply Hlt.
  now apply list_elem_of_In.
Qed.

Lemma ids_of_marked (f : ApprovalRow -> ApprovalRow) (rows : list ApprovalRow) :
  (forall r, id (f r) = id r) -> id <$> List.map f rows = id <$> rows.
Proof.
  intros Hf. induction rows as [|r rows IH]; [reflexivity|].
  cbn [List.map]. rewrite !fmap_cons. now rewrite Hf, IH.
Qed.

Lemma mark_revoked_id (s : string) (r : ApprovalRow) : id (mark_revoked s r) = id r.
Proof. unfold mark_revoked. now destruct (_ && _). Qed.

Lemma fresh_ids_filter (w w' : World) (f : ApprovalRow -> bool) :
  approvals w' = List.filter f (approvals w) ->
  next_approval_id w' = next_approval_id w ->
  fresh_ids w -> fresh_ids w'.
Proof.
  intros Hrows Hnext [Hnd Hlt]. split.
  - rewrite Hrows. clear Hrows Hlt. induction (approvals w) as [|r rows IH];
      [constructor|].
    rewrite fmap_cons in Hnd. apply NoDup_cons in Hnd as [Hr Hnd]. cbn [List.filter].
    destruct (f r); [|now apply IH].
    rewrite fmap_cons. apply NoDup_cons. split; [|now apply IH].
    intros Hc. apply Hr. apply list_elem_of_fmap in Hc as (r0 & E & Hin).
    apply list_elem_of_fmap. exists r0. split; [exact E|].
    apply list_elem_of_In. apply list_elem_of_In in Hin.
    now apply filter_In in Hin as [Hin _].
  - intros r Hin. rewrite Hnext. apply Hlt. rewrite Hrows in Hin.
    now apply filter_In in Hin as [Hin _].
Qed.

Lemma revokeAll_snd (w : World) :
  snd (revokeAll w)
  = snd (for_each ((map_to_list (activeApprovals w)).*1) revokeApprovalInDb
           (snd (for_each ((map_to_list (activeApprovals w)).*1)
                   activeApprovals_delete w))).
Proof.
  unfold revokeAll, mbind, M_bind, gets. simpl.
  destruct (for_each _ activeApprovals_delete w) as [u w1]. simpl.
  now destruct (for_each _ revokeApprovalInDb w1) as [u' w2].
Qed.

Lemma revokeAll_rows (w : World) :
  approvals (snd (revokeAll w))
  = List.map (fun r => if decide (is_Some (activeApprovals w !! row_service r))
                       then mark_revoked (row_service r) r else r)
             (approvals w)
  /\ activeApprovals (snd (revokeAll w)) = ∅.
Proof.
  rewrite revokeAll_snd.
  set (keys := (map_to_list (activeApprovals w)).*1).
  destruct (for_each_delete keys w) as (Hd & Hda & _).
  destruct (for_each_revoke keys (snd (for_each keys activeApprovals_delete w)))
    as (Hr & Hrm & _).
  split.
  - rewrite Hr, Hda, foldl_mark. apply map_ext. intros r.
    destruct (decide (row_service r ∈ keys)) as [Hin|Hnin].
    + rewrite decide_True; [reflexivity | now apply keys_of_map].
    + rewrite decide_False; [reflexivity|]. intros H. apply Hnin. now apply keys_of_map.
  - rewrite Hrm, Hd. apply map_eq. intros k. rewrite foldl_delete_lookup, lookup_empty.
    destruct (decide (k ∈ keys)) as [Hin|Hnin]; [reflexivity|].
    destruct (activeApprovals w !! k) eqn:E; [|reflexivity].
    destruct Hnin. apply keys_of_map. now rewrite E.
Qed.

End TableInvariants.

(** X15. The row ids of the approvals table stay distinct and below the
    next id: this holds for an empty store and is kept by granting or
    refusing an approval, by revoking one grant or all of them, and by
    hydration. *)
Theorem fresh_ids_invariant :
  (forall t, fresh_ids (empty_world t))
  /\ forall w, fresh_ids w ->
       (forall s d, fresh_ids (snd (checkApproval_settled s d w)))
       /\ (forall s, fresh_ids (snd (revokeApproval s w)))
       /\ fresh_ids (snd (revokeAll w))
       /\ fresh_ids (snd (restoreApprovals w)).
Proof.
  split.
  - intros t. split; [constructor | intros r []].
  - intros w Hw. split; [|split; [|split]].
    + intros s d. destruct (d_approved d) eqn:Hd.
      * destruct (checkApproval_settled_run w s d Hd) as (_ & _ & _ & Hrows).
        destruct Hw as [Hnd Hlt]. split.
        -- rewrite Hrows, fmap_app. apply NoDup_app. split; [exact Hnd|]. split.
           ++ intros x Hx Hx'. apply list_elem_of_fmap in Hx as (r0 & -> & Hr0).
              apply list_elem_of_In in Hr0. apply Hlt in Hr0.
              simpl in Hx'. apply list_elem_of_singleton in Hx'. simpl in Hx'. lia.
           ++ simpl. apply NoDup_singleton.
        -- intros r Hin. rewrite Hrows in Hin.
           assert (Hn : next_approval_id (snd (checkApproval_settled s d w))
                        = next_approval_id w + 1).
           { unfold checkApproval_settled. rewrite Hd. reflexivity. }
           rewrite Hn. apply in_app_or in Hin as [Hin|[<-|[]]].
           ++ apply Hlt in Hin. lia.
           ++ simpl. lia.
      * now rewrite checkApproval_settled_denied.
    + intros s. destruct (activeApprovals w !! s) as [a|] eqn:Hs.
      * destruct (revokeApproval_run w s (ex_intro _ a Hs)) as (_ & Hrows & _).
        apply (fresh_ids_same_ids w); [| |exact Hw].
        -- rewrite Hrows. apply ids_of_marked. intros r. apply mark_revoked_id.
        -- unfold revokeApproval, mbind, M_bind, gets. simpl.
           rewrite bool_decide_eq_true_2 by (rewrite Hs; now eexists). reflexivity.
      * unfold revokeApproval, mbind, M_bind, gets. simpl.
        rewrite bool_decide_eq_false_2; [exact Hw|]. rewrite Hs. now intros [x Hx].
    + destruct (revokeAll_rows w) as (Hrows & _).
      apply (fresh_ids_same_ids w); [| |exact Hw].
      * rewrite Hrows. apply ids_of_marked. intros r.
        destruct (decide _); [apply mark_revoked_id | reflexivity].
      * rewrite revokeAll_snd.
        destruct (for_each_revoke ((map_to_list (activeApprovals w)).*1)
                    (snd (for_each ((map_to_list (activeApprovals w)).*1)
                            activeApprovals_delete w))) as (_ & _ & _ & _ & ->).
        now destruct (for_each_delete ((map_to_list (activeApprovals w)).*1) w)
          as (_ & _ & _ & _ & ->).
    + destruct (restoreApprovals_run w) as (_ & Hrows & _).
      apply (fresh_ids_filter w _ _ Hrows); [apply restoreApprovals_next | exact Hw].
Qed.

Section BackedFacts.

Lemma restore_lookup (w : World) (s : string) :
  activeApprovals w = ∅ ->
  activeApprovals (snd (restoreApprovals w)) !! s
  = to_approval <$> List.find (fun r => String.eqb (row_service r) s)
                      (select_active (clock w) (delete_expired (clock w) (approvals w))).
Proof.
  intros Hempty. destruct (restoreApprovals_run w) as (-> & _ & _).
  rewrite dedupe_installed, Hempty, decide_False by apply not_elem_of_empty.
  now destruct (List.find _ _).
Qed.

End BackedFacts.

(** X16. Every grant in memory is backed by a persisted, non-revoked row
    of its service and approver: this holds for an empty store and is
    kept by granting or refusing an approval, by the lazy removal of a
    stale grant, by revoking one grant or all of them, and by a restart
    with hydration. *)
Theorem backed_invariant :
  (forall t, backed (empty_world t))
  /\ forall w, backed w ->
       (forall s d, backed (snd (checkApproval_settled s d w)))
       /\ (forall s, backed (snd (revokeApproval s w)))
       /\ (forall s, backed (snd (hasActiveApproval s w)))
       /\ backed (snd (revokeAll w))
       /\ (forall ms, backed (snd (restoreApprovals (restart ms w)))).
Proof.
  split.
  - intros t s a H. vm_compute in H. discriminate.
  - intros w Hw. split; [|split; [|split; [|split]]].
    + intros s d. destruct (d_approved d) eqn:Hd;
        [|now rewrite checkApproval_settled_denied].
      destruct (checkApproval_settled_run w s d Hd) as (_ & _ & Hmap & Hrows).
      intros k a. rewrite Hmap, Hrows. destruct (decide (s = k)) as [->|Hne].
      * rewrite lookup_insert_eq. intros [= <-]. split; [reflexivity|].
        eexists. split; [apply in_or_app; right; left; reflexivity|].
        repeat split; reflexivity.
      * rewrite lookup_insert_ne by exact Hne. intros Hk.
        destruct (Hw k a Hk) as (Hs & r & Hin & Hr).
        split; [exact Hs|]. exists r. split; [apply in_or_app; now left | exact Hr].
    + intros s. destruct (activeApprovals w !! s) as [a0|] eqn:Hs.
      * destruct (revokeApproval_run w s (ex_intro _ a0 Hs)) as (_ & Hrows & Hmap & _).
        intros k a. rewrite Hmap, Hrows. destruct (decide (s = k)) as [->|Hne].
        -- rewrite lookup_delete_eq. discriminate.
        -- rewrite lookup_delete_ne by exact Hne. intros Hk.
           destruct (Hw k a Hk) as (Hsv & r & Hin & Hr1 & Hr).
           split; [exact Hsv|]. exists r. split; [|now split].
           apply in_map_iff. exists r. split; [|exact Hin].
           apply mark_revoked_other. congruence.
      * unfold revokeApproval, mbind, M_bind, gets. simpl.
        rewrite bool_decide_eq_false_2; [exact Hw|]. rewrite Hs. now intros [x Hx].
    + intros s. rewrite hasActiveApproval_run.
      destruct (activeApprovals w !! s) as [a0|] eqn:Hs; [|exact Hw].
      destruct (expiresAt a0 <? clock w); [|exact Hw].
      intros k a. simpl. destruct (decide (s = k)) as [->|Hne].
      * rewrite lookup_delete_eq. discriminate.
      * rewrite lookup_delete_ne by exact Hne. apply Hw.
    + intros k a. destruct (revokeAll_rows w) as (_ & ->). rewrite lookup_empty.
      discriminate.
    + intros ms k a. rewrite restore_lookup by reflexivity.
      destruct (restoreApprovals_run (restart ms w)) as (_ & -> & _).
      destruct (List.find _ _) as [r|] eqn:Hf; [|discriminate].
      intros [= <-]. apply find_some in Hf as [Hin Hs]. apply String.eqb_eq in Hs.
      apply select_active_In in Hin as [Hin [_ Hrev]].
      split; [exact Hs|]. exists r. repeat split; trivial.
Qed.

(** ** Out-of-Band Notifier: button presses and pairing *)

Section NotifierFacts.

Lemma after_first_app (c : ascii) (h rest : string) :
  before_first c h = h -> after_first c (h ++ String c rest) = Some rest.
Proof.
  induction h as [|d h IH]; simpl.
  - intros _. change (after_first c (String c rest) = Some rest). simpl.
    now rewrite Ascii.eqb_refl.
  - change (String d h ++ String c rest) with (String d (h ++ String c rest)).
    simpl. destruct (Ascii.eqb d c); [discriminate|].
    intros [= H]. exact (IH H).
Qed.

Lemma app_colon_truthy (h rest : string) :
  truthy (Some (h ++ String ":" rest)) = Some (h ++ String ":" rest).
Proof. now destruct h. Qed.

Lemma on_action_no_colon (action user : string) (r : ApprovalResult * Answer) :
  on_action action user = Some r -> before_first ":" action = action.
Proof.
  unfold on_action.
  repeat match goal with
         | |- context [String.eqb action ?s] =>
             destruct (String.eqb_spec action s) as [->|_]; [intros _; reflexivity|]
         end.
  discriminate.
Qed.

Lemma on_action_by (action user : string) (d : ApprovalResult) (a : Answer) :
  on_action action user = Some (d, a) -> d_approvedBy d = user.
Proof.
  unfold on_action.
  repeat match goal with
         | |- context [String.eqb action ?s] =>
             destruct (String.eqb action s); [now intros [= <- _]|]
         end.
  discriminate.
Qed.

(** The handler, up to its first [await], on a press from a chat it
    acts on, after the split of [query.data]. *)
Lemma press_begin_run (config : TelegramConfig) (chat action k user : string)
    (w : World) :
  may_decide config chat w ->
  before_first ":" action = action ->
  before_first ":" k = k ->
  press_begin config (press chat action k user) w
  = match pendingCallbacks w !! k with
    | None => (emit (CallbackAnswered RequestExpired);; mret PressDone) w
    | Some target =>
        match on_action action user with
        | Some (d, a) =>
            (TelegramNotifier.resolve target d;;
             emit (CallbackAnswered a);;
             mret (AwaitingAnswer {| press_target := target; press_answer := a;
                                     press_user := user;
                                     press_requestId := Some k |})) w
        | None => (discard (Some k);; mret PressDone) w
        end
    end.
Proof.
  intros Hmay Ha Hk. unfold press_begin, press.
  cbn [data message_chat_id userName].
  change (action ++ ":" ++ k) with (action ++ String ":" k).
  rewrite app_colon_truthy, (before_first_app _ _ _ Ha), (after_first_app _ _ _ Ha).
  cbn [fmap option_fmap option_map]. rewrite Hk.
  unfold isPairedUser, mbind at 1, M_bind at 1, gets at 1.
  assert (Hgate : pairing_enabled config
                  && negb (bool_decide (chat ∈ telegram_paired_users w)) = false).
  { destruct Hmay as [->|Hin]; [reflexivity|].
    rewrite (bool_decide_eq_true_2 _ Hin). apply andb_false_r. }
  rewrite Hgate. unfold mbind at 1, M_bind at 1, gets at 1.
  cbn [mbind option_bind]. destruct (pendingCallbacks w !! k); [|reflexivity].
  now destruct (on_action action user) as [[d a]|].
Qed.

(** The same press handled without interruption. *)
Lemma press_run (config : TelegramConfig) (chat action k user : string) (w : World) :
  may_decide config chat w ->
  before_first ":" action = action ->
  before_first ":" k = k ->
  on_callback_query config (press chat action k user) w
  = match pendingCallbacks w !! k with
    | None => emit (CallbackAnswered RequestExpired) w
    | Some target =>
        (match on_action action user with
         | Some (d, a) =>
             TelegramNotifier.resolve target d;;
             emit (CallbackAnswered a);;
             emit (PromptEdited target a user)
         | None => mret tt
         end;;
         set_pendingCallbacks (delete k);;
         set_pendingTexts (delete k)) w
    end.
Proof.
  intros Hmay Ha Hk. unfold on_callback_query, mbind at 1, M_bind at 1.
  rewrite (press_begin_run _ _ _ _ _ _ Hmay Ha Hk).
  destruct (pendingCallbacks w !! k) as [target|]; [|reflexivity].
  destruct (on_action action user) as [[d a]|]; [|reflexivity].
  unfold mbind, M_bind.
  destruct (TelegramNotifier.resolve target d w) as [[] x]. reflexivity.
Qed.

End NotifierFacts.

(** X17. A press of one of the six buttons from a chat the handler
    acts on, for a registered request.  Before its first [await] the
    handler calls the reply channel with the decision of that button in
    the approver's name and answers the press; the wait settles on the
    decision if it was still open.  The entry stays in the registries
    until the calls of the Bot API have returned: a press for the same
    request that is handled in between finds the entry, calls the reply
    channel again and is answered with its own decision, but does not
    change what the wait has settled on.  When the handler resumes it
    edits the prompt and then deletes the entry from both registries, or
    deletes it at once when the answer to the press failed; a press that
    begins once the entry is deleted is answered as expired and settles
    nothing.  No stage touches the grants or the approvals table. *)
Theorem decision_settles_and_discards (config : TelegramConfig)
    (chat action k user : string) (d : ApprovalResult) (a : Answer) (w : World) :
  may_decide config chat w ->
  on_action action user = Some (d, a) ->
  before_first ":" k = k ->
  pendingCallbacks w !! k = Some k ->
  let c := {| press_target := k; press_answer := a; press_user := user;
              press_requestId := Some k |} in
  let w1 := snd (press_begin config (press chat action k user) w) in
  (fst (press_begin config (press chat action k user) w) = AwaitingAnswer c
   /\ effects_of (press_begin config (press chat action k user)) w
      = [ReplyChannelInvoked k d; CallbackAnswered a]
   /\ awaiting w1 = match awaiting w !! k with
                    | Some None => <[k := Some d]> (awaiting w)
                    | _ => awaiting w
                    end
   /\ pendingCallbacks w1 = pendingCallbacks w /\ pendingTexts w1 = pendingTexts w
   /\ activeApprovals w1 = activeApprovals w /\ approvals w1 = approvals w
   /\ d_approvedBy d = user)
  /\ (forall chat2 action2 user2 d2 a2,
        may_decide config chat2 w1 ->
        on_action action2 user2 = Some (d2, a2) ->
        let between := press_begin config (press chat2 action2 k user2) in
        effects_of between w1 = [ReplyChannelInvoked k d2; CallbackAnswered a2]
        /\ awaiting (snd (between w1)) = awaiting w1)
  /\ (forall x,
        (fst (press_answered true c x) = AwaitingEdit c
         /\ effects_of (press_answered true c) x = [PromptEdited k a user]
         /\ pendingCallbacks (snd (press_answered true c x)) = pendingCallbacks x)
        /\ (forall done,
              done = snd (press_answered false c x) \/ done = snd (press_edited c x) ->
              pendingCallbacks done = delete k (pendingCallbacks x)
              /\ pendingTexts done = delete k (pendingTexts x)
              /\ awaiting done = awaiting x /\ trace done = trace x
              /\ activeApprovals done = activeApprovals x
              /\ approvals done = approvals x))
  /\ (forall x chat2 action2 user2,
        pendingCallbacks x !! k = None ->
        may_decide config chat2 x ->
        before_first ":" action2 = action2 ->
        press_begin config (press chat2 action2 k user2) x
        = (PressDone, snd (emit (CallbackAnswered RequestExpired) x)))
  /\ effects_of (on_callback_query config (press chat action k user)) w
     = [ReplyChannelInvoked k d; CallbackAnswered a; PromptEdited k a user].
Proof.
  intros Hmay Hact Hk Hreg c w1.
  pose proof (on_action_no_colon _ _ _ Hact) as Ha.
  assert (E1 : press_begin config (press chat action k user) w
               = (AwaitingAnswer c,
                  snd (emit (CallbackAnswered a) (snd (TelegramNotifier.resolve k d w))))).
  { rewrite (press_begin_run _ _ _ _ _ _ Hmay Ha Hk), Hreg, Hact.
    unfold mbind, M_bind.
    destruct (TelegramNotifier.resolve k d w) as [[] x]. reflexivity. }
  destruct (resolve_run k d w)
    as (Haw & Htr & Hm & Hr & _ & Hpc & Hpt & _ & _ & _ & Hu).
  assert (Hw1 : trace w1 = (trace w ++ [ReplyChannelInvoked k d; CallbackAnswered a])%list
                /\ awaiting w1 = match awaiting w !! k with
                                 | Some None => <[k := Some d]> (awaiting w)
                                 | _ => awaiting w
                                 end
                /\ pendingCallbacks w1 = pendingCallbacks w
                /\ pendingTexts w1 = pendingTexts w
                /\ activeApprovals w1 = activeApprovals w
                /\ approvals w1 = approvals w).
  { unfold w1. rewrite E1. cbn [snd emit modify trace awaiting pendingCallbacks
                                pendingTexts activeApprovals approvals].
    rewrite Htr, Haw, Hpc, Hpt, Hm, Hr, <- app_assoc. repeat split. }
  destruct Hw1 as (Htr1 & Haw1 & Hpc1 & Hpt1 & Hm1 & Hr1).
  split; [|split; [|split; [|split]]].
  - split; [now rewrite E1|]. split; [apply effects_of_app; exact Htr1|].
    repeat (split; [assumption|]). exact (on_action_by _ _ _ _ Hact).
  - intros chat2 action2 user2 d2 a2 Hmay2 Hact2 between.
    pose proof (on_action_no_colon _ _ _ Hact2) as Ha2.
    assert (E2 : between w1
                 = (AwaitingAnswer {| press_target := k; press_answer := a2;
                                      press_user := user2; press_requestId := Some k |},
                    snd (emit (CallbackAnswered a2)
                           (snd (TelegramNotifier.resolve k d2 w1))))).
    { unfold between.
      rewrite (press_begin_run _ _ _ _ _ _ Hmay2 Ha2 Hk), Hpc1, Hreg, Hact2.
      unfold mbind, M_bind.
      destruct (TelegramNotifier.resolve k d2 w1) as [[] x]. reflexivity. }
    destruct (resolve_run k d2 w1) as (Haw2 & Htr2 & _).
    assert (Hsettled : awaiting w1 !! k <> Some None).
    { rewrite Haw1. destruct (awaiting w !! k) as [[x|]|] eqn:E.
      - rewrite E. discriminate.
      - rewrite lookup_insert_eq. discriminate.
      - rewrite E. discriminate. }
    split.
    + apply effects_of_app. rewrite E2.
      cbn [snd emit modify trace]. now rewrite Htr2, <- app_assoc.
    + rewrite E2. cbn [snd emit modify awaiting]. rewrite Haw2.
      destruct (awaiting w1 !! k) as [[x|]|]; try reflexivity. now destruct Hsettled.
  - intros x. split.
    + split; [reflexivity|]. split; [now apply effects_of_app | reflexivity].
    + intros done [-> | ->]; repeat split.
  - intros x chat2 action2 user2 Hnone Hmay2 Ha2.
    now rewrite (press_begin_run _ _ _ _ _ _ Hmay2 Ha2 Hk), Hnone.
  - apply effects_of_app.
    rewrite (press_run _ _ _ _ _ _ Hmay Ha Hk), Hreg, Hact.
    unfold TelegramNotifier.resolve, mbind, M_bind. simpl.
    now rewrite <- !app_assoc.
Qed.

Lemma decision_settles_and_discards_witness :
  may_decide no_pairing "42" prompted
  /\ on_action "approve_1h" "ann" = Some (one_hour "ann", ApprovedFor1h)
  /\ before_first ":" "req_1000_1" = "req_1000_1"
  /\ pendingCallbacks prompted !! "req_1000_1" = Some "req_1000_1"
  /\ effects_of (press_begin no_pairing (press "42" "approve_1h" "req_1000_1" "ann"))
       prompted
     = [ReplyChannelInvoked "req_1000_1" (one_hour "ann"); CallbackAnswered ApprovedFor1h].
Proof.
  assert (H1 : may_decide no_pairing "42" prompted) by (left; reflexivity).
  assert (H2 : on_action "approve_1h" "ann" = Some (one_hour "ann", ApprovedFor1h))
    by reflexivity.
  assert (H3 : before_first ":" "req_1000_1" = "req_1000_1") by reflexivity.
  assert (H4 : pendingCallbacks prompted !! "req_1000_1" = Some "req_1000_1")
    by (vm_compute; reflexivity).
  repeat (split; [assumption|]).
  exact (proj1 (proj2 (proj1 (decision_settles_and_discards no_pairing "42" "approve_1h"
                                "req_1000_1" "ann" (one_hour "ann") ApprovedFor1h
                                prompted H1 H2 H3 H4)))).
Defined.

(** X18. A press whose action is none of the six, for a registered
    request and from a chat the handler acts on: nothing is answered and
    no reply channel is called, so the wait stays as it was, yet the
    entry leaves both registries; a press of a real button afterwards is
    answered as expired and settles nothing, which leaves the wait to the
    timer. *)
Theorem unknown_action_discards_entry (config : TelegramConfig)
    (chat action k user : string) (w : World) :
  may_decide config chat w ->
  on_action action user = None ->
  before_first ":" action = action ->
  before_first ":" k = k ->
  pendingCallbacks w !! k = Some k ->
  let w1 := snd (on_callback_query config (press chat action k user) w) in
  trace w1 = trace w
  /\ awaiting w1 = awaiting w
  /\ pendingCallbacks w1 = delete k (pendingCallbacks w)
  /\ pendingTexts w1 = delete k (pendingTexts w)
  /\ forall chat2 action2 user2,
       may_decide config chat2 w ->
       before_first ":" action2 = action2 ->
       let again := on_callback_query config (press chat2 action2 k user2) in
       effects_of again w1 = [CallbackAnswered RequestExpired]
       /\ awaiting (snd (again w1)) = awaiting w.
Proof.
  intros Hmay Hact Ha Hk Hreg w1.
  assert (E1 : on_callback_query config (press chat action k user) w
               = (set_pendingCallbacks (delete k);; set_pendingTexts (delete k)) w).
  { now rewrite (press_run _ _ _ _ _ _ Hmay Ha Hk), Hreg, Hact. }
  assert (Hw1 : trace w1 = trace w /\ awaiting w1 = awaiting w
                /\ pendingCallbacks w1 = delete k (pendingCallbacks w)
                /\ pendingTexts w1 = delete k (pendingTexts w)
                /\ telegram_paired_users w1 = telegram_paired_users w).
  { unfold w1. rewrite E1. unfold mbind, M_bind. simpl. tauto. }
  destruct Hw1 as (Htr & Haw & Hpc & Hpt & Hu).
  repeat (split; [assumption|]).
  intros chat2 action2 user2 Hmay2 Ha2 again.
  assert (Hmay1 : may_decide config chat2 w1).
  { destruct Hmay2 as [H|H]; [now left | right; now rewrite Hu]. }
  assert (E2 : again w1 = emit (CallbackAnswered RequestExpired) w1).
  { unfold again. rewrite (press_run _ _ _ _ _ _ Hmay1 Ha2 Hk), Hpc.
    now rewrite lookup_delete_eq. }
  split; [apply effects_of_app; now rewrite E2|].
  rewrite E2. exact Haw.
Qed.

Lemma unknown_action_discards_entry_witness :
  may_decide no_pairing "42" prompted
  /\ on_action "approve" "ann" = None
  /\ before_first ":" "approve" = "approve"
  /\ before_first ":" "req_1000_1" = "req_1000_1"
  /\ pendingCallbacks prompted !! "req_1000_1" = Some "req_1000_1"
  /\ trace (snd (on_callback_query no_pairing (press "42" "approve" "req_1000_1" "ann")
                   prompted))
     = trace prompted.
Proof.
  assert (H1 : may_decide no_pairing "42" prompted) by (left; reflexivity).
  assert (H2 : on_action "approve" "ann" = None) by reflexivity.
  assert (H3 : before_first ":" "approve" = "approve") by reflexivity.
  assert (H4 : before_first ":" "req_1000_1" = "req_1000_1") by reflexivity.
  assert (H5 : pendingCallbacks prompted !! "req_1000_1" = Some "req_1000_1")
    by (vm_compute; reflexivity).
  repeat (split; [assumption|]).
  exact (proj1 (unknown_action_discards_entry no_pairing "42" "approve" "req_1000_1"
                  "ann" prompted H1 H2 H3 H4 H5)).
Defined.

(** X19. With pairing enabled, a callback from a chat that is not in
    the table of paired users settles nothing and discards nothing,
    whatever its data: it is answered "not paired" (or not at all when it
    carries no data), and the waits, the registries, the grants and the
    tables stay as they were. *)
Theorem unpaired_chat_decides_nothing (config : TelegramConfig) (chat user : string)
    (dt : option string) (w : World) :
  pairing_enabled config = true ->
  chat ∉ telegram_paired_users w ->
  let q := {| data := dt; message_chat_id := Some chat; userName := user |} in
  let w1 := snd (on_callback_query config q w) in
  effects_of (on_callback_query config q) w
  = match truthy dt with
    | Some _ => [CallbackAnswered NotPaired]
    | None => []
    end
  /\ awaiting w1 = awaiting w
  /\ pendingCallbacks w1 = pendingCallbacks w /\ pendingTexts w1 = pendingTexts w
  /\ activeApprovals w1 = activeApprovals w /\ approvals w1 = approvals w.
Proof.
  intros Hen Hout q w1.
  assert (E : on_callback_query config q w
              = match truthy dt with
                | Some _ => emit (CallbackAnswered NotPaired) w
                | None => (tt, w)
                end).
  { assert (Eb : press_begin config q w
                 = match truthy dt with
                   | Some _ => (PressDone, snd (emit (CallbackAnswered NotPaired) w))
                   | None => (PressDone, w)
                   end).
    { unfold press_begin, q. cbn [data message_chat_id userName].
      destruct (truthy dt); [|reflexivity].
      unfold isPairedUser, mbind at 1, M_bind at 1, gets at 1.
      now rewrite Hen, (bool_decide_eq_false_2 _ Hout). }
    unfold on_callback_query, mbind at 1, M_bind at 1. rewrite Eb.
    now destruct (truthy dt). }
  split.
  - apply effects_of_app. rewrite E. destruct (truthy dt); simpl; [reflexivity|].
    now rewrite app_nil_r.
  - unfold w1. rewrite E. destruct (truthy dt); simpl; tauto.
Qed.

Lemma unpaired_chat_decides_nothing_witness :
  pairing_enabled with_secret = true
  /\ ("666" ∉ telegram_paired_users prompted)
  /\ awaiting (snd (on_callback_query with_secret
                      {| data := Some "approve_24h:req_1000_1";
                         message_chat_id := Some "666"; userName := "eve" |} prompted))
     = awaiting prompted.
Proof.
  assert (H1 : pairing_enabled with_secret = true) by reflexivity.
  assert (H2 : "666" ∉ telegram_paired_users prompted).
  { change (telegram_paired_users prompted) with (∅ : gset string).
    apply not_elem_of_empty. }
  repeat (split; [assumption|]).
  exact (proj1 (proj2 (unpaired_chat_decides_nothing with_secret "666" "eve"
                         (Some "approve_24h:req_1000_1") prompted H1 H2))).
Defined.

(** X20. The pairing commands, with pairing enabled.  [/pair] with a
    wrong secret changes nothing; with the configured secret it adds the
    chat to the table and switches prompting on.  [/unpair] is obeyed
    from every chat, paired or not: it removes that chat only, but it
    switches prompting off for the whole gateway, so that from then on
    [requestApproval] denies at once without a prompt and a request that
    needs an approval and has no grant is refused by [checkApproval]
    without anybody being asked.  [/status] answers from the table.  At
    start the flag is whether the configured chat is in the table. *)
Theorem pairing_commands (config : TelegramConfig) (chat secret : string) (w : World) :
  pairing_enabled config = true ->
  (secret <> pairing_secret config ->
   on_pair config chat secret w = (WrongPairingSecret, w))
  /\ (let r := on_pair config chat (pairing_secret config) w in
      fst r = PairedSuccessfully
      /\ telegram_paired_users (snd r) = {[chat]} ∪ telegram_paired_users w
      /\ paired (snd r) = true
      /\ may_decide config chat (snd r)
      /\ fst (on_status chat (snd r)) = StatusPaired)
  /\ (let w2 := snd (on_unpair chat w) in
      paired w2 = false
      /\ telegram_paired_users w2 = telegram_paired_users w ∖ {[chat]}
      /\ fst (on_status chat w2) = StatusNotPaired
      /\ (forall k s method path ip,
            requestApproval config k s method path ip w2
            = (Some {| d_approved := false; d_ttlSeconds := 0;
                       d_approvedBy := "unpaired" |}, w2))
      /\ (forall s sc method path ip,
            getAction sc method path = require_approval ->
            activeApprovals w !! s = None ->
            let res := checkApproval config s sc method path ip w2 in
            fst res = inl false
            /\ pendingCallbacks (snd res) = pendingCallbacks w
            /\ forwards (snd res) = forwards w))
  /\ (paired (snd (start_notifier config w)) = true
      <-> chatId config ∈ telegram_paired_users w).
Proof.
  intros Hen. split; [|split; [|split]].
  - intros Hne. unfold on_pair. rewrite Hen. simpl negb. cbv iota.
    now destruct (String.eqb_spec secret (pairing_secret config)).
  - unfold on_pair. rewrite Hen, String.eqb_refl. simpl.
    assert (Hin : chat ∈ {[chat]} ∪ telegram_paired_users w).
    { apply elem_of_union_l. now apply elem_of_singleton. }
    repeat split; [now right|].
    unfold on_status, isPairedUser, mbind, M_bind, gets. cbn [fst snd telegram_paired_users].
    now rewrite (bool_decide_eq_true_2 _ Hin).
  - cbv zeta. split; [reflexivity|]. split; [reflexivity|]. split.
    { assert (Hout : chat ∉ telegram_paired_users w ∖ {[chat]}).
      { intros [_ H]%elem_of_difference. apply H. now apply elem_of_singleton. }
      unfold on_status, isPairedUser, mbind, M_bind, gets.
      change (telegram_paired_users (snd (on_unpair chat w)))
        with (telegram_paired_users w ∖ {[chat]}).
      cbn [fst snd]. now rewrite (bool_decide_eq_false_2 _ Hout). }
    split.
    + intros k s method path ip. unfold requestApproval, mbind at 1, M_bind at 1, gets.
      now rewrite Hen.
    + intros s sc method path ip Hact Hnone.
      remember (snd (on_unpair chat w)) as w2 eqn:E2.
      assert (Hw2 : paired w2 = false /\ activeApprovals w2 = activeApprovals w
                    /\ pendingCallbacks w2 = pendingCallbacks w
                    /\ trace w2 = trace w) by (subst w2; repeat split).
      clear E2. destruct Hw2 as (Hp & Hm & Hpc & Htr).
      assert (Hno : hasActiveApproval s w2 = (false, w2)).
      { rewrite hasActiveApproval_run, Hm. now rewrite Hnone. }
      destruct (checkApproval_no_grant config s sc method path ip w2 Hact)
        as (_ & _ & _ & H).
      { now rewrite Hno. }
      rewrite Hen, Hp, Hno in H. simpl in H. destruct H as (H1 & H2 & H3).
      cbv zeta. split; [exact H1|]. split; [now rewrite H2|].
      unfold forwards. rewrite H3, List.filter_app, Htr. simpl. apply app_nil_r.
  - unfold start_notifier. rewrite Hen. unfold isPairedUser, mbind, M_bind, gets. simpl.
    apply bool_decide_eq_true.
Qed.

Lemma pairing_commands_witness :
  pairing_enabled with_secret = true
  /\ on_pair with_secret "666" "guess" prompted = (WrongPairingSecret, prompted)
  /\ paired (snd (on_unpair "666" prompted)) = false.
Proof.
  assert (H : pairing_enabled with_secret = true) by reflexivity.
  split; [exact H|].
  pose proof (pairing_commands with_secret "666" "guess" prompted H) as (H1 & _ & H3 & _).
  split; [apply H1; discriminate | exact (proj1 H3)].
Defined.

(** ** Proxy Engine: forwarding *)

Import Pipeline.

Section ForwardingFacts.
Context {platform : UrlPlatform}.

Lemma forwards_app (w w' : World) (es : list effect) :
  trace w' = (trace w ++ es)%list ->
  List.filter is_upstream es = [] ->
  forwards w' = forwards w.
Proof.
  intros Htr Hes. unfold forwards. rewrite Htr, List.filter_app, Hes. apply app_nil_r.
Qed.

Lemma handleProxy_quiet (config : Config) (req : Request) (w : World) :
  forwards (snd (handleProxy config req w)) = forwards w.
Proof.
  unfold handleProxy.
  destruct (startsWith (params_service req) "__");
    [now apply forwards_app with (es := [HttpResponse 404 NotFound])|].
  destruct (get (params_service req) (services config)) as [sc|].
  2:{ destruct (inherited (params_service req)); simpl negb; cbv iota;
        [|now apply forwards_app
            with (es := [HttpResponse 404 (UnknownService (params_service req))])].
      destruct (is_string (agentKey req) (server_agentKey config)); simpl negb; cbv iota;
        [|now apply forwards_app with (es := [HttpResponse 401 InvalidOrMissingKey])].
      destruct (URL_new _ None) as [u|]; [|reflexivity].
      destruct (valid (validateRuntimeUrl (toString u) "undefined" (security config)));
        simpl negb; cbv iota; [reflexivity|].
      eapply forwards_app with (es := [InsertRequest _; HttpResponse 403 _]);
        [|reflexivity].
      unfold mbind, M_bind. simpl. now rewrite <- app_assoc. }
  destruct (is_string (agentKey req) (server_agentKey config)); simpl negb; cbv iota;
    [|now apply forwards_app with (es := [HttpResponse 401 InvalidOrMissingKey])].
  destruct (URL_new _ (Some (upstream sc))) as [u|]; [|reflexivity].
  destruct (valid (validateRuntimeUrl (toString u) (upstream sc) (security config)));
    simpl negb; cbv iota; [reflexivity|].
  eapply forwards_app with (es := [InsertRequest _; HttpResponse 403 _]);
    [|reflexivity].
  unfold mbind, M_bind. simpl. now rewrite <- app_assoc.
Qed.

Lemma handleHostProxy_quiet (config : Config) (req : Request) (w : World) :
  forwards (snd (handleHostProxy config req w)) = forwards w.
Proof.
  unfold handleHostProxy.
  destruct (resolveServiceByHost _ _) as [[name sc]|];
    [|now apply forwards_app with (es := [HttpResponse 404 UnknownHost])].
  destruct (is_string (agentKey req) (server_agentKey config)); simpl negb; cbv iota;
    [|now apply forwards_app with (es := [HttpResponse 401 InvalidOrMissingKey])].
  destruct (URL_new _ (Some (upstream sc))) as [u|]; [|reflexivity].
  destruct (valid (validateRuntimeUrl (toString u) (upstream sc) (security config)));
    simpl negb; cbv iota; [reflexivity|].
  now apply forwards_app with (es := [HttpResponse 403 BlockedBySecurityPolicy]).
Qed.

(** The rest of a handler once [checkApproval] has answered. *)
Lemma approval_answered_run (req : Request) (p : Pending) (approved : bool) (w : World) :
  let r := approval_answered req p approved w in
  if approved
  then fst r = AwaitingUpstream
       /\ trace (snd r)
          = (trace w
             ++ [UpstreamRequest
                   (toString (snd (inject_auth (serviceConfig p) (copy_headers req)
                                     (upstreamUrl p))))
                   (req_method req) (forward_headers req p) (req_body req)])%list
  else fst r = Returned
       /\ trace (snd r)
          = (trace w
             ++ [InsertRequest (denied_entry (clock w) (serviceName p) req
                                  (upstreamPath p) (pending_agentIp p));
                 HttpResponse 403 ApprovalDeniedOrTimedOut])%list
       /\ forwards (snd r) = forwards w.
Proof.
  cbv zeta. unfold approval_answered, forward_headers. destruct approved; simpl negb; cbv iota.
  - destruct (inject_auth _ _ _) as [hs u]. split; reflexivity.
  - assert (Htr : trace (snd ((now ← Date_now;
                               logRequest (denied_entry now (serviceName p) req
                                             (upstreamPath p) (pending_agentIp p));;
                               respond 403 ApprovalDeniedOrTimedOut;;
                               mret Returned) w))
                  = (trace w
                     ++ [InsertRequest (denied_entry (clock w) (serviceName p) req
                                          (upstreamPath p) (pending_agentIp p));
                         HttpResponse 403 ApprovalDeniedOrTimedOut])%list).
    { unfold mbind, M_bind. simpl. now rewrite <- app_assoc. }
    split; [reflexivity|]. split; [exact Htr|].
    now apply (forwards_app _ _ _ Htr).
Qed.

Lemma serve_run (handler : Config -> Request -> M Suspended)
    (config : Config) (req : Request) (w : World) :
  serve handler config req w
  = match fst (handler config req w) with
    | AwaitingApproval p =>
        let res := checkApproval (telegram config) (serviceName p) (serviceConfig p)
                     (req_method req) (upstreamPath p) (pending_agentIp p)
                     (snd (handler config req w)) in
        match fst res with
        | inl approved =>
            (Settled (fst (approval_answered req p approved (snd res))),
             snd (approval_answered req p approved (snd res)))
        | inr requestId => (AwaitingDecision p requestId, snd res)
        end
    | s => (Settled s, snd (handler config req w))
    end.
Proof.
  unfold serve, mbind at 1, M_bind at 1.
  destruct (handler config req w) as [s w1]. simpl fst. simpl snd.
  destruct s; try reflexivity.
  unfold mbind at 1, M_bind at 1. cbv zeta.
  destruct (checkApproval _ _ _ _ _ _ w1) as [[b|k] w2]; simpl fst; simpl snd;
    [|reflexivity].
  unfold mbind, M_bind. now destruct (approval_answered req p b w2).
Qed.

End ForwardingFacts.

Section ApprovalGrounds.

(** [checkApproval] sends nothing upstream itself, and it answers
    [true] at once only on the policy or on a live grant. *)
Lemma checkApproval_grounds (config : TelegramConfig) (s : string) (sc : ServiceConfig)
    (method path ip : string) (w : World) :
  let res := checkApproval config s sc method path ip w in
  forwards (snd res) = forwards w
  /\ (fst res = inl true ->
      getAction sc method path = auto_approve
      \/ exists a, activeApprovals w !! s = Some a /\ clock w <= expiresAt a).
Proof.
  cbv zeta. destruct (getAction sc method path) eqn:Hact.
  - unfold checkApproval. rewrite Hact. split; [reflexivity | now left].
  - destruct (fst (hasActiveApproval s w)) eqn:Hh.
    + assert (E : hasActiveApproval s w = (true, w)
                  /\ exists a, activeApprovals w !! s = Some a /\ clock w <= expiresAt a).
      { rewrite hasActiveApproval_run in Hh |- *.
        destruct (activeApprovals w !! s) as [a|]; [|discriminate].
        destruct (Z.ltb_spec (expiresAt a) (clock w)); [discriminate|].
        split; [reflexivity|]. now exists a. }
      destruct E as [E Hlive].
      unfold checkApproval. rewrite Hact. unfold mbind at 1, M_bind at 1. rewrite E.
      split; [reflexivity | intros _; now right].
    + destruct (checkApproval_no_grant config s sc method path ip w Hact Hh)
        as (_ & _ & _ & H).
      assert (H0 : forwards (snd (hasActiveApproval s w)) = forwards w).
      { rewrite hasActiveApproval_run.
        destruct (activeApprovals w !! s) as [a|]; [|reflexivity].
        destruct (expiresAt a <? clock w); [|reflexivity].
        now apply forwards_app with (es := [GrantDropped s]). }
      destruct (pairing_enabled config && negb (paired w)).
      * destruct H as (H1 & _ & H3). rewrite H1. split; [|discriminate].
        rewrite <- H0. now apply (forwards_app _ _ _ H3).
      * destruct H as (H1 & _ & _ & H3). rewrite H1. split; [|discriminate].
        rewrite <- H0. now apply (forwards_app _ _ _ H3).
Qed.

End ApprovalGrounds.

(** X21. Neither handler sends a request upstream on its own
    authority: when serving a request up to its first wait adds an
    upstream request, the handler had passed its checks and reached the
    approval check, and either the policy of the service auto-approves
    the method and path or the service has a grant in memory that has
    not expired; exactly one upstream request is then added, with the
    shaped headers. *)
Theorem forward_needs_authorisation `{platform : UrlPlatform}
    (handler : Config -> Request -> M Suspended)
    (config : Config) (req : Request) (w : World) :
  handler = handleProxy \/ handler = handleHostProxy ->
  forwards (snd (serve handler config req w)) <> forwards w ->
  exists p,
    handler config req w = (AwaitingApproval p, w)
    /\ (getAction (serviceConfig p) (req_method req) (upstreamPath p) = auto_approve
        \/ exists a, activeApprovals w !! serviceName p = Some a
                     /\ clock w <= expiresAt a)
    /\ fst (serve handler config req w) = Settled AwaitingUpstream
    /\ forwards (snd (serve handler config req w))
       = (forwards w
          ++ [UpstreamRequest
                (toString (snd (inject_auth (serviceConfig p) (copy_headers req)
                                  (upstreamUrl p))))
                (req_method req) (forward_headers req p) (req_body req)])%list.
Proof.
  intros Hh Hfw.
  assert (Hq : forwards (snd (handler config req w)) = forwards w).
  { destruct Hh as [->| ->]; [apply handleProxy_quiet | apply handleHostProxy_quiet]. }
  assert (Hr : forall p, fst (handler config req w) = AwaitingApproval p ->
                         snd (handler config req w) = w).
  { intros p Hp. destruct Hh as [->| ->];
      [exact (proj1 (handleProxy_reaches _ _ _ _ Hp))
      | exact (proj1 (handleHostProxy_reaches _ _ _ _ Hp))]. }
  rewrite serve_run in Hfw |- *.
  destruct (fst (handler config req w)) as [| |p|] eqn:Es;
    try (simpl in Hfw; contradiction).
  specialize (Hr p eq_refl). rewrite Hr in Hfw |- *. cbv zeta in Hfw |- *.
  destruct (checkApproval_grounds (telegram config) (serviceName p) (serviceConfig p)
              (req_method req) (upstreamPath p) (pending_agentIp p) w) as [Hc Hg].
  destruct (fst (checkApproval _ _ _ _ _ _ w)) as [b|k] eqn:Er;
    [|simpl in Hfw; contradiction].
  pose proof (approval_answered_run req p b
                (snd (checkApproval (telegram config) (serviceName p) (serviceConfig p)
                        (req_method req) (upstreamPath p) (pending_agentIp p) w))) as Ha.
  cbv zeta in Ha. simpl snd in Hfw |- *. simpl fst. destruct b.
  - destruct Ha as [Ha1 Ha2]. exists p. split.
    { destruct (handler config req w) as [s0 w0]. simpl in Es, Hr. now subst. }
    split; [exact (Hg eq_refl)|]. split; [now rewrite Ha1|].
    unfold forwards at 1. rewrite Ha2, List.filter_app. simpl.
    fold (forwards (snd (checkApproval (telegram config) (serviceName p) (serviceConfig p)
                           (req_method req) (upstreamPath p) (pending_agentIp p) w))).
    now rewrite Hc.
  - destruct Ha as (_ & _ & Ha3). rewrite Ha3, Hc in Hfw. contradiction.
Qed.

Lemma forward_needs_authorisation_witness :
  let req := request "GET" "/gh/user" "gh" [with_key] in
  forwards (snd (serve (platform := whatwg) handleProxy gh_config req two_live_rows))
  <> forwards two_live_rows
  /\ fst (serve (platform := whatwg) handleProxy gh_config req two_live_rows)
     = Settled AwaitingUpstream.
Proof.
  intros req.
  assert (H : forwards (snd (serve (platform := whatwg) handleProxy gh_config req
                               two_live_rows))
              <> forwards two_live_rows).
  { vm_compute. discriminate. }
  split; [exact H|].
  destruct (forward_needs_authorisation (platform := whatwg) handleProxy gh_config req
              two_live_rows (or_introl eq_refl) H) as (p & _ & _ & Hs & _).
  exact Hs.
Defined.

Section ResumeFacts.
Context {platform : UrlPlatform}.

Lemma approval_answered_keeps (req : Request) (p : Pending) (approved : bool) (w : World) :
  let w' := snd (approval_answered req p approved w) in
  activeApprovals w' = activeApprovals w /\ approvals w' = approvals w
  /\ awaiting w' = awaiting w.
Proof.
  cbv zeta. unfold approval_answered. destruct approved; simpl negb; cbv iota.
  - destruct (inject_auth _ _ _) as [hs u]. repeat split.
  - unfold mbind, M_bind. simpl. repeat split.
Qed.

Lemma resume_run (req : Request) (p : Pending) (k : string) (w : World) :
  resume req p k w
  = match awaiting w !! k with
    | Some (Some d) =>
        let r := checkApproval_settled (serviceName p) d w in
        (Some (fst (approval_answered req p (fst r) (snd r))),
         snd (approval_answered req p (fst r) (snd r)))
    | _ => (None, w)
    end.
Proof.
  unfold resume, mbind at 1, M_bind at 1.
  destruct (awaiting w !! k) as [[d|]|] eqn:E.
  - rewrite (checkApproval_resume_run _ _ _ _ E). cbv zeta.
    unfold mbind, M_bind. now destruct (approval_answered _ _ _ _).
  - unfold checkApproval_resume, mbind, M_bind, gets. now rewrite E.
  - unfold checkApproval_resume, mbind, M_bind, gets. now rewrite E.
Qed.

End ResumeFacts.

(** X22. A handler resumed after its wait.  While the wait is open
    nothing happens.  Once it has settled on an approval, the grant of
    the service is installed and persisted and only then is the request
    sent upstream, with the shaped headers; once it has settled on a
    refusal (a denial or the timer), an audit record with [approved =
    false] and status 403 is written, the agent is answered 403, nothing
    is sent upstream and the grants and the approvals table stay as they
    were. *)
Theorem resume_spec `{platform : UrlPlatform}
    (req : Request) (p : Pending) (k : string) (w : World) :
  let r := resume req p k w in
  match awaiting w !! k with
  | Some (Some d) =>
      if d_approved d then
        let a := {| service := serviceName p; approvedAt := clock w;
                    expiresAt := clock w + d_ttlSeconds d * 1000;
                    approvedBy := d_approvedBy d |} in
        let row := {| id := next_approval_id w; row_timestamp := clock w;
                      row_service := serviceName p; approved_by := d_approvedBy d;
                      ttl_seconds := d_ttlSeconds d;
                      expires_at := clock w + d_ttlSeconds d * 1000;
                      revoked := false |} in
        fst r = Some AwaitingUpstream
        /\ effects_of (resume req p k) w
           = [GrantInstalled a; InsertApproval row;
              UpstreamRequest
                (toString (snd (inject_auth (serviceConfig p) (copy_headers req)
                                  (upstreamUrl p))))
                (req_method req) (forward_headers req p) (req_body req)]
        /\ activeApprovals (snd r) = <[serviceName p := a]> (activeApprovals w)
        /\ approvals (snd r) = (approvals w ++ [row])%list
      else
        fst r = Some Returned
        /\ effects_of (resume req p k) w
           = [InsertRequest (denied_entry (clock w) (serviceName p) req
                               (upstreamPath p) (pending_agentIp p));
              HttpResponse 403 ApprovalDeniedOrTimedOut]
        /\ forwards (snd r) = forwards w
        /\ activeApprovals (snd r) = activeApprovals w
        /\ approvals (snd r) = approvals w
  | _ => r = (None, w)
  end.
Proof.
  cbv zeta. unfold effects_of. rewrite resume_run.
  destruct (awaiting w !! k) as [[d|]|]; try reflexivity.
  cbv zeta. destruct (d_approved d) eqn:Hd.
  - destruct (checkApproval_settled_run w (serviceName p) d Hd) as (Hb & Htr & Hm & Hr).
    rewrite Hb.
    pose proof (approval_answered_run req p true
                  (snd (checkApproval_settled (serviceName p) d w))) as [Ha1 Ha2].
    destruct (approval_answered_keeps req p true
                (snd (checkApproval_settled (serviceName p) d w))) as (Hk1 & Hk2 & _).
    simpl fst. simpl snd. rewrite Ha1, Ha2, Hk1, Hk2, Hm, Hr, Htr, <- app_assoc.
    repeat split. apply drop_app_length.
  - rewrite (checkApproval_settled_denied _ _ w Hd). cbn [fst snd].
    pose proof (approval_answered_run req p false w) as (Ha1 & Ha2 & Ha3).
    destruct (approval_answered_keeps req p false w) as (Hk1 & Hk2 & _).
    rewrite Ha1, Ha2, Ha3, Hk1, Hk2. repeat split. apply drop_app_length.
Qed.

(** ** Audit Store: the request log and its counters *)

Section AuditFacts.

Lemma tally_split (f : AuditEntry -> bool) (rows : list AuditEntry) (a b : Z) :
  fold_left (fun acc e => acc + (if f e then 1 else 0)) rows a
  + fold_left (fun acc e => acc + (if f e then 0 else 1)) rows b
  = a + b + Z.of_nat (List.length rows).
Proof.
  revert a b. induction rows as [|e rows IH]; intros a b; simpl; [lia|].
  rewrite IH. destruct (f e); lia.
Qed.

Lemma tally_lower (g : AuditEntry -> Z) (rows : list AuditEntry) (a : Z) :
  (forall e, 0 <= g e) -> a <= fold_left (fun acc e => acc + g e) rows a.
Proof.
  intros Hg. revert a. induction rows as [|e rows IH]; intros a; simpl; [lia|].
  specialize (IH (a + g e)). specialize (Hg e). lia.
Qed.

Lemma logRequest_rows (e : AuditEntry) (w : World) :
  requests (snd (logRequest e w))
  = (requests w
     ++ [{| timestamp := timestamp e; entry_service := entry_service e;
            method := method e; entry_path := entry_path e;
            approved := approved e; responseStatus := responseStatus e;
            agentIp := agentIp e; requestBody := or_null (requestBody e);
            responseBody := or_null (responseBody e) |}])%list.
Proof. reflexivity. Qed.

End AuditFacts.

(** X23. The counters of the request log.  Over the rows since any
    instant, the approved and the denied counts are non-negative and add
    up to the total.  Logging a request adds one to the total of every
    period that contains its timestamp and to exactly one of the two
    counts, according to its [approved] flag, and puts the stored row,
    with an empty body stored as none, first among the recent requests
    for every limit other than zero. *)
Theorem request_log_counters (w : World) (since limit : Z) (e : AuditEntry) :
  let stats (x : World) := fst (getApprovalStats since x) in
  let total (x : World) := fst (getTotalRequests since x) in
  let w' := snd (logRequest e w) in
  let within := if since <=? timestamp e then 1 else 0 in
  (0 <= fst (stats w) /\ 0 <= snd (stats w) /\ fst (stats w) + snd (stats w) = total w)
  /\ total w' = total w + within
  /\ fst (stats w') = fst (stats w) + (if approved e then within else 0)
  /\ snd (stats w') = snd (stats w) + (if approved e then 0 else within)
  /\ hd_error (fst (getRecentRequests limit w'))
     = (if limit =? 0 then None
        else Some {| timestamp := timestamp e; entry_service := entry_service e;
                     method := method e; entry_path := entry_path e;
                     approved := approved e; responseStatus := responseStatus e;
                     agentIp := agentIp e; requestBody := or_null (requestBody e);
                     responseBody := or_null (responseBody e) |}).
Proof.
  cbv zeta. unfold getApprovalStats, getTotalRequests, getRecentRequests, gets.
  cbn [fst snd]. rewrite logRequest_rows.
  set (rows := List.filter (fun x => since <=? timestamp x) (requests w)).
  split; [|split; [|split; [|split]]].
  - split; [|split].
    + apply (tally_lower (fun x => if approved x then 1 else 0)).
      intros x. destruct (approved x); lia.
    + apply (tally_lower (fun x => if approved x then 0 else 1)).
      intros x. destruct (approved x); lia.
    + rewrite (tally_split approved). lia.
  - rewrite List.filter_app, length_app. fold rows. cbn [List.filter timestamp].
    destruct (since <=? timestamp e); simpl; lia.
  - rewrite List.filter_app, fold_left_app. fold rows. cbn [List.filter timestamp].
    destruct (since <=? timestamp e); simpl; [|destruct (approved e); lia].
    reflexivity.
  - rewrite List.filter_app, fold_left_app. fold rows. cbn [List.filter timestamp].
    destruct (since <=? timestamp e); simpl; [|destruct (approved e); lia].
    reflexivity.
  - rewrite rev_app_distr. simpl rev. cbn [app].
    destruct (Z.ltb_spec limit 0) as [Hl|Hl].
    + destruct (Z.eqb_spec limit 0); [lia | reflexivity].
    + destruct (Z.eqb_spec limit 0) as [->|Hne]; [reflexivity|].
      destruct (Z.to_nat limit) eqn:En; [lia | reflexivity].
Qed.

(** ** Admin surface: the IP allowlist *)

Import Admin.

Section Int32Facts.

Lemma uint32_int32 (z : Z) : uint32 (int32 z) = uint32 z.
Proof.
  unfold uint32, int32.
  rewrite <- Zminus_mod_idemp_l, Z.mod_mod by lia.
  rewrite Zminus_mod_idemp_l. f_equal. lia.
Qed.

Lemma int32_uint32 (u v : Z) : int32 u = int32 v <-> uint32 u = uint32 v.
Proof.
  split; intros H.
  - rewrite <- (uint32_int32 u), <- (uint32_int32 v). now rewrite H.
  - unfold int32, uint32 in *. f_equal.
    rewrite <- (Zplus_mod_idemp_l u), <- (Zplus_mod_idemp_l v). now rewrite H.
Qed.

Lemma uint32_land_ones (z : Z) : uint32 z = Z.land z (Z.ones 32).
Proof. unfold uint32. now rewrite Z.land_ones by lia. Qed.

Lemma uint32_bitor (x y : Z) : uint32 (bitor x y) = Z.lor (uint32 x) (uint32 y).
Proof.
  unfold bitor. rewrite uint32_int32, <- (uint32_int32 x), <- (uint32_int32 y).
  rewrite !uint32_land_ones. apply Z.land_lor_distr_l.
Qed.

Lemma uint32_bitand (x y : Z) : uint32 (bitand x y) = Z.land (uint32 x) (uint32 y).
Proof.
  unfold bitand. rewrite uint32_int32, <- (uint32_int32 x), <- (uint32_int32 y).
  rewrite !uint32_land_ones. apply Z.bits_inj'. intros i Hi.
  rewrite !Z.land_spec. destruct (Z.testbit (int32 x) i), (Z.testbit (int32 y) i),
    (Z.testbit (Z.ones 32) i); reflexivity.
Qed.

Lemma uint32_shl (a k : Z) :
  0 <= k < 32 -> uint32 (shl a k) = uint32 (a * 2 ^ k).
Proof.
  intros Hk. unfold shl. rewrite uint32_int32.
  replace (uint32 k mod 32) with k
    by (unfold uint32; rewrite (Z.mod_small k (2 ^ 32)), (Z.mod_small k 32); lia).
  rewrite Z.shiftl_mul_pow2 by lia. unfold uint32.
  rewrite <- Zmult_mod_idemp_l. fold (uint32 (int32 a)). rewrite uint32_int32.
  unfold uint32. now rewrite Zmult_mod_idemp_l.
Qed.

Lemma lor_high_low (x y k : Z) :
  0 <= k -> 0 <= y < 2 ^ k -> Z.lor (x * 2 ^ k) y = x * 2 ^ k + y.
Proof.
  intros Hk Hy.
  assert (H0 : Z.land (x * 2 ^ k) y = 0).
  { apply Z.bits_inj'. intros i Hi. rewrite Z.land_spec, Z.bits_0.
    destruct (Z.lt_ge_cases i k) as [Hlt|Hge].
    - now rewrite Z.mul_pow2_bits_low.
    - rewrite <- (Z.mod_small y (2 ^ k)) by lia.
      rewrite Z.mod_pow2_bits_high by lia. apply andb_false_r. }
  rewrite Z.add_nocarry_lxor by exact H0. symmetry. now apply Z.lxor_lor.
Qed.

(** Masking with the upper [32 - k] bits clears the lower [k] bits. *)
Lemma land_upper (x k : Z) :
  0 <= k <= 32 -> 0 <= x < 2 ^ 32 ->
  Z.land x (2 ^ 32 - 2 ^ k) = x / 2 ^ k * 2 ^ k.
Proof.
  intros Hk Hx.
  replace (2 ^ 32 - 2 ^ k) with (Z.ones (32 - k) * 2 ^ k).
  2:{ rewrite Z.ones_equiv, Z.mul_pred_l, <- Z.pow_add_r by lia.
      replace (32 - k + k) with 32 by lia. reflexivity. }
  apply Z.bits_inj'. intros i Hi. rewrite Z.land_spec.
  destruct (Z.lt_ge_cases i k) as [Hlt|Hge].
  - rewrite !Z.mul_pow2_bits_low by lia. apply andb_false_r.
  - rewrite !Z.mul_pow2_bits by lia.
    rewrite Z.div_pow2_bits by lia. replace (i - k + k) with i by lia.
    destruct (Z.lt_ge_cases i 32) as [Hi32|Hi32].
    + rewrite Z.ones_spec_low by lia. apply andb_true_r.
    + rewrite <- (Z.mod_small x (2 ^ 32)) by lia.
      now rewrite Z.mod_pow2_bits_high by lia.
Qed.

End Int32Facts.

Section AddressText.

Lemma includes_app (c : ascii) (s t : string) :
  includes c (s ++ t) = includes c s || includes c t.
Proof.
  induction s as [|d s IH]; [reflexivity|].
  change (String d s ++ t) with (String d (s ++ t)). simpl.
  rewrite IH. apply orb_assoc.
Qed.

Lemma before_first_plain (c : ascii) (s : string) :
  includes c s = false -> before_first c s = s.
Proof.
  induction s as [|d s IH]; [reflexivity|]. simpl.
  destruct (Ascii.eqb d c); [discriminate|]. simpl. intros H. now rewrite IH.
Qed.

Lemma split_aux_plain (sep : ascii) (s cur : string) :
  includes sep s = false -> split_aux sep cur s = [cur ++ s].
Proof.
  revert cur. induction s as [|d s IH]; intros cur; simpl.
  - intros _. now rewrite app_empty_string.
  - destruct (Ascii.eqb d sep); [discriminate|]. simpl. intros H.
    rewrite (IH _ H), app_assoc_string. reflexivity.
Qed.

Lemma split_aux_app (sep : ascii) (s cur rest : string) :
  includes sep s = false ->
  split_aux sep cur (s ++ String sep rest) = (cur ++ s) :: split_aux sep "" rest.
Proof.
  revert cur. induction s as [|d s IH]; intros cur.
  - intros _. change ("" ++ String sep rest) with (String sep rest). simpl.
    now rewrite Ascii.eqb_refl, app_empty_string.
  - change (String d s ++ String sep rest) with (String d (s ++ String sep rest)).
    simpl. destruct (Ascii.eqb d sep); [discriminate|]. simpl. intros H.
    rewrite (IH _ H), app_assoc_string. reflexivity.
Qed.

Lemma octet_text (a : Z) :
  octet a ->
  canonical_octet (pretty a) = true /\ Number (pretty a) = a
  /\ includes "." (pretty a) = false /\ includes "/" (pretty a) = false
  /\ includes ":" (pretty a) = false.
Proof.
  intros Ha.
  assert (H : forallb (fun x => canonical_octet (pretty x) && (Number (pretty x) =? x)
                                && negb (includes "." (pretty x))
                                && negb (includes "/" (pretty x))
                                && negb (includes ":" (pretty x)))
                (seqZ 0 256) = true) by (vm_compute; reflexivity).
  rewrite forallb_forall in H. specialize (H a).
  assert (Hin : In a (seqZ 0 256)).
  { apply list_elem_of_In, elem_of_seqZ. unfold octet in Ha. lia. }
  apply H in Hin. rewrite !andb_true_iff, !negb_true_iff, Z.eqb_eq in Hin. tauto.
Qed.

Lemma prefix_text (n : Z) :
  0 <= n <= 32 ->
  parseInt10 (pretty n) = Some n /\ includes "/" (pretty n) = false
  /\ mask_of n = 2 ^ 32 - 2 ^ (32 - n).
Proof.
  intros Hn.
  assert (H : forallb (fun x => match parseInt10 (pretty x) with
                                | Some y => y =? x
                                | None => false
                                end
                                && negb (includes "/" (pretty x))
                                && (mask_of x =? 2 ^ 32 - 2 ^ (32 - x)))
                (seqZ 0 33) = true) by (vm_compute; reflexivity).
  rewrite forallb_forall in H. specialize (H n).
  assert (Hin : In n (seqZ 0 33)).
  { apply list_elem_of_In, elem_of_seqZ. lia. }
  apply H in Hin. rewrite !andb_true_iff, !negb_true_iff, Z.eqb_eq in Hin.
  destruct Hin as [[H1 H2] H3].
  destruct (parseInt10 (pretty n)) as [y|]; [|discriminate].
  apply Z.eqb_eq in H1. subst y. tauto.
Qed.

End AddressText.

Section CidrFacts.

Lemma dotted_split (a b c d : Z) :
  octet a -> octet b -> octet c -> octet d ->
  split_on "." (dotted a b c d) = [pretty a; pretty b; pretty c; pretty d]
  /\ includes "/" (dotted a b c d) = false
  /\ startsWith (dotted a b c d) "::ffff:" = false.
Proof.
  intros Ha Hb Hc Hd.
  destruct (octet_text a Ha) as (Ha0 & _ & Ha1 & Ha2 & Ha3).
  destruct (octet_text b Hb) as (_ & _ & Hb1 & Hb2 & _).
  destruct (octet_text c Hc) as (_ & _ & Hc1 & Hc2 & _).
  destruct (octet_text d Hd) as (_ & _ & Hd1 & Hd2 & _).
  unfold dotted, split_on.
  change (pretty a ++ "." ++ pretty b ++ "." ++ pretty c ++ "." ++ pretty d)
    with (pretty a ++ String "." (pretty b ++ String "." (pretty c
                                    ++ String "." (pretty d)))).
  split; [|split].
  - rewrite (split_aux_app _ _ _ _ Ha1), (split_aux_app _ _ _ _ Hb1),
      (split_aux_app _ _ _ _ Hc1), (split_aux_plain _ _ _ Hd1). reflexivity.
  - rewrite includes_app, Ha2. cbn [includes orb Ascii.eqb Bool.eqb].
    rewrite includes_app, Hb2. cbn [includes orb Ascii.eqb Bool.eqb].
    rewrite includes_app, Hc2. cbn [includes orb Ascii.eqb Bool.eqb]. exact Hd2.
  - destruct (pretty a) as [|x r]; [discriminate|].
    simpl in Ha3. apply orb_false_iff in Ha3 as [Hx _].
    match goal with
    | |- startsWith (String x r ++ ?t) _ = false =>
        change (String x r ++ t) with (String x (r ++ t))
    end.
    cbn [startsWith].
    destruct (Ascii.eqb_spec ":" x) as [<-|_]; [discriminate | reflexivity].
Qed.

Lemma isIPv4_dotted (a b c d : Z) :
  octet a -> octet b -> octet c -> octet d -> isIPv4 (dotted a b c d) = true.
Proof.
  intros Ha Hb Hc Hd. unfold isIPv4.
  rewrite (proj1 (dotted_split a b c d Ha Hb Hc Hd)).
  cbn [List.length forallb Nat.eqb andb].
  now rewrite (proj1 (octet_text a Ha)), (proj1 (octet_text b Hb)),
    (proj1 (octet_text c Hc)), (proj1 (octet_text d Hd)).
Qed.

Lemma ipv4_value_range (a b c d : Z) :
  octet a -> octet b -> octet c -> octet d -> 0 <= ipv4_value a b c d < 2 ^ 32.
Proof.
  unfold octet, ipv4_value.
  change (2 ^ 32) with 4294967296. change (2 ^ 24) with 16777216.
  change (2 ^ 16) with 65536. change (2 ^ 8) with 256. lia.
Qed.

Lemma ipv4ToInt_dotted (a b c d : Z) :
  octet a -> octet b -> octet c -> octet d ->
  ipv4ToInt (dotted a b c d) = ipv4_value a b c d.
Proof.
  intros Ha Hb Hc Hd. unfold ipv4ToInt.
  rewrite (proj1 (dotted_split a b c d Ha Hb Hc Hd)).
  cbn [List.map nth].
  rewrite (proj1 (proj2 (octet_text a Ha))), (proj1 (proj2 (octet_text b Hb))),
    (proj1 (proj2 (octet_text c Hc))), (proj1 (proj2 (octet_text d Hd))).
  unfold ushr0. rewrite !uint32_bitor, !uint32_shl by lia.
  unfold octet in *. unfold uint32, ipv4_value.
  rewrite (Z.mod_small (a * 2 ^ 24)), (Z.mod_small (b * 2 ^ 16)),
    (Z.mod_small (c * 2 ^ 8)), (Z.mod_small d)
    by (change (2 ^ 32) with 4294967296; change (2 ^ 24) with 16777216;
        change (2 ^ 16) with 65536; change (2 ^ 8) with 256; lia).
  rewrite (lor_high_low a (b * 2 ^ 16) 24)
    by (change (2 ^ 24) with 16777216; change (2 ^ 16) with 65536; lia).
  replace (a * 2 ^ 24 + b * 2 ^ 16) with ((a * 2 ^ 8 + b) * 2 ^ 16)
    by (change (2 ^ 24) with 16777216; change (2 ^ 16) with 65536;
        change (2 ^ 8) with 256; lia).
  rewrite (lor_high_low _ (c * 2 ^ 8) 16)
    by (change (2 ^ 16) with 65536; change (2 ^ 8) with 256; lia).
  replace ((a * 2 ^ 8 + b) * 2 ^ 16 + c * 2 ^ 8)
    with ((a * 2 ^ 16 + b * 2 ^ 8 + c) * 2 ^ 8)
    by (change (2 ^ 16) with 65536; change (2 ^ 8) with 256; lia).
  rewrite (lor_high_low _ d 8) by (change (2 ^ 8) with 256; lia).
  change (2 ^ 24) with 16777216. change (2 ^ 16) with 65536.
  change (2 ^ 8) with 256. lia.
Qed.

End CidrFacts.

(** X24. A CIDR entry of the admin allowlist admits exactly the
    addresses that agree with its network on the first [n] bits: for
    dotted-decimal addresses and a prefix length between 0 and 32,
    [ipMatchesEntry] holds iff the two 32-bit values have the same
    quotient by [2^(32-n)], whatever the sign the 32-bit operations of
    the source give to the intermediate results; the same holds for a
    client address in its IPv4-mapped form [::ffff:a.b.c.d]. *)
Theorem cidr_entry_matches_prefix (a b c d a' b' c' d' n : Z) :
  octet a -> octet b -> octet c -> octet d ->
  octet a' -> octet b' -> octet c' -> octet d' ->
  0 <= n <= 32 ->
  let entry := dotted a' b' c' d' ++ "/" ++ pretty n in
  let same_prefix :=
    ipv4_value a b c d / 2 ^ (32 - n) = ipv4_value a' b' c' d' / 2 ^ (32 - n) in
  (isIpInCidr (dotted a b c d) entry = true <-> same_prefix)
  /\ (ipMatchesEntry (dotted a b c d) entry = true <-> same_prefix)
  /\ (ipMatchesEntry ("::ffff:" ++ dotted a b c d) entry = true <-> same_prefix).
Proof.
  intros Ha Hb Hc Hd Ha' Hb' Hc' Hd' Hn entry same_prefix.
  destruct (dotted_split a b c d Ha Hb Hc Hd) as (_ & _ & Hplain).
  destruct (dotted_split a' b' c' d' Ha' Hb' Hc' Hd') as (_ & Hslash & _).
  destruct (prefix_text n Hn) as (Hparse & Hnslash & Hmask).
  pose proof (ipv4_value_range a b c d Ha Hb Hc Hd) as HX.
  pose proof (ipv4_value_range a' b' c' d' Ha' Hb' Hc' Hd') as HY.
  assert (Hcidr : isIpInCidr (dotted a b c d) entry = true <-> same_prefix).
  { unfold isIpInCidr, entry.
    change (dotted a' b' c' d' ++ "/" ++ pretty n)
      with (dotted a' b' c' d' ++ String "/" (pretty n)).
    rewrite (before_first_app _ _ _ (before_first_plain _ _ Hslash)),
      (after_first_app _ _ _ (before_first_plain _ _ Hslash)),
      (before_first_plain _ _ Hnslash), Hparse,
      (isIPv4_dotted a b c d Ha Hb Hc Hd), (isIPv4_dotted a' b' c' d' Ha' Hb' Hc' Hd').
    cbn [negb orb]. cbv iota.
    replace ((n <? 0) || (32 <? n)) with false
      by (symmetry; apply orb_false_iff; split; apply Z.ltb_ge; lia).
    cbv zeta. rewrite !ipv4ToInt_dotted, Hmask by assumption.
    unfold same_prefix.
    set (X := ipv4_value a b c d) in *. set (Y := ipv4_value a' b' c' d') in *.
    set (k := 32 - n).
    assert (Hk : 0 <= k <= 32) by (unfold k; lia).
    assert (Hpow : 0 < 2 ^ k <= 2 ^ 32).
    { split; [apply Z.pow_pos_nonneg; lia | apply Z.pow_le_mono_r; lia]. }
    assert (HM : uint32 (2 ^ 32 - 2 ^ k) = 2 ^ 32 - 2 ^ k).
    { unfold uint32. apply Z.mod_small. lia. }
    assert (Hu : forall x, 0 <= x < 2 ^ 32 ->
                           uint32 (bitand x (2 ^ 32 - 2 ^ k)) = x / 2 ^ k * 2 ^ k).
    { intros x Hx. rewrite uint32_bitand, HM. unfold uint32.
      rewrite (Z.mod_small x) by exact Hx. now apply land_upper. }
    rewrite Z.eqb_eq. split.
    - intros H. apply (f_equal uint32) in H. rewrite !Hu in H by assumption.
      apply Z.mul_cancel_r in H; [exact H | lia].
    - intros H. unfold bitand. apply int32_uint32.
      pose proof (Hu X HX) as H1. pose proof (Hu Y HY) as H2.
      unfold bitand in H1, H2. rewrite uint32_int32 in H1, H2.
      now rewrite H1, H2, H. }
  split; [exact Hcidr|].
  assert (Hinc : includes "/" entry = true).
  { unfold entry.
    change (dotted a' b' c' d' ++ "/" ++ pretty n)
      with (dotted a' b' c' d' ++ String "/" (pretty n)).
    rewrite includes_app. cbn [includes]. rewrite Ascii.eqb_refl.
    apply orb_true_r. }
  split.
  - unfold ipMatchesEntry, strip_mapped. now rewrite Hinc, Hplain.
  - unfold ipMatchesEntry, strip_mapped.
    rewrite Hinc, (startsWith_app "::ffff:" (dotted a b c d)). exact Hcidr.
Qed.

Lemma cidr_entry_matches_prefix_witness :
  octet 192 /\ octet 168 /\ octet 1 /\ octet 50 /\ octet 0 /\ 0 <= 24 <= 32
  /\ ipMatchesEntry "::ffff:192.168.1.50" "192.168.1.0/24" = true.
Proof.
  assert (H192 : octet 192) by (unfold octet; lia).
  assert (H168 : octet 168) by (unfold octet; lia).
  assert (H1 : octet 1) by (unfold octet; lia).
  assert (H50 : octet 50) by (unfold octet; lia).
  assert (H0 : octet 0) by (unfold octet; lia).
  assert (H24 : 0 <= 24 <= 32) by lia.
  repeat (split; [assumption|]).
  apply (proj2 (proj2 (cidr_entry_matches_prefix 192 168 1 50 192 168 1 0 24
                         H192 H168 H1 H50 H192 H168 H1 H0 H24))).
  vm_compute. reflexivity.
Defined.

(** X25. The IP allowlist of the admin surface on entries without a
    prefix length: the client (the request's address, else the address
    of the socket) is admitted iff some entry is the client address
    itself or the client address is the IPv4-mapped form [::ffff:] of
    that entry.  An empty allowlist admits nobody. *)
Theorem exact_entries_admit (allowed : list string) (ip remote : string) :
  Forall (fun entry => includes "/" entry = false) allowed ->
  let client := or_else ip (or_else remote "") in
  (ip_allowed allowed ip remote = true
   <-> exists entry, In entry allowed /\ (client = entry \/ client = "::ffff:" ++ entry))
  /\ ip_allowed [] ip remote = false.
Proof.
  intros Hall client. split; [|reflexivity].
  unfold ip_allowed. fold client. rewrite existsb_exists.
  rewrite Forall_forall in Hall.
  assert (Hone : forall entry, includes "/" entry = false ->
                   (ipMatchesEntry client entry = true
                    <-> client = entry \/ client = "::ffff:" ++ entry)).
  { intros entry Hplain. unfold ipMatchesEntry. rewrite Hplain.
    rewrite !orb_true_iff, !String.eqb_eq. split.
    - intros [[H|H]|H]; [now left | | now right].
      unfold strip_mapped in H.
      destruct (startsWith client "::ffff:") eqn:Hs; [|now left].
      apply startsWith_spec in Hs as [rest Hs]. right. rewrite Hs in H |- *.
      change (substring_from 7 ("::ffff:" ++ rest)) with rest in H. now rewrite H.
    - intros [H|H]; [left; now left | now right]. }
  split.
  - intros (entry & Hin & Hm). exists entry. split; [exact Hin|].
    apply Hone; [|exact Hm]. apply Hall, list_elem_of_In, Hin.
  - intros (entry & Hin & Hm). exists entry. split; [exact Hin|].
    apply Hone; [|exact Hm]. apply Hall, list_elem_of_In, Hin.
Qed.

Lemma exact_entries_admit_witness :
  Forall (fun entry => includes "/" entry = false) ["127.0.0.1"; "::1"]
  /\ ip_allowed ["127.0.0.1"; "::1"] "::ffff:127.0.0.1" "" = true.
Proof.
  assert (H : Forall (fun entry => includes "/" entry = false) ["127.0.0.1"; "::1"]).
  { repeat constructor. }
  split; [exact H|].
  apply (proj1 (exact_entries_admit ["127.0.0.1"; "::1"] "::ffff:127.0.0.1" "" H)).
  exists "127.0.0.1". split; [now left | now right].
Defined.

(** ** Approval Coordinator: request ids *)

Section RequestIds.

Lemma pretty_N_char_plain (y : N) : Ascii.eqb (pretty_N_char y) "_" = false.
Proof.
  destruct y as [|p]; [reflexivity|].
  do 4 (try destruct p as [p|p|]); reflexivity.
Qed.

Lemma pretty_N_go_plain (x : N) (s : string) :
  includes "_" s = false -> includes "_" (pretty_N_go x s) = false.
Proof.
  revert s. induction x as [x IH] using (well_founded_induction N.lt_wf_0).
  intros s Hs. destruct (decide (x = 0)%N) as [->|Hx].
  - now rewrite pretty_N_go_0.
  - rewrite pretty_N_go_step by lia. apply IH; [apply N.div_lt; lia|].
    cbn [includes]. now rewrite pretty_N_char_plain, Hs.
Qed.

Lemma pretty_Z_plain (z : Z) : includes "_" (pretty z) = false.
Proof.
  destruct z as [|p|p].
  - reflexivity.
  - change (includes "_" (pretty_N_go (N.pos p) "") = false).
    now apply pretty_N_go_plain.
  - change (includes "_" (String "-" (pretty_N_go (N.pos p) "")) = false).
    cbn [includes]. rewrite pretty_N_go_plain by reflexivity. reflexivity.
Qed.

End RequestIds.

(** X26. Request ids never repeat within a process: each call of
    [generateRequestId] raises the counter by one, and an id generated
    once the counter has reached the value a former call left differs
    from the id of that call, even when the clock reads the same or has
    gone back. *)
Theorem request_ids_never_repeat (w w2 : World) :
  requestCounter (snd (generateRequestId w)) <= requestCounter w2 ->
  fst (generateRequestId w2) <> fst (generateRequestId w)
  /\ requestCounter (snd (generateRequestId w)) = requestCounter w + 1
  /\ requestCounter (snd (generateRequestId w2)) = requestCounter w2 + 1.
Proof.
  intros Hle. split; [|split; reflexivity].
  change (requestCounter (snd (generateRequestId w))) with (requestCounter w + 1) in Hle.
  change (fst (generateRequestId w2))
    with ("req_" ++ pretty (clock w2) ++ String "_" (pretty (requestCounter w2 + 1))).
  change (fst (generateRequestId w))
    with ("req_" ++ pretty (clock w) ++ String "_" (pretty (requestCounter w + 1))).
  intros H.
  change ("req_" ++ ?x) with (String "r" (String "e" (String "q" (String "_" x)))) in H.
  injection H as H.
  apply (f_equal (after_first "_")) in H.
  rewrite !after_first_app in H by (apply before_first_plain, pretty_Z_plain).
  injection H as H. apply pretty_Z_inj in H. lia.
Qed.

Lemma request_ids_never_repeat_witness :
  requestCounter (snd (generateRequestId (empty_world 1000)))
  <= requestCounter (snd (generateRequestId (empty_world 1000)))
  /\ fst (generateRequestId (snd (generateRequestId (empty_world 1000))))
     <> fst (generateRequestId (empty_world 1000)).
Proof.
  assert (H : requestCounter (snd (generateRequestId (empty_world 1000)))
              <= requestCounter (snd (generateRequestId (empty_world 1000)))) by lia.
  split; [exact H|].
  exact (proj1 (request_ids_never_repeat (empty_world 1000)
                  (snd (generateRequestId (empty_world 1000))) H)).
Defined.

(** ** Admin surface: masked credentials *)

Section MaskFacts.

Lemma substring_split (n : nat) (s : string) :
  (n <= String.length s)%nat ->
  s = String.substring 0 n s ++ substring_from n s
  /\ String.length (String.substring 0 n s) = n
  /\ String.length (substring_from n s) = (String.length s - n)%nat.
Proof.
  revert s. induction n as [|n IH]; intros s Hn.
  - destruct s; simpl; repeat split; lia.
  - destruct s as [|c s]; simpl in Hn; [lia|].
    destruct (IH s ltac:(lia)) as (H1 & H2 & H3).
    cbn [String.substring substring_from String.length].
    change (String c (String.substring 0 n s) ++ substring_from n s)
      with (String c (String.substring 0 n s ++ substring_from n s)).
    rewrite <- H1, H2, H3. repeat split.
Qed.

Lemma substring_from_add (n m : nat) (s : string) :
  substring_from (n + m) s = substring_from m (substring_from n s).
Proof.
  revert s. induction n as [|n IH]; intros s; [reflexivity|].
  destruct s as [|c s]; simpl; [now destruct m | apply IH].
Qed.

End MaskFacts.

(** X27. A masked token shows at most eight characters of the token
    and none of a token of eight characters or fewer: such a token is
    rendered as four stars, and a longer one as its first four
    characters, four stars and its last four characters, with at least
    one character hidden; the mask has length 4 or 12, so of the length
    of the token it tells only whether it exceeds eight. *)
Theorem maskToken_hides (token : string) :
  ((String.length token <= 8)%nat -> maskToken token = "****")
  /\ ((8 < String.length token)%nat ->
      exists head hidden tail,
        token = head ++ hidden ++ tail
        /\ String.length head = 4%nat /\ String.length tail = 4%nat
        /\ (0 < String.length hidden)%nat
        /\ maskToken token = head ++ "****" ++ tail)
  /\ (String.length (maskToken token) = 4%nat
      \/ String.length (maskToken token) = 12%nat).
Proof.
  unfold maskToken. destruct (Nat.leb_spec (String.length token) 8) as [Hle|Hgt].
  - split; [reflexivity|]. split; [lia | now left].
  - destruct (substring_split 4 token ltac:(lia)) as (H1 & H2 & H3).
    destruct (substring_split (String.length token - 8) (substring_from 4 token)
                ltac:(lia)) as (H4 & H5 & H6).
    assert (Htail : substring_from (String.length token - 4) token
                    = substring_from (String.length token - 8)
                        (substring_from 4 token)).
    { rewrite <- substring_from_add. f_equal. lia. }
    split; [lia|]. split.
    + intros _.
      exists (String.substring 0 4 token),
             (String.substring 0 (String.length token - 8) (substring_from 4 token)),
             (substring_from (String.length token - 4) token).
      rewrite Htail, <- H4, <- H1, H2, H5, H6, H3. repeat split; lia.
    + right. rewrite !length_app_string, H2, Htail, H6, H3. simpl. lia.
Qed.

Lemma maskToken_hides_witness :
  (String.length "hunter2" <= 8)%nat /\ maskToken "hunter2" = "****".
Proof.
  assert (H : (String.length "hunter2" <= 8)%nat) by (simpl; lia).
  split; [exact H | exact (proj1 (maskToken_hides "hunter2") H)].
Defined.

(** ** Proxy Engine: the upstream response *)

Import Relay.

Section RelayFacts.
Context {platform : UrlPlatform}.

Lemma clip_clipped (config : Config) (mark : string -> string) (body : string) :
  clipped (maxSize config) body (clip config mark body).
Proof.
  unfold clip, clipped.
  destruct (Z.ltb_spec (maxSize config) (Z.of_nat (String.length body))) as [Hlt|Hge];
    [right | left; now split].
  split; [exact Hlt|].
  destruct (substring_split (Z.to_nat (maxSize config)) body ltac:(lia))
    as (H1 & H2 & _).
  exists (String.substring 0 (Z.to_nat (maxSize config)) body),
         (substring_from (Z.to_nat (maxSize config)) body), (mark body).
  split; [exact H1|]. split; [rewrite H2; lia | reflexivity].
Qed.

Lemma logRequest_run (e : AuditEntry) (w : World) :
  let row := {| timestamp := timestamp e; entry_service := entry_service e;
                method := method e; entry_path := entry_path e;
                approved := approved e; responseStatus := responseStatus e;
                agentIp := agentIp e; requestBody := or_null (requestBody e);
                responseBody := or_null (responseBody e) |} in
  let w' := snd (logRequest e w) in
  requests w' = (requests w ++ [row])%list
  /\ trace w' = (trace w ++ [InsertRequest row])%list
  /\ activeApprovals w' = activeApprovals w /\ approvals w' = approvals w.
Proof. cbv zeta. repeat split. Qed.

End RelayFacts.

(** X28. Redirect responses.  With [followRedirects] off, the response
    callback of the path-prefix handler treats a 3xx response that
    carries a [Location] in one of three ways, according to that
    location resolved against the URL that was requested: when it does
    not resolve, the callback throws, with no answer and no audit
    record; when it resolves and fails the runtime check, the agent is
    answered 403 and exactly one audit record is written, with [approved
    = true] and status 403; when it passes the runtime check, and then
    it has the host name of the configured upstream, the response is
    relayed and nothing is written.  The host-header handler has no such
    check: it relays every response, redirects to any host included, and
    writes nothing at that point. *)
Theorem redirects_checked_in_path_mode_only `{platform : UrlPlatform}
    (config : Config) (req : Request) (p : Pending) (proxyRes : UpstreamResponse)
    (loc : string) (w : World) :
  followRedirects (security config) = false ->
  is_redirect proxyRes = true ->
  location proxyRes = Some loc ->
  let respond_to := handleProxy_response config req p proxyRes in
  match URL_new loc (Some (toString (sent_url req p))) with
  | None => respond_to w = (CallbackThrew, w)
  | Some target =>
      if valid (validateRuntimeUrl (toString target) (upstream (serviceConfig p))
                  (security config))
      then respond_to w = (relay proxyRes, w)
           /\ exists constructed original,
                URL_new (toString target) None = Some constructed
                /\ URL_new (upstream (serviceConfig p)) None = Some original
                /\ hostname constructed = hostname original
      else fst (respond_to w) = RedirectBlocked
           /\ effects_of respond_to w
              = [InsertRequest
                   (forwarded_entry (clock w) req p 403
                      (or_null (requestBodyLog config path_mark req)) None)]
           /\ requests (snd (respond_to w))
              = (requests w
                 ++ [forwarded_entry (clock w) req p 403
                       (or_null (requestBodyLog config path_mark req)) None])%list
           /\ activeApprovals (snd (respond_to w)) = activeApprovals w
           /\ forwards (snd (respond_to w)) = forwards w
  end
  /\ handleHostProxy_response config req p proxyRes w = (relay proxyRes, w).
Proof.
  intros Hf Hred Hloc respond_to. split; [|reflexivity].
  unfold respond_to, effects_of, handleProxy_response.
  rewrite Hf, Hred, Hloc. simpl negb. cbv iota. cbn [andb].
  destruct (URL_new loc _) as [target|] eqn:Ht; [|reflexivity].
  destruct (valid (validateRuntimeUrl (toString target) (upstream (serviceConfig p))
                     (security config))) eqn:Hv; simpl negb; cbv iota.
  - split; [reflexivity|].
    destruct (runtime_valid_pins_host _ _ _ Hv) as (c & o & Hc & Ho & Hh).
    now exists c, o.
  - split; [reflexivity|]. split; [apply drop_app_length|]. split; [reflexivity|].
    split; [reflexivity|].
    unfold forwards. simpl. rewrite List.filter_app. simpl. apply app_nil_r.
Qed.

Lemma redirects_checked_in_path_mode_only_witness :
  let moved := {| statusCode := Some 302;
                  response_headers := [("location", HString "https://evil.example/")] |} in
  let req := request "GET" "/gh/user" "gh" [with_key] in
  followRedirects (security gh_config) = false
  /\ is_redirect moved = true
  /\ location moved = Some "https://evil.example/"
  /\ fst (handleProxy_response (platform := whatwg) gh_config req gh_user_pending moved
            (empty_world 1000)) = RedirectBlocked
  /\ handleHostProxy_response (platform := whatwg) gh_config req gh_user_pending moved
       (empty_world 1000)
     = (relay moved, empty_world 1000).
Proof.
  intros moved req.
  assert (H1 : followRedirects (security gh_config) = false) by reflexivity.
  assert (H2 : is_redirect moved = true) by reflexivity.
  assert (H3 : location moved = Some "https://evil.example/") by reflexivity.
  repeat (split; [assumption|]).
  split; [vm_compute; reflexivity|].
  exact (proj2 (redirects_checked_in_path_mode_only (platform := whatwg)
                  gh_config req gh_user_pending moved "https://evil.example/"
                  (empty_world 1000) H1 H2 H3)).
Defined.

(** X29. The payload log.  The [end] handler of either response
    callback writes one audit record, with [approved = true] and the
    status of the response (0 when it has none).  The record holds no
    body when payload logging is off; when it holds the request body or
    the response body, what it holds is that body cut at the configured
    size, the body itself when it is within the size and else its first
    characters up to the size followed by a mark, where a configured size
    of 0 counts as 10240. *)
Theorem payload_log_is_clipped `{platform : UrlPlatform}
    (config : Config) (req : Request) (p : Pending) (proxyRes : UpstreamResponse)
    (chunks : list string) (w : World) :
  let logs (handler : Config -> Request -> Pending -> UpstreamResponse
                      -> list string -> M unit) :=
    exists reqLog resLog,
      requests (snd (handler config req p proxyRes chunks w))
      = (requests w
         ++ [forwarded_entry (clock w) req p (status_or (statusCode proxyRes) 0)
               reqLog resLog])%list
      /\ (audit_logPayload config = false -> reqLog = None /\ resLog = None)
      /\ (forall b, reqLog = Some b -> clipped (maxSize config) (req_body req) b)
      /\ (forall b, resLog = Some b ->
                    clipped (maxSize config) (String.concat "" chunks) b) in
  logs handleProxy_end /\ logs handleHostProxy_end
  /\ (maxPayloadLogSize (security config) = 0 -> maxSize config = 10240)
  /\ (maxPayloadLogSize (security config) <> 0 ->
      maxSize config = maxPayloadLogSize (security config)).
Proof.
  assert (Hreq : forall mark b,
             or_null (requestBodyLog config mark req) = Some b ->
             clipped (maxSize config) (req_body req) b).
  { intros mark b. unfold requestBodyLog.
    destruct (audit_logPayload config && negb (String.eqb (req_body req) ""));
      [|discriminate].
    simpl. destruct (String.eqb (clip config mark (req_body req)) ""); [discriminate|].
    intros [= <-]. apply clip_clipped. }
  assert (Hres : forall mark b,
             or_null (responseBodyLog config mark chunks) = Some b ->
             clipped (maxSize config) (String.concat "" chunks) b).
  { intros mark b. unfold responseBodyLog.
    destruct (audit_logPayload config); [|discriminate].
    destruct (negb (List.length chunks =? 0)%nat); [|discriminate].
    simpl. destruct (String.eqb (clip config mark (String.concat "" chunks)) "");
      [discriminate|].
    intros [= <-]. apply clip_clipped. }
  assert (Hoff : forall mark, audit_logPayload config = false ->
             or_null (requestBodyLog config mark req) = None
             /\ or_null (responseBodyLog config mark chunks) = None).
  { intros mark Hoff. unfold requestBodyLog, responseBodyLog. now rewrite Hoff. }
  cbv zeta. split; [|split; [|split]].
  - exists (or_null (requestBodyLog config path_mark req)),
           (or_null (responseBodyLog config path_mark chunks)).
    split; [reflexivity|]. split; [apply Hoff|]. split; [apply Hreq | apply Hres].
  - exists (or_null (requestBodyLog config host_mark req)),
           (or_null (responseBodyLog config host_mark chunks)).
    split; [reflexivity|]. split; [apply Hoff|]. split; [apply Hreq | apply Hres].
  - intros H. unfold maxSize. now rewrite H.
  - intros H. unfold maxSize. now destruct (Z.eqb_spec (maxPayloadLogSize (security config)) 0).
Qed.
